(* ===== verification/_CoqProject ===== *)
-Q . S2P
Prelude.v
JsValue.v
ArgParse.v
Revision.v
ChangeDetector.v
Config.v
Gateway.v
Runtime.v
Pull.v
Push.v
EventLoop.v
Cli.v
