(* ===== verification/Prelude.v ===== *)
(** * A verification development for edgeci (src/edgeci.js)

    edgeci is a command-line tool that synchronises Apigee Edge API-proxy
    bundles between a directory and the Edge management API.  The whole
    program is the single file src/edgeci.js.  [pull] asks the gateway
    for each proxy's metadata and exports the bundle of every proxy whose
    [lastModifiedAt] stamp is newer than the one it remembers in the
    global object [data]; under [--continuous] it does this on every tick
    of [setInterval].  [push] zips each proxy directory, asks for its
    metadata and either updates the greatest revision or imports a new
    one, and deploys an imported revision when [--env] is given.  All of
    it is callbacks of the [request] library run by Node's event loop.

    ** Files, in dependency order

    - [Prelude.v] (this file): the state and exception monad [M] the
      handlers are written in (stdpp's [MBind] and [MRet], so
      [x ← m; k] is its bind), the pointwise equivalence of computations
      with its [Proper] instances and the monad laws, [forEach], the
      [edgeci] hint and [edgeci_rw] rewrite databases, the [unfold_m]
      tactic, and [count_if] with its list lemmas.
    - [JsValue.v]: JavaScript values as the program meets them in parsed
      JSON (a number, a string, NaN), with [Number()] coercion,
      [Math.max], binary [+], the string conversion of a URL template,
      and [Array.prototype.reduce] without an initial value ([reduce1]).
    - [Revision.v], Module [Revision]: [getMaxRevision] (lines 155-159)
      and [newRevision], the [lastRevision + 1] of [getProxyToPush]
      (line 197).
    - [ChangeDetector.v], Module [ChangeDetector]: the object [data]
      (line 9) as a [gmap] from proxy names to [{proxyName,
      lastRevision, lastModified}], with the fallback of property lookup
      to [Object.prototype] ([data_get]); the guard of [getProxyToPull]
      (line 173) is [shouldExport] and the assignment (lines 174-178) is
      [record].  The class [Detector] with its laws [DetectorLaws] is the
      interface the pull handlers rely on; [data_detector] implements it.
      An abstract detector that keeps the whole history of exports
      ([abs_should], [abs_observe]) is the specification.
    - [Config.v], Module [Config]: the global [args] record, the path
      helpers (lines 367-381), [isEmpty], the test [args.proxy[0] ===
      "all"], and the argument objects [pullWithArgs] and
      [pushWithArgs] build (lines 101-131).
    - [Gateway.v], Module [Gateway]: the request options of the six
      remote operations (lines 278-365): URL, method, query string,
      credentials and uploaded file.
    - [Runtime.v], Module [Runtime]: the process state ([data], [args],
      the directories of the disk, the pending callbacks as
      continuations, the interval timer, the trace of outgoing effects),
      the replies of the server, [JSON.parse] and the primitives
      ([request], [rimraf.sync], [logError], [console.log], [defaultLog]
      under [--quite], [verboseLog] under [--verbose], [setInterval]); and the
      [Preserves] framework that proves, once per handler, that it only
      appends to the trace, issues callbacks of a given kind, or leaves
      [data] alone.
    - [Pull.v], Module [Pull]: [pull], [pullProxies], [getProxyToPull],
      [getProxyList], [exportProxy] and their callbacks.
    - [Push.v], Module [Push]: [push], [getProxySourceDirs],
      [pushProxies], [zipProxy], [getProxyToPush], [importProxy],
      [updateProxy], [deployProxy] and their callbacks.
    - [EventLoop.v], Module [EventLoop]: [runCommand], [pullWithArgs],
      [pushWithArgs] and the exported API, and the event loop itself.  A
      world is a running state or a crashed one (an exception thrown in
      a callback ends the process).  The step relation [step] fires any
      pending callback with any reply, fires the interval timer, or calls
      the exported API, so it contains every interleaving of the
      asynchronous pipelines and of overlapping poll ticks; [run_sched]
      is its executable counterpart on a given schedule.  [timer_period]
      is the period Node gives the delay of [setInterval].
    - [ArgParse.v], Module [ArgParse]: the subset of the argparse 1.x
      library (a port of Python's argparse) that [parseArgs] uses:
      options with abbreviations, [--opt=value] and clusters of short
      options, negative numbers, [nargs: '*'], conversion by [parseInt],
      [storeTrue], defaults, required options, subcommands, [-h] and
      [-v].  It is a model of a library, not of src/: the library's own
      text is not part of the repository.  Its error monad is the sum
      type, with [stop] for help, version and errors.
    - [Cli.v], Module [Cli]: the option tables of [parseArgs],
      [addPullArgs] and [addPushArgs] (lines 12-80) as [addArgument]
      calls, the [args] object built from argparse's namespace and the
      environment, and [execute] (lines 82-85), which runs [runCommand]
      on it or ends with argparse's exit status.

    ** What is proved

    - Change detection: the concrete detector refines the abstract one
      that exports a proxy exactly when the observed stamp is newer than
      every stamp it has recorded ([detector_refinement]); on every
      reachable run of the event loop each (proxy, stamp) pair is
      exported at most once ([pull_exports_once]); the records of [data]
      only grow in stamp and stay well formed ([records_monotone],
      [records_well_formed]); a proxy named after a property of
      [Object.prototype] is never exported.
    - Handlers, branch by branch, errors included: the four outcomes of
      the pull metadata callback, the three of the push metadata
      callback, the import callback, the update callback, the listing of
      "all" proxies for a pull and the source subdirectories for a push,
      and the crash on an empty revision list.
    - Revisions: [getMaxRevision] is the maximum on numbers and NaN as
      soon as one revision does not convert; [newRevision] is one more
      than the maximum, so a push without [--update] imports the
      maximum plus one ([getProxyToPush_cb_import], for numeric
      revisions); a single string revision is concatenated.
    - Ordering and safety on the event loop: a deploy request is issued
      only after a successful import of the same revision
      ([deploy_only_after_import]); the push issues its import while the
      zip callback is still pending; a crash in one callback ends every
      pipeline ([empty_revisions_crash]); the exported
      [pushWithArgs] runs [pull], and [pullWithArgs] never polls.
    - Termination and progress of the event loop: every sequence of
      callback completions is finite whatever the server replies
      ([callback_cascade_terminates], by a lexicographic count of the
      pending callbacks by their rank in the pipeline); while the timer
      is registered, a tick and a newer metadata reply export the proxy
      ([continuous_pull_progress]).
    - Command line: for every parser of the kind argparse accepts, a
      parse result has the types its option table declares
      ([parse_args_conforms]); every [args] object [parseArgs] yields is a
      well-formed pull or push ([parseArgs_shape]); printing pull
      or push arguments and parsing them back is the identity
      ([parseArgs_render_pull] for intervals up to 2^53 in absolute
      value, [parseArgs_render_push]); [--quiet] and a pull without
      [--org] are
      refused; the poll period is [-i] seconds only for 1 <= i <=
      2147483, and 1 ms otherwise ([execute_poll_period]).
    - Console: [--verbose] prints the worklist ([pullProxies_console]);
      in every command-line run under [--quite] the only lines printed
      are those of [console.log] called directly, error reports of
      [logError] included ([quiet_run_console], an invariant of
      the relation [cli_step] of callbacks and ticks), and the zip
      callback's line is one of them ([quite_push_console]).

    Fuel and bounds.  The handlers are structurally recursive or folds,
    so they need no fuel, and the unbounded behaviour of the poll loop is
    the step relation, whose theorems hold of every reachable world by
    rule induction.  Only argparse's loops over the command line take
    fuel: [parse_args] gives them the length of the command line plus
    one, and each loop consumes at least one token per round, so this is
    enough ([parseArgs_terminates]; the loops are also fuel-irrelevant
    beyond it).  The timer bound is Node's TIMEOUT_MAX = 2^31 - 1 ms.

    ** Not modelled

    A command line holding [--] is outside the argparse model (it
    yields [SUnsupported]).  The four lines [logError] prints are one
    event naming the failing function, which [console] shows as its
    first line; the status code, error and body lines after it are not
    modelled.  The other console lines are kept with their text.  The
    bytes of bundles and archives are opaque: an export, an extraction
    and a zip are trace events.

    Time and the timer.  Time is not modelled: the step relation allows
    any interleaving, which contains every timing the interval can
    produce, and a [Tick] is any firing of the interval timer.  The
    timer is one flag: [setInterval] is called only by [runCommand],
    which runs once per process, and the library entry points never call
    it, so a process has at most one interval timer.  Statements about
    when the first poll happens relative to the delay are therefore not
    made; the delay itself is recorded ([ESetInterval]) and its period
    under Node's rules is [timer_period].

    Numbers.  A JavaScript number is an IEEE double.  Revisions and
    timestamps are integers below 2^53, where doubles are exact, so they
    are modelled as [Z].  NaN, which [Math.max] can produce, is a value
    of its own.  [parseInt] (ArgParse.v) and [args.interval * 1000]
    are exact integers in the model; JavaScript rounds them to doubles
    above 2^53, so the command-line roundtrip is stated for intervals
    of absolute value at most 2^53. *)

From stdpp Require Export base list gmap strings pretty relations.
From Stdlib Require Export ZArith Lia.

Declare Scope edgeci_scope.
Delimit Scope edgeci_scope with edgeci.
Open Scope edgeci_scope.

Create HintDb edgeci.
Create Rewrite HintDb edgeci_rw.

(** ** Exceptions and the state and exception monad *)

(** The JavaScript exceptions the program can throw.  None of them is
    caught: in a callback, a thrown exception ends the process. *)
Inductive exn :=
| TypeError (what : string)
| SyntaxError (what : string)
| SystemError (what : string).

#[export] Instance exn_eq_dec : EqDecision exn.
Proof. solve_decision. Defined.

(** A computation reads and writes a state [S] and returns a value or
    throws. *)
Definition M (S A : Type) : Type := S → exn + (A * S).

#[export] Instance M_ret S : MRet (M S) := λ A a s, inr (a, s).
#[export] Instance M_bind S : MBind (M S) := λ A B k m s,
  match m s with
  | inl e => inl e
  | inr (a, s') => k a s'
  end.

Definition get {S} : M S S := λ s, inr (s, s).
Definition put {S} (s : S) : M S unit := λ _, inr (tt, s).
Definition modify {S} (f : S → S) : M S unit := λ s, inr (tt, f s).
Definition throw {S A} (e : exn) : M S A := λ _, inl e.

(** Lifting a value of an exception sum (the result of a pure function
    that may throw) into the monad. *)
Definition lift {S A} (r : exn + A) : M S A :=
  match r with
  | inl e => throw e
  | inr a => mret a
  end.

(** The state a computation ends in, or [dflt] when it throws. *)
Definition final_state {S A} (r : exn + (A * S)) (dflt : S) : S :=
  match r with
  | inr (_, s) => s
  | inl _ => dflt
  end.

(** [Array.prototype.forEach]: run [f] on each element in order. *)
Fixpoint for_each {S A} (f : A → M S unit) (l : list A) : M S unit :=
  match l with
  | [] => mret ()
  | x :: l' => f x;; for_each f l'
  end.

(** Two computations are equivalent when they agree on every state. *)
#[export] Instance M_equiv S A : Equiv (M S A) := λ m1 m2, ∀ s, m1 s = m2 s.

#[export] Instance M_equivalence S A : Equivalence (≡@{M S A}).
Proof.
  split.
  - by intros m s.
  - intros m1 m2 H s. by rewrite H.
  - intros m1 m2 m3 H1 H2 s. by rewrite H1, H2.
Qed.

#[export] Instance M_bind_proper S A B :
  Proper (pointwise_relation A (≡) ==> (≡) ==> (≡)) (@mbind (M S) _ A B).
Proof.
  intros k1 k2 Hk m1 m2 Hm s. cbv [mbind M_bind]. rewrite Hm.
  destruct (m2 s) as [e|[a s']]; [done | apply Hk].
Qed.

Section monad_laws.
Context {S : Type}.

Lemma bind_ret_l {A B} (a : A) (k : A → M S B) : (mret a ≫= k) ≡ k a.
Proof. by intros s. Qed.

Lemma bind_ret_r {A} (m : M S A) : (m ≫= mret) ≡ m.
Proof. intros s. cbv [mbind M_bind mret M_ret]. by destruct (m s) as [|[]]. Qed.

Lemma bind_assoc {A B C} (m : M S A) (k : A → M S B) (h : B → M S C) :
  ((m ≫= k) ≫= h) ≡ (m ≫= λ a, k a ≫= h).
Proof. intros s. cbv [mbind M_bind]. by destruct (m s) as [|[]]. Qed.

Lemma bind_throw {A B} (e : exn) (k : A → M S B) : (throw e ≫= k) ≡ throw e.
Proof. by intros s. Qed.

Lemma for_each_app {A} (f : A → M S unit) (l1 l2 : list A) :
  for_each f (l1 ++ l2) ≡ (for_each f l1;; for_each f l2).
Proof.
  induction l1 as [|x l1 IH]; simpl.
  - by rewrite bind_ret_l.
  - rewrite bind_assoc. by setoid_rewrite IH.
Qed.
End monad_laws.

#[export] Hint Rewrite @bind_ret_l @bind_assoc @bind_throw : edgeci_rw.

(** Unfold the monad to its state-passing definition. *)
Ltac unfold_m :=
  cbv [mbind M_bind mret M_ret get put modify throw lift] in *.

(** ** Generic list lemmas *)

(** The number of elements of a list satisfying a boolean test. *)
Definition count_if {A} (p : A → bool) (l : list A) : nat :=
  length (filter (λ x, p x = true) l).

Lemma count_if_app {A} (p : A → bool) l1 l2 :
  count_if p (l1 ++ l2) = count_if p l1 + count_if p l2.
Proof. unfold count_if. by rewrite filter_app, length_app. Qed.

Lemma count_if_cons {A} (p : A → bool) x l :
  count_if p (x :: l) = (if p x then 1 else 0) + count_if p l.
Proof. unfold count_if. rewrite filter_cons. by destruct (p x). Qed.

Lemma count_if_nil {A} (p : A → bool) : count_if p [] = 0.
Proof. done. Qed.

#[export] Hint Rewrite @count_if_app @count_if_cons @count_if_nil : edgeci_rw.
