(* ===== verification/JsValue.v ===== *)
(** JavaScript values as the program meets them: the elements of the
    parsed [revision] array of the proxy metadata, the result of
    [Math.max] over them, [lastRevision + 1], and the conversion to a
    string when a revision is concatenated into a URL or a path.

    A number is an integer [JNum z].  The Edge API's revisions and
    timestamps are integers below 2^53, where doubles are exact.
    [JNaN] is the NaN that [Math.max] returns when an argument does not
    convert to a number.  A string is [JStr s].

    [string_to_number] is the [ToNumber] of a string on the strings a
    revision field holds: the empty string is 0, a string of decimal
    digits is its value, and every other string is NaN.  JavaScript also
    accepts surrounding white space, a sign, a fraction, an exponent,
    hexadecimal and "Infinity".  The model gives NaN for those, and no
    revision the API returns has that form. *)

From S2P Require Import Prelude.
From Stdlib Require Import Ascii.

Local Open Scope Z_scope.

Inductive jsval :=
| JNum (z : Z)
| JStr (s : string)
| JNaN.

#[export] Instance jsval_eq_dec : EqDecision jsval.
Proof. solve_decision. Defined.

(** ** ToNumber *)

(** The value of a decimal digit. *)
Definition digit_value (c : ascii) : option Z :=
  let n := Ascii.nat_of_ascii c in
  if decide (48 ≤ n ≤ 57)%nat then Some (Z.of_nat (n - 48)) else None.

(** The value of a non-empty string of decimal digits read after [acc]. *)
Fixpoint digits_value (acc : Z) (s : string) : option Z :=
  match s with
  | EmptyString => Some acc
  | String c s' =>
      match digit_value c with
      | Some d => digits_value (10 * acc + d) s'
      | None => None
      end
  end.

Definition string_to_number (s : string) : option Z :=
  match s with
  | EmptyString => Some 0
  | _ => digits_value 0 s
  end.

(** [ToNumber]: [None] is NaN. *)
Definition to_number (v : jsval) : option Z :=
  match v with
  | JNum z => Some z
  | JStr s => string_to_number s
  | JNaN => None
  end.

(** ** ToString *)

(** [String(v)]: a number prints in decimal, as stdpp's [pretty] does
    for [Z]. *)
Definition to_js_string (v : jsval) : string :=
  match v with
  | JNum z => pretty z
  | JStr s => s
  | JNaN => "NaN"
  end.

(** ** Operators *)

(** [Math.max(a, b)]: both arguments are converted to numbers; the
    result is NaN when either conversion gives NaN. *)
Definition math_max (a b : jsval) : jsval :=
  match to_number a, to_number b with
  | Some x, Some y => JNum (Z.max x y)
  | _, _ => JNaN
  end.

(** [a + b]: string concatenation when either side is a string,
    numeric addition otherwise. *)
Definition js_plus (a b : jsval) : jsval :=
  match a, b with
  | JStr s, _ => JStr (s +:+ to_js_string b)
  | _, JStr s => JStr (to_js_string a +:+ s)
  | _, _ =>
      match to_number a, to_number b with
      | Some x, Some y => JNum (x + y)
      | _, _ => JNaN
      end
  end.

(** [arr.reduce(f)] with no initial value: a [TypeError] on an empty
    array; otherwise the first element is the initial accumulator and [f]
    is folded over the rest.  On a one-element array [f] is never
    called. *)
Definition reduce1 {A} (f : A → A → A) (l : list A) : exn + A :=
  match l with
  | [] => inl (TypeError "Reduce of empty array with no initial value")
  | x :: l' => inr (foldl f x l')
  end.

(** ** Lemmas *)

Lemma math_max_num x y : math_max (JNum x) (JNum y) = JNum (Z.max x y).
Proof. done. Qed.

Lemma math_max_nan_l v : math_max JNaN v = JNaN.
Proof. done. Qed.

Lemma math_max_nan_r v : math_max v JNaN = JNaN.
Proof. unfold math_max. by destruct (to_number v). Qed.

Lemma js_plus_num x y : js_plus (JNum x) (JNum y) = JNum (x + y).
Proof. done. Qed.

Lemma js_plus_str_l s v : js_plus (JStr s) v = JStr (s +:+ to_js_string v).
Proof. done. Qed.

Lemma to_js_string_num_inj x y : to_js_string (JNum x) = to_js_string (JNum y) → x = y.
Proof. simpl. apply (inj pretty). Qed.

#[export] Hint Rewrite math_max_num math_max_nan_l math_max_nan_r js_plus_num
  js_plus_str_l : edgeci_rw.

(** [vs] are values that all convert to numbers, namely [zs]. *)
Definition converts_to (vs : list jsval) (zs : list Z) : Prop :=
  Forall2 (λ v z, to_number v = Some z) vs zs.

Lemma converts_to_numbers (zs : list Z) : converts_to (JNum <$> zs) zs.
Proof. induction zs; constructor; auto. Qed.

(** Folding [Math.max] over values that convert to numbers gives a
    number: the maximum of the converted values. *)
Lemma foldl_math_max_converts (x : Z) vs zs :
  converts_to vs zs → foldl math_max (JNum x) vs = JNum (foldl Z.max x zs).
Proof.
  intros H. revert x. induction H as [|v z vs zs Hv _ IH]; intros x; simpl; [done|].
  unfold math_max at 2. simpl. rewrite Hv. apply IH.
Qed.

Lemma foldl_math_max_num (x : Z) (l : list Z) :
  foldl math_max (JNum x) (JNum <$> l) = JNum (foldl Z.max x l).
Proof. apply foldl_math_max_converts, converts_to_numbers. Qed.

(** Once NaN, folding [Math.max] stays NaN. *)
Lemma foldl_math_max_nan (l : list jsval) : foldl math_max JNaN l = JNaN.
Proof. induction l as [|y l IH]; simpl; [done | by rewrite math_max_nan_l]. Qed.
