(* ===== verification/ArgParse.v ===== *)
(** argparse.js 1.x, the command-line parser [parseArgs] builds
    (src/edgeci.js lines 12-80).

    argparse.js is a port of Python 3.2's [argparse] module.  This file
    models the part of the library that the program's option table uses:
    - [addArgument] with the actions [store], [storeTrue], [help] and
      [version], [nargs] unset or ['*'], [type] unset or ['int'],
      [required] and [defaultValue], and the [dest] argparse derives
      from the option strings;
    - [_parseOptional]: the classification of a token as an option
      (exact name, [--name=value], a unique prefix of a long name, a
      short option followed by its value or by more short flags) or as
      a positional (a token that does not start with a dash, or that
      reads as a negative number);
    - [consumeOptional] with its value patterns: an option without
      [nargs] takes exactly the next token, which must be a positional;
      [nargs: '*'] takes every following positional;
    - defaults, the check of required options, one level of
      subcommands ([addSubparsers] with [dest]), and the final check
      that no token is left over.

    The outcome of a parse is a namespace, or a stop: a usage error (the
    library prints the usage and exits with status 2), [--help] or
    [--version] (it prints and exits with status 0).  The [--]
    separator is outside the model: an argument vector that contains it
    gives [SUnsupported].  The loops run on fuel, and
    [parse_args_regular] shows the fuel they are given is enough.

    Numbers.  JavaScript's [parseInt] returns a double.  [parseInt] here
    returns the exact integer the digits denote, which is the double
    JavaScript returns whenever its absolute value is at most 2^53;
    above that JavaScript rounds and the model does not, so statements
    about the integers read are made for that range. *)

From S2P Require Import Prelude JsValue.
From Stdlib Require Import Ascii.

Module ArgParse.

(** ** The error monad of the parser *)

#[export] Instance sum_mret {E} : MRet (sum E) := λ A, inr.
#[export] Instance sum_mbind {E} : MBind (sum E) :=
  λ A B f m, match m with inl e => inl e | inr a => f a end.

(** ** Values stored in the namespace *)

Inductive atom :=
| AStr (s : string)
| AInt (z : Z).

Inductive value :=
| VAtom (x : atom)             (** a string or a number *)
| VList (xs : list atom)       (** the array of a [nargs: '*'] option *)
| VBool (b : bool)
| VNull.                       (** [null], the default of [store] *)

#[export] Instance atom_eq_dec : EqDecision atom.
Proof. solve_decision. Defined.
#[export] Instance value_eq_dec : EqDecision value.
Proof. solve_decision. Defined.

Abbreviation namespace := (gmap string value).

(** ** Arguments *)

Inductive action := Store | StoreTrue | Help | Version.
Inductive nargs := NOne | NStar.
Inductive vtype := TString | TInt.

#[export] Instance action_eq_dec : EqDecision action.
Proof. solve_decision. Defined.
#[export] Instance nargs_eq_dec : EqDecision nargs.
Proof. solve_decision. Defined.
#[export] Instance vtype_eq_dec : EqDecision vtype.
Proof. solve_decision. Defined.

(** The options object of [addArgument], without its [help] text. *)
Record arg_options := mk_options {
  o_action : action;
  o_required : bool;
  o_nargs : nargs;
  o_type : vtype;
  o_defaultValue : option value;
}.

Record argument := mk_argument {
  option_strings : list string;
  dest : string;
  arg_action : action;
  arg_nargs : nargs;
  arg_type : vtype;
  required : bool;
  default : value;
}.

#[export] Instance argument_eq_dec : EqDecision argument.
Proof. solve_decision. Defined.

Fixpoint lstrip_dashes (s : string) : string :=
  match s with
  | String "-"%char s' => lstrip_dashes s'
  | _ => s
  end.

Fixpoint dashes_to_underscores (s : string) : string :=
  match s with
  | EmptyString => EmptyString
  | String c s' =>
      String (if decide (c = "-"%char) then "_"%char else c) (dashes_to_underscores s')
  end.

Definition is_long (o : string) : bool :=
  match o with
  | String "-"%char (String "-"%char _) => true
  | _ => false
  end.

(** [dest]: the first long option string, else the first option
    string, without its leading dashes and with [-] turned into [_]. *)
Definition dest_of (optionStrings : list string) : string :=
  match (filter (λ o, is_long o = true) optionStrings ++ optionStrings)%list with
  | o :: _ => dashes_to_underscores (lstrip_dashes o)
  | [] => EmptyString
  end.

(** [parser.addArgument(optionStrings, options)]: [storeTrue] defaults
    to [false], every other action to [null]. *)
Definition addArgument (optionStrings : list string) (o : arg_options) : argument :=
  mk_argument optionStrings (dest_of optionStrings) (o_action o) (o_nargs o)
    (o_type o) (o_required o)
    (match o_defaultValue o, o_action o with
     | Some v, _ => v
     | None, StoreTrue => VBool false
     | None, _ => VNull
     end).

Definition flag_options (a : action) : arg_options :=
  mk_options a false NOne TString None.

(** The arguments [new ArgumentParser({version, addHelp: true})] and
    [addParser(name, {addHelp: true})] add before any other. *)
Definition help_argument : argument := addArgument ["-h"; "--help"] (flag_options Help).
Definition version_argument : argument := addArgument ["-v"; "--version"] (flag_options Version).

Definition new_parser (version : option string) (addHelp : bool) : list argument :=
  ((if addHelp then [help_argument] else []) ++
  (match version with Some _ => [version_argument] | None => [] end))%list.

(** [help] and [version] store nothing ([dest: SUPPRESS]). *)
Definition suppressed (a : argument) : bool :=
  match arg_action a with Help | Version => true | _ => false end.

(** The name in error messages: the option strings joined by [/]. *)
Definition opt_name (a : argument) : string := String.concat "/" (option_strings a).

(** A parser with one level of subcommands. *)
Record parser := mk_parser {
  main_args : list argument;
  command_dest : string;
  commands : list (string * list argument);
}.

(** ** Stops *)

Inductive arg_error :=
| EAmbiguous (tok : string) (candidates : list string)
| EIgnoredExplicit (opt : string) (explicit : string)
| EExpectedOne (opt : string)
| EInvalidInt (opt : string) (s : string)
| EInvalidChoice (s : string)
| ETooFew
| ERequired (opt : string)
| EUnrecognized (toks : list string).

Inductive stop :=
| SError (e : arg_error)       (** usage and error message, exit status 2 *)
| SHelp                        (** [--help]: help text, exit status 0 *)
| SVersion                     (** [--version]: version, exit status 0 *)
| SUnsupported                 (** the [--] separator *)
| SOutOfFuel.

#[export] Instance arg_error_eq_dec : EqDecision arg_error.
Proof. solve_decision. Defined.
#[export] Instance stop_eq_dec : EqDecision stop.
Proof. solve_decision. Defined.

(** ** [parseInt(x, 10)], the conversion of [type: 'int'] *)

(** JavaScript white space among the ASCII characters. *)
Definition is_js_space (c : ascii) : bool :=
  bool_decide (Ascii.nat_of_ascii c ∈ [9; 10; 11; 12; 13; 32]%nat).

Fixpoint trim_start (s : string) : string :=
  match s with
  | String c s' => if is_js_space c then trim_start s' else s
  | EmptyString => EmptyString
  end.

(** The value of the longest prefix of decimal digits, read after
    [acc]; [None] when there is no digit at all. *)
Fixpoint digits_prefix (acc : Z) (seen : bool) (s : string) : option Z :=
  match s with
  | String c s' =>
      match digit_value c with
      | Some d => digits_prefix (10 * acc + d)%Z true s'
      | None => if seen then Some acc else None
      end
  | EmptyString => if seen then Some acc else None
  end.

(** [parseInt(s, 10)]: [None] is NaN, which the [int] type rejects.
    Exact for results of absolute value at most 2^53 (see the header). *)
Definition parseInt (s : string) : option Z :=
  match trim_start s with
  | String c s' =>
      if bool_decide (c = "-"%char) then Z.opp <$> digits_prefix 0 false s'
      else if bool_decide (c = "+"%char) then digits_prefix 0 false s'
      else digits_prefix 0 false (String c s')
  | EmptyString => None
  end.

(** ** Classifying a token: [_parseOptional] *)

Inductive opt_match :=
| OKnown (a : argument) (os : string) (explicit : option string)
| OUnknown.

Definition lookup_option (p : list argument) (os : string) : option argument :=
  find (λ a, bool_decide (os ∈ option_strings a)) p.

(** [s.split('=', 1)] when [s] contains [=]. *)
Fixpoint split_eq (s : string) : option (string * string) :=
  match s with
  | EmptyString => None
  | String c s' =>
      if bool_decide (c = "="%char) then Some (EmptyString, s') else
      match split_eq s' with
      | Some (x, y) => Some (String c x, y)
      | None => None
      end
  end.

Definition all_option_strings (p : list argument) : list (argument * string) :=
  p ≫= λ a, (λ o, (a, o)) <$> option_strings a.

(** [_getOptionTuples]: the options a token can abbreviate.  A token
    with two leading dashes abbreviates a long option, with its
    [=value] split off; a token with one dash is a short option followed
    by its explicit argument, or abbreviates an option string. *)
Definition option_tuples (p : list argument) (tok : string)
    : list (argument * string * option string) :=
  match tok with
  | String c1 (String c2 rest) =>
      if bool_decide (c1 = "-"%char) then
        if bool_decide (c2 = "-"%char) then
          let '(pre, ex) := match split_eq tok with
                            | Some (x, y) => (x, Some y)
                            | None => (tok, None)
                            end in
          (λ '(a, o), (a, o, ex)) <$>
            filter (λ '(a, o), String.prefix pre o = true) (all_option_strings p)
        else
          let short := String c1 (String c2 EmptyString) in
          omap (λ '(a, o),
                  if decide (o = short) then Some (a, o, Some rest)
                  else if String.prefix tok o then Some (a, o, None) else None)
            (all_option_strings p)
      else []
  | _ => []
  end.

Definition is_digit (c : ascii) : bool := bool_decide (is_Some (digit_value c)).

Fixpoint string_forallb (f : ascii → bool) (s : string) : bool :=
  match s with
  | EmptyString => true
  | String c s' => f c && string_forallb f s'
  end.

Definition all_digits (s : string) : bool := string_forallb is_digit s.

Fixpoint split_dot (s : string) : option (string * string) :=
  match s with
  | EmptyString => None
  | String c s' =>
      if bool_decide (c = "."%char) then Some (EmptyString, s') else
      match split_dot s' with
      | Some (x, y) => Some (String c x, y)
      | None => None
      end
  end.

(** [/^-\d+$|^-\d*\.\d+$/] *)
Definition negative_number_like (tok : string) : bool :=
  match tok with
  | String "-"%char (String c s) =>
      all_digits (String c s) ||
      match split_dot (String c s) with
      | Some (i, String d f) => all_digits i && all_digits (String d f)
      | _ => false
      end
  | _ => false
  end.

Definition has_negative_number_optionals (p : list argument) : bool :=
  existsb (λ '(_, o), negative_number_like o) (all_option_strings p).

Definition has_space (s : string) : bool :=
  negb (string_forallb (λ c, negb (bool_decide (c = " "%char))) s).

(** [_parseOptional]: [None] is a positional ('A'), [Some m] an option
    ('O'); an ambiguous abbreviation is an error. *)
Definition parse_optional (p : list argument) (tok : string)
    : arg_error + option opt_match :=
  match tok with
  | EmptyString => inr None
  | String c rest =>
    if negb (bool_decide (c = "-"%char)) then inr None else
    match lookup_option p tok with
    | Some a => inr (Some (OKnown a tok None))
    | None =>
      if bool_decide (rest = EmptyString) then inr None else
      match (match split_eq tok with
             | Some (os, ex) => (λ a, OKnown a os (Some ex)) <$> lookup_option p os
             | None => None
             end) with
      | Some m => inr (Some m)
      | None =>
        match option_tuples p tok with
        | [(a, os, ex)] => inr (Some (OKnown a os ex))
        | (_ :: _ :: _) as ts => inl (EAmbiguous tok ((λ '(_, o, _), o) <$> ts))
        | [] =>
          if negative_number_like tok && negb (has_negative_number_optionals p)
          then inr None
          else if has_space tok then inr None
          else inr (Some OUnknown)
        end
      end
    end
  end.

(** The pattern of the whole argument vector, computed before anything
    is consumed. *)
Fixpoint classify (p : list argument) (toks : list string)
    : arg_error + list (string * option opt_match) :=
  match toks with
  | [] => inr []
  | t :: ts =>
      m ← parse_optional p t;
      ms ← classify p ts;
      inr ((t, m) :: ms)
  end.

(** ** Consuming an option: [_consumeOptional] *)

Abbreviation pattern := (list (string * option opt_match)).

(** The number of positionals at the head of the pattern. *)
Fixpoint count_positional (ts : pattern) : nat :=
  match ts with
  | (_, None) :: ts' => S (count_positional ts')
  | _ => 0
  end.

Definition takes_args (a : argument) : bool := bool_decide (arg_action a = Store).

(** [_matchArgument]: how many of the following tokens the option
    takes: none for a flag, exactly one positional without [nargs], and
    every following positional for [nargs: '*']. *)
Definition match_argument (a : argument) (ts : pattern) : arg_error + nat :=
  if takes_args a then
    match arg_nargs a with
    | NOne => match ts with
              | (_, None) :: _ => inr 1
              | _ => inl (EExpectedOne (opt_name a))
              end
    | NStar => inr (count_positional ts)
    end
  else inr 0.

(** The loop of [_consumeOptional] on an explicit argument.  An option
    that takes arguments takes it as its value.  A flag written with one
    dash reads the next character as another short option: [-qV] is
    [-q -V].  The result is the actions with their values, and the
    option, if any, that ends the cluster and takes its values from the
    following tokens. *)
Fixpoint explicit_chain (p : list argument) (a : argument) (os : string) (ex : string)
    {struct ex} : arg_error + (list (argument * list string) * option argument) :=
  if takes_args a then inr ([(a, [ex])], None) else
  match os, ex with
  | String ch (String c2 _), String c ex' =>
      if bool_decide (c2 = "-"%char) then inl (EIgnoredExplicit (opt_name a) ex) else
      let os' := String ch (String c EmptyString) in
      match lookup_option p os' with
      | None => inl (EIgnoredExplicit (opt_name a) ex)
      | Some a' =>
          match ex' with
          | EmptyString => inr ([(a, [])], Some a')
          | _ => '(acts, pend) ← explicit_chain p a' os' ex'; inr ((a, []) :: acts, pend)
          end
      end
  | _, _ => inl (EIgnoredExplicit (opt_name a) ex)
  end.

(** The conversion of [type]. *)
Definition convert (a : argument) (s : string) : arg_error + atom :=
  match arg_type a with
  | TString => inr (AStr s)
  | TInt =>
      match parseInt s with
      | Some z => inr (AInt z)
      | None => inl (EInvalidInt (opt_name a) s)
      end
  end.

Fixpoint convert_all (a : argument) (ss : list string) : arg_error + list atom :=
  match ss with
  | [] => inr []
  | s :: ss' => x ← convert a s; xs ← convert_all a ss'; inr (x :: xs)
  end.

Definition err {A} (m : arg_error + A) : stop + A :=
  match m with inl e => inl (SError e) | inr x => inr x end.

(** [_takeAction]: run the action on its values. *)
Definition take_action (a : argument) (vals : list string) (ns : namespace)
    : stop + namespace :=
  match arg_action a with
  | Help => inl SHelp
  | Version => inl SVersion
  | StoreTrue => inr (<[dest a := VBool true]> ns)
  | Store =>
      match arg_nargs a, vals with
      | NOne, [s] => x ← err (convert a s); inr (<[dest a := VAtom x]> ns)
      | NOne, _ => inl (SError (EExpectedOne (opt_name a)))
      | NStar, _ => xs ← err (convert_all a vals); inr (<[dest a := VList xs]> ns)
      end
  end.

Fixpoint take_actions (acts : list (argument * list string)) (ns : namespace)
    (seen : list argument) : stop + (namespace * list argument) :=
  match acts with
  | [] => inr (ns, seen)
  | (a, vals) :: acts' => ns' ← take_action a vals ns; take_actions acts' ns' (a :: seen)
  end.

(** [_consumeOptional]: the option [a], written [os] with its explicit
    argument [ex], at the head of the remaining pattern [ts]. *)
Definition consume_optional (p : list argument) (a : argument) (os : string)
    (ex : option string) (ts : pattern) (ns : namespace) (seen : list argument)
    : stop + (namespace * list argument * pattern) :=
  '(acts, pend) ← err (match ex with
                      | None => inr ([], Some a)
                      | Some x => explicit_chain p a os x
                      end);
  '(acts', ts') ← err (match pend with
                       | None => inr ([], ts)
                       | Some a' =>
                           n ← match_argument a' ts;
                           inr ([(a', fst <$> take n ts)], drop n ts)
                       end);
  '(ns', seen') ← take_actions (acts ++ acts') ns seen;
  inr (ns', seen', ts').

(** ** The parse loops *)

(** The loop of [_parseKnownArgs] for a parser without positionals: a
    token that is not a known option is left over ([extras]). *)
Fixpoint consume (fuel : nat) (p : list argument) (ts : pattern) (ns : namespace)
    (seen : list argument) (extras : list string)
    : stop + (namespace * list argument * list string) :=
  match fuel with
  | O => inl SOutOfFuel
  | S fuel' =>
      match ts with
      | [] => inr (ns, seen, extras)
      | (tok, Some (OKnown a os ex)) :: ts' =>
          '(ns', seen', ts'') ← consume_optional p a os ex ts' ns seen;
          consume fuel' p ts'' ns' seen' extras
      | (tok, _) :: ts' => consume fuel' p ts' ns seen (extras ++ [tok])
      end
  end.

(** Defaults are set, in order, for each destination the namespace does
    not have yet. *)
Definition set_defaults (p : list argument) (ns : namespace) : namespace :=
  foldl (λ ns a,
           if suppressed a then ns else
           match ns !! dest a with
           | Some _ => ns
           | None => <[dest a := default a]> ns
           end) ns p.

Definition check_required (p : list argument) (seen : list argument) : stop + unit :=
  match find (λ a, required a && negb (bool_decide (a ∈ seen))) p with
  | Some a => inl (SError (ERequired (opt_name a)))
  | None => inr ()
  end.

(** [parseKnownArgs] of a subcommand's parser, into the namespace of the
    main parser. *)
Definition parse_known_args (fuel : nat) (p : list argument) (toks : list string)
    (ns : namespace) : stop + (namespace * list string) :=
  ts ← err (classify p toks);
  '(ns', seen, extras) ← consume fuel p ts (set_defaults p ns) [] [];
  _ ← check_required p seen;
  inr (ns', extras).

Definition lookup_command (P : parser) (name : string) : option (list argument) :=
  snd <$> find (λ c, bool_decide (c.1 = name)) (commands P).

(** The loop of the main parser.  Its one positional is the subcommand:
    the first positional token names it, and it takes every token after
    it. *)
Fixpoint consume_main (fuel : nat) (P : parser) (ts : pattern) (ns : namespace)
    (seen : list argument) (extras : list string)
    : stop + (namespace * list argument * list string * bool) :=
  match fuel with
  | O => inl SOutOfFuel
  | S fuel' =>
      match ts with
      | [] => inr (ns, seen, extras, false)
      | (tok, None) :: ts' =>
          match lookup_command P tok with
          | None => inl (SError (EInvalidChoice tok))
          | Some sp =>
              '(ns', extras') ← parse_known_args fuel' sp (fst <$> ts')
                                  (<[command_dest P := VAtom (AStr tok)]> ns);
              inr (ns', seen, extras ++ extras', true)
          end
      | (tok, Some (OKnown a os ex)) :: ts' =>
          '(ns', seen', ts'') ← consume_optional (main_args P) a os ex ts' ns seen;
          consume_main fuel' P ts'' ns' seen' extras
      | (tok, Some OUnknown) :: ts' => consume_main fuel' P ts' ns seen (extras ++ [tok])
      end
  end.

(** [parser.parseArgs(argv)]: a subcommand must be given, the main
    parser's required options must be present, and no token may be left
    over. *)
Definition parse_args (P : parser) (argv : list string) : stop + namespace :=
  if bool_decide ("--" ∈ argv) then inl SUnsupported else
  ts ← err (classify (main_args P) argv);
  r ← consume_main (S (length argv)) P ts
         (<[command_dest P := VNull]> (set_defaults (main_args P) ∅)) [] [];
  match r with
  | (ns, seen, extras, true) =>
      _ ← check_required (main_args P) seen;
      match extras with
      | [] => inr ns
      | _ => inl (SError (EUnrecognized extras))
      end
  | (_, _, _, false) => inl (SError ETooFew)
  end.

(** ** Termination of the parse loops *)

(** A stop the library itself produces: a usage error, [--help] or
    [--version]. *)
Definition regular_stop (s : stop) : Prop :=
  match s with SError _ | SHelp | SVersion => True | _ => False end.

Ltac sum_simpl := unfold mbind, sum_mbind, mret, sum_mret in *.

Section parse_lemmas.
Context (p : list argument).

Lemma classify_fst toks ts : classify p toks = inr ts → fst <$> ts = toks.
Proof.
  revert ts; induction toks as [|t toks IH]; intros ts; simpl; sum_simpl; [by intros [= <-]|].
  destruct (parse_optional p t); [done|].
  destruct (classify p toks) eqn:E; [done|]. intros [= <-]. cbn. f_equal. by apply IH.
Qed.

Lemma classify_length toks ts : classify p toks = inr ts → length ts = length toks.
Proof. intros H. by rewrite <-(classify_fst _ _ H), length_fmap. Qed.

Lemma take_action_regular a vals ns s : take_action a vals ns = inl s → regular_stop s.
Proof.
  unfold take_action, err. sum_simpl.
  destruct (arg_action a), (arg_nargs a), vals as [|? [|]]; repeat case_match;
    intros; simplify_eq; done.
Qed.

Lemma take_actions_regular acts ns seen s : take_actions acts ns seen = inl s → regular_stop s.
Proof.
  revert ns seen; induction acts as [|[a vals] acts IH]; intros ns seen; simpl; sum_simpl; [done|].
  destruct (take_action a vals ns) eqn:E; [intros [= <-]; by eapply take_action_regular|].
  apply IH.
Qed.

Lemma consume_optional_regular a os ex ts ns seen s :
  consume_optional p a os ex ts ns seen = inl s → regular_stop s.
Proof.
  unfold consume_optional, err. sum_simpl.
  repeat case_match; intros; simplify_eq; try done; by eapply take_actions_regular.
Qed.

Lemma consume_optional_suffix a os ex ts ns seen ns' seen' ts' :
  consume_optional p a os ex ts ns seen = inr (ns', seen', ts') → length ts' ≤ length ts.
Proof.
  unfold consume_optional, err. sum_simpl.
  repeat case_match; intros; simplify_eq; rewrite ?length_drop; lia.
Qed.

Lemma consume_regular f ts ns seen extras s :
  S (length ts) ≤ f → consume f p ts ns seen extras = inl s → regular_stop s.
Proof.
  revert ts ns seen extras; induction f as [|f IH]; intros ts ns seen extras Hf; [lia|].
  destruct ts as [|[tok [[a os ex|]|]] ts']; simpl in *; sum_simpl; [done| |by apply IH; lia..].
  destruct (consume_optional p a os ex ts' ns seen) as [s'|[[ns' seen'] ts'']] eqn:E.
  - intros [= <-]. by eapply consume_optional_regular.
  - apply consume_optional_suffix in E. apply IH. lia.
Qed.

(** The result does not depend on the fuel once it covers the tokens. *)
Lemma consume_fuel f1 f2 ts ns seen extras :
  S (length ts) ≤ f1 → S (length ts) ≤ f2 →
  consume f1 p ts ns seen extras = consume f2 p ts ns seen extras.
Proof.
  revert f2 ts ns seen extras; induction f1 as [|f1 IH];
    intros [|f2] ts ns seen extras H1 H2; try lia.
  destruct ts as [|[tok [[a os ex|]|]] ts']; simpl in *; sum_simpl; [done| |by apply IH; lia..].
  destruct (consume_optional p a os ex ts' ns seen) as [s'|[[ns' seen'] ts'']] eqn:E; [done|].
  apply consume_optional_suffix in E. apply IH; lia.
Qed.

Lemma parse_known_args_regular f toks ns s :
  S (length toks) ≤ f → parse_known_args f p toks ns = inl s → regular_stop s.
Proof.
  unfold parse_known_args, err, check_required. sum_simpl.
  destruct (classify p toks) as [e|ts] eqn:Ec; [by intros _ [= <-]|].
  intros Hf. apply classify_length in Ec.
  destruct (consume f p ts _ [] []) as [s'|[[ns' seen] extras]] eqn:E.
  - intros [= <-]. eapply consume_regular; [|done]. lia.
  - intros H. repeat case_match; simplify_eq; done.
Qed.

Lemma parse_known_args_fuel f1 f2 toks ns :
  S (length toks) ≤ f1 → S (length toks) ≤ f2 →
  parse_known_args f1 p toks ns = parse_known_args f2 p toks ns.
Proof.
  intros H1 H2. unfold parse_known_args. sum_simpl.
  destruct (classify p toks) as [e|ts] eqn:Ec; [done|]. apply classify_length in Ec.
  cbn [err]. rewrite (consume_fuel f1 f2); [done|lia..].
Qed.

End parse_lemmas.

Section main_lemmas.
Context (P : parser).

Lemma consume_main_regular f ts ns seen extras s :
  S (length ts) ≤ f → consume_main f P ts ns seen extras = inl s → regular_stop s.
Proof.
  revert ts ns seen extras; induction f as [|f IH]; intros ts ns seen extras Hf; [lia|].
  destruct ts as [|[tok [[a os ex|]|]] ts']; simpl in *; sum_simpl; [done| |by apply IH; lia|].
  - destruct (consume_optional _ a os ex ts' ns seen) as [s'|[[ns' seen'] ts'']] eqn:E.
    + intros [= <-]. by eapply consume_optional_regular.
    + apply consume_optional_suffix in E. apply IH. lia.
  - destruct (lookup_command P tok) as [sp|]; [|by intros [= <-]].
    destruct (parse_known_args f sp _ _) as [s'|[]] eqn:E; [|done].
    intros [= <-]. eapply parse_known_args_regular; [|done]. rewrite length_fmap. lia.
Qed.

(** The parse loops terminate: the fuel [parse_args] gives them is
    always enough, so argparse's outcome is a namespace, a usage error,
    [--help], [--version], or a command line outside the model. *)
Lemma parse_args_regular argv s :
  parse_args P argv = inl s → regular_stop s ∨ s = SUnsupported.
Proof.
  unfold parse_args, err. case_bool_decide; [by intros [= <-]; right|]. sum_simpl.
  destruct (classify _ argv) as [e|ts] eqn:Ec; [by intros [= <-]; left|].
  apply classify_length in Ec.
  destruct (consume_main _ P ts _ [] []) as [s'|[[[ns seen] extras] []]] eqn:E.
  - intros [= <-]. left. eapply consume_main_regular; [|done]. lia.
  - unfold check_required. intros Hr. left. repeat case_match; simplify_eq; done.
  - intros [= <-]. by left.
Qed.

End main_lemmas.

(** ** The shape of the namespace *)

Inductive ty := TyStr | TyInt | TyBool | TyStrs | TyInts | TyOpt (t : ty).

#[export] Instance ty_eq_dec : EqDecision ty.
Proof. solve_decision. Defined.

Definition atom_is_str (x : atom) : bool := if x is AStr _ then true else false.
Definition atom_is_int (x : atom) : bool := if x is AInt _ then true else false.

Fixpoint has_ty (v : value) (t : ty) : bool :=
  match t with
  | TyOpt t' => bool_decide (v = VNull) || has_ty v t'
  | TyStr => if v is VAtom (AStr _) then true else false
  | TyInt => if v is VAtom (AInt _) then true else false
  | TyBool => if v is VBool _ then true else false
  | TyStrs => if v is VList xs then forallb atom_is_str xs else false
  | TyInts => if v is VList xs then forallb atom_is_int xs else false
  end.

(** The type of the value an action stores. *)
Definition value_ty (a : argument) : ty :=
  match arg_action a, arg_nargs a, arg_type a with
  | Store, NOne, TString => TyStr
  | Store, NOne, TInt => TyInt
  | Store, NStar, TString => TyStrs
  | Store, NStar, TInt => TyInts
  | _, _, _ => TyBool
  end.

(** The type of a destination before its option is seen: the default
    may be [null]. *)
Definition decl_ty (a : argument) : ty :=
  if bool_decide (default a = VNull) then TyOpt (value_ty a) else value_ty a.

(** The type after a successful parse, where a required option was
    seen. *)
Definition field_ty (a : argument) : ty := if required a then value_ty a else decl_ty a.

(** The arguments that store into the namespace. *)
Definition stores (p : list argument) : list argument := filter (λ a, suppressed a = false) p.

Definition schema (p : list argument) : list (string * ty) :=
  (λ a, (dest a, field_ty a)) <$> stores p.

Definition default_map (p : list argument) : namespace :=
  list_to_map ((λ a, (dest a, default a)) <$> stores p).

(** A namespace conforms to a schema when it has exactly its keys, each
    with a value of its type. *)
Definition conforms (ns : namespace) (sch : list (string * ty)) : Prop :=
  dom ns = list_to_set (fst <$> sch) ∧
  Forall (λ kt, ∃ v, ns !! kt.1 = Some v ∧ has_ty v kt.2 = true) sch.

(** An option table is well formed for a subcommand when the command's
    destination and the destinations of both parsers are distinct, and
    every default has its declared type. *)
Definition wf_command (P : parser) (sp : list argument) : Prop :=
  NoDup (command_dest P :: (dest <$> stores (main_args P ++ sp))) ∧
  Forall (λ a, has_ty (default a) (decl_ty a) = true) (stores (main_args P ++ sp)).

Definition wf_parser (P : parser) : Prop :=
  wf_command P [] ∧ Forall (λ c, wf_command P c.2) (commands P).

#[export] Instance wf_parser_dec P : Decision (wf_parser P).
Proof. unfold wf_parser, wf_command. apply _. Defined.

(** The invariant of the parse loops: every destination of [q] holds a
    value of its declared type, and of its value type once the option
    has been seen. *)
Definition typed (q : list argument) (ns : namespace) (seen : list argument) : Prop :=
  Forall (λ a, ∃ v, ns !! dest a = Some v ∧ has_ty v (decl_ty a) = true ∧
                    (a ∈ seen → has_ty v (value_ty a) = true)) q.

Definition type_ok (a : argument) (x : atom) : bool :=
  match arg_type a with TString => atom_is_str x | TInt => atom_is_int x end.

Lemma has_value_decl a v : has_ty v (value_ty a) = true → has_ty v (decl_ty a) = true.
Proof. unfold decl_ty. case_bool_decide; [|done]. simpl. intros ->. apply orb_true_r. Qed.

Lemma NoDup_fmap_eq {A B} (f : A → B) l x y :
  NoDup (f <$> l) → x ∈ l → y ∈ l → f x = f y → x = y.
Proof.
  induction l as [|z l IH]; [set_solver|]. rewrite fmap_cons, NoDup_cons, !elem_of_cons.
  intros [Hz Hl] [->|Hx] [->|Hy] E; auto; destruct Hz;
    [rewrite E|rewrite <-E]; by apply list_elem_of_fmap_2.
Qed.

Lemma convert_type_ok a s x : convert a s = inr x → type_ok a x = true.
Proof.
  unfold convert, type_ok. destruct (arg_type a); [by intros [= <-]|].
  case_match; by intros [= <-].
Qed.

Lemma convert_all_type_ok a ss xs : convert_all a ss = inr xs → forallb (type_ok a) xs = true.
Proof.
  revert xs; induction ss as [|s ss IH]; intros xs; simpl; sum_simpl; [by intros [= <-]|].
  destruct (convert a s) eqn:E1; [done|]. destruct (convert_all a ss) eqn:E2; [done|].
  intros [= <-]. simpl. rewrite (convert_type_ok _ _ _ E1). by apply IH.
Qed.

(** An action that succeeds stores into its destination a value of its
    value type. *)
Lemma take_action_typed a vals ns ns' :
  take_action a vals ns = inr ns' →
  suppressed a = false ∧ ∃ v, ns' = <[dest a := v]> ns ∧ has_ty v (value_ty a) = true.
Proof.
  unfold take_action, err, value_ty, suppressed. sum_simpl.
  destruct (arg_action a); [|by intros [= <-]; eauto|done|done].
  destruct (arg_nargs a), vals as [|s [|]]; try done;
    [destruct (convert a s) as [|x] eqn:E|destruct (convert_all a _) as [|xs] eqn:E..];
    try done; intros [= <-]; split; try done; eexists; split; try done;
    [apply convert_type_ok in E|apply convert_all_type_ok in E..];
    unfold type_ok in E; destruct (arg_type a); try destruct x; done.
Qed.

Section typed.
Context (q : list argument) (Hq : NoDup (dest <$> q)).

Lemma typed_insert a v ns S S' :
  a ∈ q → has_ty v (value_ty a) = true → typed q ns S →
  (∀ b, b ∈ S' → b = a ∨ b ∈ S) → typed q (<[dest a := v]> ns) S'.
Proof.
  unfold typed. rewrite !Forall_forall. intros Ha Hv Ht HS b Hb.
  destruct (decide (b = a)) as [->|Hne].
  - exists v. rewrite lookup_insert_eq. split_and!; [done|by apply has_value_decl|done].
  - destruct (Ht b Hb) as (w & Hw & Hd & Hs). exists w.
    rewrite lookup_insert_ne; [|intros E; by apply Hne, (NoDup_fmap_eq dest q)].
    split_and!; [done|done|]. intros Hb'. destruct (HS b Hb') as [->|]; [done|by apply Hs].
Qed.

Lemma typed_dom a v ns S : a ∈ q → typed q ns S → dom (<[dest a := v]> ns) = dom ns.
Proof.
  unfold typed. rewrite Forall_forall. intros Ha Ht. destruct (Ht a Ha) as (w & Hw & _).
  apply elem_of_dom_2 in Hw. set_solver.
Qed.

Lemma insert_frame a (v : value) (ns : namespace) k : k ∉ dest <$> q → a ∈ q → <[dest a := v]> ns !! k = ns !! k.
Proof. intros Hk Ha. apply lookup_insert_ne. intros E. apply Hk. rewrite <-E. by apply list_elem_of_fmap_2. Qed.

Lemma typed_mono ns S S' : typed q ns S → (∀ b, b ∈ S' → b ∈ S) → typed q ns S'.
Proof. unfold typed. intros Ht HS. eapply Forall_impl; [done|]. naive_solver. Qed.

End typed.

(** ** Options found in a token belong to the parser *)

Section membership.
Context (p : list argument).

Lemma lookup_option_in os a : lookup_option p os = Some a → a ∈ p.
Proof. unfold lookup_option. intros H. apply find_some in H as [H _]. by apply list_elem_of_In. Qed.

Lemma all_option_strings_in a o : (a, o) ∈ all_option_strings p → a ∈ p.
Proof.
  unfold all_option_strings. rewrite list_elem_of_bind. intros (b & Hb & Hin).
  apply list_elem_of_fmap in Hb as (o' & [= -> _] & _). done.
Qed.

Lemma option_tuples_in tok a o ex : (a, o, ex) ∈ option_tuples p tok → a ∈ p.
Proof.
  unfold option_tuples. destruct tok as [|c1 [|c2 rest]]; [set_solver..|].
  case_bool_decide; [|set_solver]. case_bool_decide.
  - destruct (match split_eq _ with Some _ => _ | None => _ end) as [pre ex'].
    rewrite list_elem_of_fmap. intros ([b o'] & [= -> -> ->] & Hin).
    apply list_elem_of_filter in Hin as [_ Hin]. by eapply all_option_strings_in.
  - rewrite list_elem_of_omap. intros ([b o'] & Hin & Hf). apply all_option_strings_in in Hin.
    repeat case_match; by simplify_eq.
Qed.

Lemma parse_optional_in tok a os ex :
  parse_optional p tok = inr (Some (OKnown a os ex)) → a ∈ p.
Proof.
  unfold parse_optional. destruct tok as [|c rest]; [done|].
  destruct (negb _); [done|].
  destruct (lookup_option p _) eqn:El; [intros [= -> _ _]; by eapply lookup_option_in|].
  destruct (bool_decide (rest = "")); [done|].
  destruct (split_eq _) as [[os' ex']|]; cbn -[option_tuples negative_number_like has_space has_negative_number_optionals];
    [destruct (lookup_option p os') eqn:E'; cbn -[option_tuples negative_number_like has_space has_negative_number_optionals];
     [intros [= -> _ _]; by eapply lookup_option_in|]|].
  all: destruct (option_tuples p (String c rest)) as [|[[b o] e] [|]] eqn:Et; intros H.
  all: try (injection H as -> _ _; eapply (option_tuples_in (String c rest)); rewrite Et; by left).
  all: try discriminate H.
  all: destruct (_ && _) in H; [simplify_eq|]; destruct (has_space (String c rest)); simplify_eq.
Qed.

(** Every option of a classified pattern belongs to the parser. *)
Definition pat_ok (ts : pattern) : Prop :=
  Forall (λ t, ∀ a os ex, t.2 = Some (OKnown a os ex) → a ∈ p) ts.

Lemma classify_ok toks ts : classify p toks = inr ts → pat_ok ts.
Proof.
  revert ts; induction toks as [|t toks IH]; intros ts; simpl; sum_simpl;
    [intros [= <-]; constructor|].
  destruct (parse_optional p t) as [|m] eqn:E; [done|].
  destruct (classify p toks) eqn:E'; [done|]. intros [= <-]. constructor; [|by apply IH].
  intros a os ex; simpl; intros ->. eapply (parse_optional_in t). exact E.
Qed.

Lemma explicit_chain_in a os ex acts pend :
  a ∈ p → explicit_chain p a os ex = inr (acts, pend) →
  Forall (λ x, x.1 ∈ p) acts ∧ ∀ a', pend = Some a' → a' ∈ p.
Proof.
  revert a os acts pend; induction ex as [|c ex IH]; intros a os acts pend Ha; simpl.
  all: case_match; [intros [= <- <-]; split; [by constructor|done]|].
  all: destruct os as [|ch [|c2 os']]; try done; case_bool_decide; try done.
  destruct (lookup_option p _) as [a'|] eqn:El; [|done]. apply lookup_option_in in El.
  destruct ex; sum_simpl.
  - intros [= <- <-]. split; [by repeat constructor|by intros ? [= <-]].
  - destruct (explicit_chain p a' _ _) as [|[acts' pend']] eqn:E; [done|].
    intros [= <- <-]. destruct (IH _ _ _ _ El E). split; [by constructor|done].
Qed.

End membership.

(** ** The invariant through the parse loops *)

Section typed_loops.
Context (q : list argument) (Hq : NoDup (dest <$> q)).
Context (p : list argument) (Hpq : ∀ a, a ∈ p → suppressed a = false → a ∈ q).

(** What a loop keeps: [q] is typed, with the options seen before the
    loop ([S0]) and in it; the domain does not change; keys that are not
    destinations of [q] keep their value. *)
Definition loop_inv (S0 : list argument) (ns0 ns : namespace) (seen : list argument) : Prop :=
  typed q ns (S0 ++ seen) ∧ dom ns = dom ns0 ∧ ∀ k, k ∉ dest <$> q → ns !! k = ns0 !! k.

Lemma take_actions_inv acts S0 ns0 ns seen ns' seen' :
  Forall (λ x, x.1 ∈ p) acts → loop_inv S0 ns0 ns seen →
  take_actions acts ns seen = inr (ns', seen') → loop_inv S0 ns0 ns' seen'.
Proof.
  revert ns seen; induction acts as [|[a vals] acts IH]; intros ns seen Hacts Hinv; simpl; sum_simpl.
  { by intros [= <- <-]. }
  apply Forall_cons in Hacts as [Ha Hacts]; simpl in Ha.
  destruct (take_action a vals ns) as [|ns1] eqn:E; [done|].
  apply take_action_typed in E as (Hs & v & -> & Hv).
  assert (a ∈ q) as Haq by auto. destruct Hinv as (Ht & Hd & Hf).
  apply IH; [done|]. split_and!.
  - eapply (typed_insert q Hq); [done..|]. set_solver.
  - by erewrite (typed_dom q).
  - intros k Hk. rewrite (insert_frame q); auto.
Qed.

Lemma consume_optional_inv a os ex ts S0 ns0 ns seen ns' seen' ts' :
  a ∈ p → pat_ok p ts → loop_inv S0 ns0 ns seen →
  consume_optional p a os ex ts ns seen = inr (ns', seen', ts') →
  loop_inv S0 ns0 ns' seen' ∧ pat_ok p ts'.
Proof.
  intros Ha Hts Hinv. unfold consume_optional, err. sum_simpl.
  destruct (match ex with None => _ | Some x => _ end) as [|[acts pend]] eqn:E1; [done|].
  assert (Forall (λ x, x.1 ∈ p) acts ∧ ∀ a', pend = Some a' → a' ∈ p) as [Hacts Hpend].
  { destruct ex; [by eapply explicit_chain_in|]. injection E1 as <- <-.
    split; [done|by intros ? [= <-]]. }
  destruct pend as [a'|].
  - destruct (match_argument a' ts) as [|n]; [done|]. simpl.
    destruct (take_actions _ ns seen) as [|[ns1 seen1]] eqn:E2; [done|]. intros [= <- <- <-].
    split; [|by apply Forall_drop].
    eapply take_actions_inv; [|done..]. apply Forall_app; split; [done|].
    constructor; [by apply Hpend|done].
  - destruct (take_actions _ ns seen) as [|[ns1 seen1]] eqn:E2; [done|]. intros [= <- <- <-].
    split; [|done]. eapply take_actions_inv; [|done..]. by rewrite app_nil_r.
Qed.

Lemma consume_inv f ts S0 ns0 ns seen extras ns' seen' extras' :
  pat_ok p ts → loop_inv S0 ns0 ns seen →
  consume f p ts ns seen extras = inr (ns', seen', extras') → loop_inv S0 ns0 ns' seen'.
Proof.
  revert ts ns seen extras; induction f as [|f IH]; intros ts ns seen extras Hts Hinv; [done|].
  destruct ts as [|[tok [[a os ex|]|]] ts']; simpl; sum_simpl; [by intros [= <- <- _]| |..];
    apply Forall_cons in Hts as [Ht Hts']; [|by apply IH..].
  destruct (consume_optional p a os ex ts' ns seen) as [|[[ns1 seen1] ts1]] eqn:E; [done|].
  apply (consume_optional_inv _ _ _ _ S0 ns0) in E as [Hinv1 Hts1]; [|by apply (Ht a os ex)|done..].
  by apply IH.
Qed.

End typed_loops.

Lemma check_required_ok p seen :
  check_required p seen = inr () → ∀ a, a ∈ p → required a = true → a ∈ seen.
Proof.
  unfold check_required. destruct (find _ p) eqn:E; [done|]. intros _ a Ha Hr.
  eapply find_none in E; [|by apply list_elem_of_In].
  rewrite Hr in E. simpl in E. by apply negb_false_iff, bool_decide_eq_true in E.
Qed.

(** Setting the defaults is a left-biased union with the map of
    defaults. *)
Lemma set_defaults_union p ns : set_defaults p ns = ns ∪ default_map p.
Proof.
  unfold default_map. revert ns; induction p as [|a p IH]; intros ns; simpl.
  { by rewrite map_union_empty. }
  unfold set_defaults in *. simpl. unfold stores. rewrite filter_cons.
  destruct (suppressed a) eqn:Hs; simpl; rewrite IH; [done|].
  rewrite (insert_union_singleton_l (list_to_map _)), map_union_assoc. f_equal.
  destruct (ns !! dest a) eqn:E.
  - apply map_eq. intros k. rewrite lookup_union. destruct (decide (k = dest a)) as [->|].
    + rewrite E, lookup_singleton_eq. done.
    + by rewrite lookup_singleton_ne, option_union_right_id.
  - by rewrite <-insert_union_singleton_r.
Qed.

(** ** A successful parse conforms to the schema of the option table *)

Lemma stores_app p1 p2 : stores (p1 ++ p2) = stores p1 ++ stores p2.
Proof. apply filter_app. Qed.

Lemma stores_in p a : a ∈ p → suppressed a = false → a ∈ stores p.
Proof. intros. by apply list_elem_of_filter. Qed.

Lemma fmap_dest_pair {B} (f : argument → B) (l : list argument) : fst <$> ((λ a, (dest a, f a)) <$> l) = dest <$> l.
Proof. rewrite <-list_fmap_compose. done. Qed.

Lemma default_map_lookup p a :
  NoDup (dest <$> stores p) → a ∈ stores p → default_map p !! dest a = Some (default a).
Proof.
  intros Hnd Ha. apply elem_of_list_to_map_1; [by rewrite fmap_dest_pair|].
  by apply (list_elem_of_fmap_2 (λ a, (dest a, default a))).
Qed.

Lemma dom_default_map p : dom (default_map p) = list_to_set (dest <$> stores p).
Proof. unfold default_map. by rewrite dom_list_to_map_L, fmap_dest_pair. Qed.

Lemma wf_command_nodup P sp :
  wf_command P sp → (command_dest P ∉ dest <$> stores (main_args P ++ sp)) ∧
    NoDup (dest <$> stores (main_args P)) ∧ NoDup (dest <$> stores sp) ∧
    ∀ a b, a ∈ stores (main_args P) → b ∈ stores sp → dest a ≠ dest b.
Proof.
  intros [Hnd _]. apply NoDup_cons in Hnd as [Hc Hnd].
  rewrite stores_app, fmap_app in Hc, Hnd. apply NoDup_app in Hnd as (H1 & H12 & H2).
  split_and!; [by rewrite stores_app, fmap_app|done|done|].
  intros a b Ha Hb E. apply (H12 (dest a)); [by apply list_elem_of_fmap_2|].
  rewrite E. by apply list_elem_of_fmap_2.
Qed.

Lemma wf_command_defaults P sp a :
  wf_command P sp → a ∈ stores (main_args P ++ sp) → has_ty (default a) (decl_ty a) = true.
Proof. intros [_ Hd] Ha. by eapply Forall_forall in Hd. Qed.

Section conformance.
Context (P : parser) (HP : wf_parser P).

Lemma wf_parser_command name sp : lookup_command P name = Some sp → wf_command P sp.
Proof.
  destruct HP as [_ Hc]. unfold lookup_command. intros H.
  apply fmap_Some in H as ([n sp'] & Hf & ->). apply find_some in Hf as [Hin _].
  apply list_elem_of_In in Hin. by eapply Forall_forall in Hc.
Qed.

(** The main parser's loop, up to the subcommand. *)
Lemma consume_main_inv f ts ns0 ns seen extras ns' seen' extras' :
  pat_ok (main_args P) ts → loop_inv (stores (main_args P)) [] ns0 ns seen →
  consume_main f P ts ns seen extras = inr (ns', seen', extras', true) →
  ∃ tok sp ns1 f' toks ex,
    lookup_command P tok = Some sp ∧ loop_inv (stores (main_args P)) [] ns0 ns1 seen' ∧
    parse_known_args f' sp toks (<[command_dest P := VAtom (AStr tok)]> ns1) = inr (ns', ex).
Proof.
  destruct (wf_command_nodup P [] (proj1 HP)) as (_ & Hnd & _).
  revert ts ns seen extras; induction f as [|f IH]; intros ts ns seen extras Hts Hinv; [done|].
  destruct ts as [|[tok [[a os ex|]|]] ts']; simpl; sum_simpl; [done| | |];
    apply Forall_cons in Hts as [Ht Hts'].
  - destruct (consume_optional _ a os ex ts' ns seen) as [|[[ns1 seen1] ts1]] eqn:E; [done|].
    apply (consume_optional_inv _ Hnd (main_args P) (λ b Hb Hs, stores_in _ b Hb Hs)
             _ _ _ _ [] ns0) in E as [Hinv1 Hts1]; [|by apply (Ht a os ex)|done..].
    by apply IH.
  - by apply IH.
  - destruct (lookup_command P tok) as [sp|] eqn:Hl; [|done].
    destruct (parse_known_args f sp _ _) as [|[ns2 ex2]] eqn:E; [done|]. intros [= <- <- _].
    by exists tok, sp, ns, f, (fst <$> ts'), ex2.
Qed.

Lemma typed_field q ns S a :
  typed q ns S → a ∈ q → (required a = true → a ∈ S) →
  ∃ v, ns !! dest a = Some v ∧ has_ty v (field_ty a) = true.
Proof.
  unfold typed, field_ty. rewrite Forall_forall. intros Ht Ha Hr.
  destruct (Ht a Ha) as (v & Hv & Hd & Hs). exists v. split; [done|].
  destruct (required a); auto.
Qed.

(** The subcommand's parser, run on the main namespace: its destinations
    are fresh there, it leaves the others as they are, and its required
    options are present. *)
Lemma parse_known_args_inv f sp toks tok ns1 seen_m ns' ex :
  wf_command P sp → typed (stores (main_args P)) ns1 seen_m →
  dom ns1 = {[command_dest P]} ∪ list_to_set (dest <$> stores (main_args P)) →
  parse_known_args f sp toks (<[command_dest P := VAtom (AStr tok)]> ns1) = inr (ns', ex) →
  ∃ seen_s,
    typed (stores (main_args P)) ns' seen_m ∧ typed (stores sp) ns' seen_s ∧
    (∀ a, a ∈ sp → required a = true → a ∈ seen_s) ∧
    ns' !! command_dest P = Some (VAtom (AStr tok)) ∧
    dom ns' = {[command_dest P]} ∪ list_to_set (dest <$> stores (main_args P ++ sp)).
Proof.
  intros Hwf Htm Hdom. destruct (wf_command_nodup _ _ Hwf) as (Hc & Hndm & Hnds & Hdis).
  rewrite stores_app, fmap_app, elem_of_app in Hc.
  set (ns1' := <[command_dest P := VAtom (AStr tok)]> ns1).
  unfold parse_known_args, err. sum_simpl.
  destruct (classify sp toks) as [|ts] eqn:Ec; [done|]. apply classify_ok in Ec.
  destruct (consume f sp ts _ [] []) as [|[[ns2 seen_s] ex2]] eqn:E; [done|].
  destruct (check_required sp seen_s) as [|[]] eqn:Er; [done|]. intros [= <- <-].
  assert (Hfresh : ∀ a, a ∈ stores sp → ns1' !! dest a = None).
  { intros a Ha. apply not_elem_of_dom. subst ns1'. rewrite dom_insert_L, Hdom.
    rewrite !elem_of_union, elem_of_singleton, elem_of_list_to_set, list_elem_of_fmap.
    intros [Ee|[Ee|(b & Ee & Hb)]].
    - apply Hc. right. rewrite <-Ee. by apply list_elem_of_fmap_2.
    - apply Hc. right. rewrite <-Ee. by apply list_elem_of_fmap_2.
    - by apply (Hdis b a). }
  assert (Hmain : ∀ a, a ∈ stores (main_args P) → dest a ∉ dest <$> stores sp).
  { intros a Ha (b & Ee & Hb)%list_elem_of_fmap. by apply (Hdis a b). }
  assert (Hcs : command_dest P ∉ dest <$> stores sp) by naive_solver.
  assert (Hinv0 : loop_inv (stores sp) [] (set_defaults sp ns1') (set_defaults sp ns1') []).
  { split_and!; [|done|done]. unfold typed. apply Forall_forall. intros a Ha.
    exists (default a). rewrite set_defaults_union, lookup_union_r, default_map_lookup by auto.
    split_and!; [done|apply (wf_command_defaults P sp a Hwf); rewrite stores_app; set_solver|set_solver]. }
  destruct (consume_inv (stores sp) Hnds sp (stores_in sp) f ts [] _ _ [] [] ns2 seen_s ex2
              Ec Hinv0 E) as (Hts & Hd & Hf).
  exists seen_s. split_and!.
  - unfold typed in *. rewrite Forall_forall in Htm |- *. intros a Ha.
    destruct (Htm a Ha) as (v & Hv & Hdv & Hsv). exists v.
    rewrite Hf, set_defaults_union by auto. split_and!; [|done|done].
    apply lookup_union_Some_l. subst ns1'. rewrite lookup_insert_ne; [done|].
    intros Ee. apply Hc. left. rewrite Ee. by apply list_elem_of_fmap_2.
  - done.
  - by apply check_required_ok.
  - rewrite Hf, set_defaults_union by done. apply lookup_union_Some_l. apply lookup_insert_eq.
  - rewrite Hd, set_defaults_union, dom_union_L, dom_default_map. subst ns1'.
    rewrite dom_insert_L, Hdom, stores_app, fmap_app, list_to_set_app_L. set_solver.
Qed.

(** The namespace the main parser starts from holds the defaults of its
    arguments and [null] under the command's destination. *)
Lemma start_inv :
  let ns0 := <[command_dest P := VNull]> (set_defaults (main_args P) ∅) in
  loop_inv (stores (main_args P)) [] ns0 ns0 [] ∧
  dom ns0 = {[command_dest P]} ∪ list_to_set (dest <$> stores (main_args P)).
Proof.
  destruct HP as [Hw _]. destruct (wf_command_nodup P [] Hw) as (Hc & Hnd & _).
  rewrite app_nil_r in Hc.
  split; [split_and!; [|done|done]|].
  - unfold typed. apply Forall_forall. intros a Ha. exists (default a).
    rewrite lookup_insert_ne, set_defaults_union, map_empty_union, default_map_lookup by set_solver.
    split_and!; [done|apply (wf_command_defaults P [] a Hw); by rewrite app_nil_r|set_solver].
  - by rewrite dom_insert_L, set_defaults_union, map_empty_union, dom_default_map.
Qed.

(** A command line that argparse accepts names a subcommand, and the
    namespace it gives has exactly the destinations of the main parser
    and of that subcommand, each holding a value of its type: a required
    option holds a value, an option with a default never holds [null]. *)
Theorem parse_args_conforms argv ns :
  parse_args P argv = inr ns →
  ∃ name sp, lookup_command P name = Some sp ∧
    ns !! command_dest P = Some (VAtom (AStr name)) ∧
    conforms ns ((command_dest P, TyStr) :: schema (main_args P ++ sp)).
Proof.
  unfold parse_args, err. case_bool_decide; [done|]. sum_simpl.
  destruct (classify _ argv) as [|ts] eqn:Ec; [done|]. apply classify_ok in Ec.
  destruct start_inv as [Hinv0 Hdom0].
  destruct (consume_main _ P ts _ [] []) as [|[[[ns1 seen_m] extras] []]] eqn:E; [done| |done].
  destruct (check_required _ seen_m) as [|[]] eqn:Er; [done|].
  destruct extras; [intros [= <-]|done].
  destruct (consume_main_inv _ _ _ _ _ _ _ _ _ Ec Hinv0 E)
    as (tok & sp & ns2 & f' & toks & ex & Hl & (Ht & Hd & _) & Hp).
  assert (Hd' : dom ns2 = {[command_dest P]} ∪ list_to_set (dest <$> stores (main_args P)))
    by by rewrite Hd.
  destruct (parse_known_args_inv _ _ _ _ _ seen_m _ _ (wf_parser_command _ _ Hl) Ht Hd' Hp)
    as (seen_s & Htm & Hts & Hreq & Hcmd & Hdom).
  exists tok, sp. split_and!; [done|done|split].
  - unfold schema. rewrite Hdom, fmap_cons, fmap_dest_pair. reflexivity.
  - constructor; [by exists (VAtom (AStr tok))|]. unfold schema.
    rewrite stores_app, fmap_app. apply Forall_app; split; apply Forall_fmap, Forall_forall;
      intros a Ha; simpl.
    + apply (typed_field _ _ _ _ Htm Ha). intros Hr. eapply check_required_ok; [done| |done].
      by eapply list_elem_of_filter.
    + apply (typed_field _ _ _ _ Hts Ha). intros Hr. apply Hreq; [|done].
      by eapply list_elem_of_filter.
Qed.

End conformance.

(** ** Integers printed in decimal *)

Lemma pretty_N_char_cases d :
  pretty_N_char d ∈ ["0"; "1"; "2"; "3"; "4"; "5"; "6"; "7"; "8"; "9"]%char.
Proof. unfold pretty_N_char. repeat case_match; set_solver. Qed.

Lemma digit_value_pretty_char d : (d < 10)%N → digit_value (pretty_N_char d) = Some (Z.of_N d).
Proof.
  intros Hd. assert (d = 0 ∨ d = 1 ∨ d = 2 ∨ d = 3 ∨ d = 4 ∨ d = 5 ∨ d = 6 ∨ d = 7 ∨
                     d = 8 ∨ d = 9)%N as Hc by lia.
  repeat destruct Hc as [->|Hc]; [reflexivity..|]. by subst.
Qed.

Lemma is_digit_pretty_char d : is_digit (pretty_N_char d) = true.
Proof.
  pose proof (pretty_N_char_cases d) as H. apply list_elem_of_In in H. simpl in H.
  repeat destruct H as [<-|H]; [reflexivity..|done].
Qed.

Lemma pretty_N_go_digits n s :
  string_forallb is_digit (pretty_N_go n s) = string_forallb is_digit s.
Proof.
  revert s. induction (N.lt_wf_0 n) as [n _ IH]; intros s.
  destruct (decide (n = 0)%N) as [->|Hn]; [by rewrite pretty_N_go_0|].
  rewrite pretty_N_go_step by lia. rewrite IH by (apply N.div_lt; lia).
  simpl. by rewrite is_digit_pretty_char.
Qed.

Lemma pretty_N_go_head n s :
  (0 < n)%N → ∃ d rest, pretty_N_go n s = String (pretty_N_char d) rest.
Proof.
  revert s. induction (N.lt_wf_0 n) as [n _ IH]; intros s Hn.
  rewrite pretty_N_go_step by lia.
  destruct (decide (n `div` 10 = 0)%N) as [->|Hd].
  - rewrite pretty_N_go_0. by eexists _, _.
  - apply IH; [apply N.div_lt; lia|]. by apply N.neq_0_lt_0.
Qed.

(** Reading the digits [pretty_N_go] prepends. *)
Lemma digits_prefix_pretty_N_go n :
  ∃ k : nat, ∀ acc b s, digits_prefix acc b (pretty_N_go n s) =
    digits_prefix (acc * 10 ^ Z.of_nat k + Z.of_N n) (b || bool_decide (0 < n)%N) s.
Proof.
  induction (N.lt_wf_0 n) as [n _ IH].
  destruct (decide (n = 0)%N) as [->|Hn].
  { exists 0. intros acc b s. rewrite pretty_N_go_0, orb_false_r. f_equal. lia. }
  destruct (IH (n `div` 10)%N) as [k Hk]; [apply N.div_lt; lia|].
  exists (S k). intros acc b s. rewrite pretty_N_go_step, Hk by lia. cbn [digits_prefix].
  rewrite digit_value_pretty_char by (apply N.mod_lt; lia).
  rewrite (bool_decide_true (0 < n)%N), orb_true_r by lia.
  pose proof (N.div_mod n 10 ltac:(lia)) as Hdm. apply (f_equal Z.of_N) in Hdm.
  rewrite N2Z.inj_add, N2Z.inj_mul in Hdm.
  rewrite Nat2Z.inj_succ, Z.pow_succ_r by lia. f_equal. lia.
Qed.

Lemma digits_prefix_pretty_pos p :
  digits_prefix 0 false (pretty_N_go (N.pos p) "") = Some (Z.pos p).
Proof.
  destruct (digits_prefix_pretty_N_go (N.pos p)) as [k Hk].
  rewrite Hk, bool_decide_true by lia. done.
Qed.

Lemma digit_not_special c :
  is_digit c = true → c ≠ "-"%char ∧ c ≠ "+"%char ∧ c ≠ "="%char ∧ c ≠ "."%char ∧
    c ≠ " "%char ∧ is_js_space c = false.
Proof.
  unfold is_digit, digit_value, is_js_space. intros Hd.
  case_decide as Hr; [|by apply bool_decide_eq_true in Hd as []].
  split_and!; try (intros ->; vm_compute in Hr; lia).
  apply bool_decide_eq_false. rewrite !elem_of_cons, elem_of_nil. lia.
Qed.

Lemma pretty_pos_head p :
  ∃ c rest, pretty (Z.pos p) = String c rest ∧ is_digit c = true ∧
    string_forallb is_digit rest = true.
Proof.
  cbv [pretty pretty_Z pretty_positive pretty_N].
  rewrite decide_False by done.
  destruct (pretty_N_go_head (N.pos p) "") as (d & rest & E); [lia|].
  pose proof (pretty_N_go_digits (N.pos p) "") as Hall. rewrite E in Hall.
  exists (pretty_N_char d), rest. rewrite E. simpl in Hall.
  rewrite is_digit_pretty_char in Hall. split_and!; [done|apply is_digit_pretty_char|done].
Qed.

(** [parseInt(String(z), 10)] is [z]. *)
Lemma parseInt_pretty z : parseInt (pretty z) = Some z.
Proof.
  destruct z as [|p|p]; [reflexivity| |].
  - destruct (pretty_pos_head p) as (c & rest & E & Hc & _).
    pose proof (digit_not_special c Hc) as (Hm & Hp & _ & _ & _ & Hs).
    unfold parseInt. rewrite E. cbn [trim_start]. rewrite Hs, !bool_decide_false by done.
    rewrite <-E. cbv [pretty pretty_Z pretty_positive pretty_N].
    rewrite decide_False by done. apply digits_prefix_pretty_pos.
  - unfold parseInt. cbv [pretty pretty_Z pretty_positive pretty_N].
    rewrite decide_False by done. change ("-" +:+ ?x) with (String "-" x).
    cbn [trim_start]. replace (is_js_space "-") with false by reflexivity.
    rewrite bool_decide_true by done. by rewrite digits_prefix_pretty_pos.
Qed.

(** ** Tokens of a rendered command line *)

(** A token that does not start with a dash. *)
Definition plain (s : string) : bool :=
  match s with String c _ => negb (bool_decide (c = "-"%char)) | EmptyString => true end.

Definition dash_digit (o : string) : bool :=
  match o with
  | String c1 (String c2 _) => bool_decide (c1 = "-"%char) && is_digit c2
  | _ => false
  end.

(** No option string starts with a dash and a digit, and none reads as
    a negative number. *)
Definition digit_free (p : list argument) : bool :=
  forallb (λ ao, negb (dash_digit ao.2)) (all_option_strings p) &&
  negb (has_negative_number_optionals p).

Lemma parse_optional_plain p s : plain s = true → parse_optional p s = inr None.
Proof. destruct s as [|c s]; [done|]. simpl. intros ->. done. Qed.

Lemma plain_pretty_nonneg z : (0 ≤ z)%Z → plain (pretty z) = true.
Proof.
  destruct z as [|q|q]; [done| |lia]. intros _.
  destruct (pretty_pos_head q) as (c & rest & -> & Hc & _). simpl.
  destruct (digit_not_special c Hc) as [Hm _]. by rewrite bool_decide_false.
Qed.

Lemma split_eq_digits s : string_forallb is_digit s = true → split_eq s = None.
Proof.
  induction s as [|c s IH]; [done|]. simpl. intros [Hc Hs]%andb_prop.
  destruct (digit_not_special c Hc) as (_ & _ & He & _). rewrite bool_decide_false by done.
  by rewrite IH.
Qed.

Lemma prefix_two c1 c2 r o :
  String.prefix (String c1 (String c2 r)) o = true → ∃ r', o = String c1 (String c2 r').
Proof.
  destruct o as [|d1 [|d2 o]]; simpl; [done| |];
    destruct (ascii_dec c1 d1); [|done| |done]; subst; [done|].
  destruct (ascii_dec c2 d2); [subst; by eexists|done].
Qed.

Lemma omap_all_none {A B} (f : A → option B) l : (∀ x, x ∈ l → f x = None) → omap f l = [].
Proof.
  induction l as [|x l IH]; intros H; [done|]. simpl.
  rewrite H by set_solver. apply IH. set_solver.
Qed.

Lemma lookup_option_all p tok a : lookup_option p tok = Some a → (a, tok) ∈ all_option_strings p.
Proof.
  unfold lookup_option. intros H. apply find_some in H as [Hin Ht].
  apply bool_decide_eq_true in Ht. apply list_elem_of_In in Hin.
  unfold all_option_strings. apply list_elem_of_bind. exists a. split; [|done].
  by apply (list_elem_of_fmap_2 (λ o, (a, o))).
Qed.

(** A printed negative integer is a positional. *)
Lemma parse_optional_neg p c rest :
  digit_free p = true → is_digit c = true → string_forallb is_digit rest = true →
  parse_optional p (String "-" (String c rest)) = inr None.
Proof.
  intros [Hd Hn]%andb_prop Hc Hr. rewrite forallb_forall in Hd.
  assert (Hno : ∀ a o, (a, o) ∈ all_option_strings p → dash_digit o = false).
  { intros a o Hin. apply negb_true_iff. apply (Hd (a, o)). by apply list_elem_of_In. }
  unfold parse_optional. rewrite bool_decide_true by done. simpl negb. cbn iota.
  destruct (lookup_option p _) as [a|] eqn:El.
  { apply lookup_option_all, Hno in El. simpl in El. by rewrite Hc in El. }
  rewrite bool_decide_false by done.
  destruct (digit_not_special c Hc) as (Hm & _ & He & _).
  cbn [split_eq]. rewrite (bool_decide_false (_ = "="%char)) by done.
  rewrite (bool_decide_false (c = "="%char)), (split_eq_digits rest Hr) by done. cbn iota.
  assert (option_tuples p (String "-" (String c rest)) = []) as ->.
  { unfold option_tuples. rewrite bool_decide_true by done.
    rewrite bool_decide_false by done.
    apply omap_all_none. intros [a o] Hin. apply Hno in Hin.
    case_decide as Ho; [subst o; simpl in Hin; by rewrite Hc in Hin|].
    destruct (String.prefix _ o) eqn:Hp; [|done].
    apply prefix_two in Hp as [r' ->]. simpl in Hin. by rewrite Hc in Hin. }
  unfold negative_number_like, all_digits. simpl. rewrite Hc, Hr. simpl.
  by rewrite Hn.
Qed.

Lemma parse_optional_pretty p (z : Z) : digit_free p = true → parse_optional p (pretty z) = inr None.
Proof.
  intros Hp. destruct z as [|q|q]; [done| |].
  - by apply parse_optional_plain, plain_pretty_nonneg.
  - destruct (pretty_pos_head q) as (c & rest & E & Hc & Hr).
    change (pretty (Z.neg q)) with (String "-" (pretty (Z.pos q))). rewrite E.
    by apply parse_optional_neg.
Qed.

Lemma classify_app p l1 l2 :
  classify p (l1 ++ l2) = (ts1 ← classify p l1; ts2 ← classify p l2; inr (ts1 ++ ts2)).
Proof.
  induction l1 as [|t l1 IH]; simpl; sum_simpl.
  - by destruct (classify p l2).
  - destruct (parse_optional p t); [done|]. rewrite IH.
    destruct (classify p l1); [done|]. by destruct (classify p l2).
Qed.

Lemma classify_plain p l :
  Forall (λ s, plain s = true) l → classify p l = inr ((λ s, (s, None)) <$> l).
Proof.
  induction 1 as [|s l Hs _ IH]; [done|]. simpl. sum_simpl.
  by rewrite parse_optional_plain, IH.
Qed.

(** ** Running the loops step by step *)

(** The loops with exactly the fuel [parse_args] gives them. *)
Definition consume_all (p : list argument) (ts : pattern) (ns : namespace)
    (seen : list argument) (extras : list string) :=
  consume (S (length ts)) p ts ns seen extras.

Definition consume_main_all (P : parser) (ts : pattern) (ns : namespace)
    (seen : list argument) (extras : list string) :=
  consume_main (S (length ts)) P ts ns seen extras.

Lemma consume_all_nil p ns seen extras : consume_all p [] ns seen extras = inr (ns, seen, extras).
Proof. done. Qed.

Lemma consume_all_opt p tok a os ex ts ns seen extras :
  consume_all p ((tok, Some (OKnown a os ex)) :: ts) ns seen extras =
  ('(ns', seen', ts') ← consume_optional p a os ex ts ns seen;
   consume_all p ts' ns' seen' extras).
Proof.
  unfold consume_all.
  assert (consume (S (length ((tok, Some (OKnown a os ex)) :: ts))) p
            ((tok, Some (OKnown a os ex)) :: ts) ns seen extras =
          ('(ns', seen', ts') ← consume_optional p a os ex ts ns seen;
           consume (S (length ts)) p ts' ns' seen' extras)) as -> by reflexivity.
  sum_simpl.
  destruct (consume_optional p a os ex ts ns seen) as [|[[ns' seen'] ts']] eqn:E; [done|].
  apply consume_optional_suffix in E. apply consume_fuel; lia.
Qed.

Lemma consume_optional_flag p a os ts ns seen :
  arg_action a = StoreTrue →
  consume_optional p a os None ts ns seen = inr (<[dest a := VBool true]> ns, a :: seen, ts).
Proof.
  intros Ha. unfold consume_optional, match_argument, takes_args, err. sum_simpl. simpl.
  rewrite Ha. simpl. unfold take_action. rewrite Ha. reflexivity.
Qed.

Lemma consume_optional_store1 p a os v ts ns seen x :
  arg_action a = Store → arg_nargs a = NOne → convert a v = inr x →
  consume_optional p a os None ((v, None) :: ts) ns seen =
    inr (<[dest a := VAtom x]> ns, a :: seen, ts).
Proof.
  intros Ha Hn Hc. unfold consume_optional, match_argument, takes_args, err. sum_simpl. simpl.
  rewrite Ha, Hn. simpl. unfold take_action. rewrite Ha, Hn. simpl. rewrite Hc. reflexivity.
Qed.

Lemma count_positional_app vs ts :
  count_positional (((λ s, (s, None)) <$> vs) ++ ts) = (length vs + count_positional ts)%nat.
Proof. induction vs as [|v vs IH]; simpl; auto. Qed.

Lemma convert_all_str a vs : arg_type a = TString → convert_all a vs = inr (AStr <$> vs).
Proof.
  intros Ht. induction vs as [|v vs IH]; [done|]. simpl. sum_simpl.
  unfold convert at 1. rewrite Ht, IH. done.
Qed.

Lemma consume_optional_star p a os vs ts ns seen :
  arg_action a = Store → arg_nargs a = NStar → arg_type a = TString → count_positional ts = 0 →
  consume_optional p a os None (((λ s, (s, None)) <$> vs) ++ ts) ns seen =
    inr (<[dest a := VList (AStr <$> vs)]> ns, a :: seen, ts).
Proof.
  intros Ha Hn Ht Hts. unfold consume_optional, match_argument, takes_args, err. sum_simpl.
  simpl. rewrite Ha, Hn, count_positional_app, Hts, Nat.add_0_r. simpl.
  rewrite take_app_length', drop_app_length' by (by rewrite length_fmap).
  rewrite <-list_fmap_compose, list_fmap_id. unfold take_action. rewrite Ha, Hn.
  unfold err. rewrite convert_all_str by done. reflexivity.
Qed.

Lemma consume_main_fuel P f1 f2 ts ns seen extras :
  S (length ts) ≤ f1 → S (length ts) ≤ f2 →
  consume_main f1 P ts ns seen extras = consume_main f2 P ts ns seen extras.
Proof.
  revert f2 ts ns seen extras; induction f1 as [|f1 IH];
    intros [|f2] ts ns seen extras H1 H2; try lia.
  destruct ts as [|[tok [[a os ex|]|]] ts']; simpl in *; sum_simpl; [done| |by apply IH; lia|].
  - destruct (consume_optional _ a os ex ts' ns seen) as [|[[ns' seen'] ts'']] eqn:E; [done|].
    apply consume_optional_suffix in E. apply IH; lia.
  - destruct (lookup_command P tok); [|done].
    rewrite (parse_known_args_fuel _ f1 f2); [done|rewrite length_fmap; lia..].
Qed.

Lemma consume_main_all_opt P tok a os ex ts ns seen extras :
  consume_main_all P ((tok, Some (OKnown a os ex)) :: ts) ns seen extras =
  ('(ns', seen', ts') ← consume_optional (main_args P) a os ex ts ns seen;
   consume_main_all P ts' ns' seen' extras).
Proof.
  unfold consume_main_all.
  assert (consume_main (S (length ((tok, Some (OKnown a os ex)) :: ts))) P
            ((tok, Some (OKnown a os ex)) :: ts) ns seen extras =
          ('(ns', seen', ts') ← consume_optional (main_args P) a os ex ts ns seen;
           consume_main (S (length ts)) P ts' ns' seen' extras)) as -> by reflexivity.
  sum_simpl.
  destruct (consume_optional _ a os ex ts ns seen) as [|[[ns' seen'] ts']] eqn:E; [done|].
  apply consume_optional_suffix in E. apply consume_main_fuel; lia.
Qed.

Lemma consume_main_all_cmd P tok ts ns seen extras :
  consume_main_all P ((tok, None) :: ts) ns seen extras =
  match lookup_command P tok with
  | None => inl (SError (EInvalidChoice tok))
  | Some sp =>
      '(ns', extras') ← parse_known_args (S (length (fst <$> ts))) sp (fst <$> ts)
                          (<[command_dest P := VAtom (AStr tok)]> ns);
      inr (ns', seen, extras ++ extras', true)
  end.
Proof. unfold consume_main_all. by rewrite length_fmap. Qed.

Lemma parse_known_args_all sp toks ts ns :
  classify sp toks = inr ts →
  parse_known_args (S (length toks)) sp toks ns =
  ('(ns', seen, extras) ← consume_all sp ts (set_defaults sp ns) [] [];
   _ ← check_required sp seen; inr (ns', extras)).
Proof.
  intros Ec. unfold parse_known_args, consume_all. rewrite Ec.
  by rewrite (classify_length _ _ _ Ec).
Qed.

Lemma parse_args_all P argv ts :
  "--" ∉ argv → classify (main_args P) argv = inr ts →
  parse_args P argv =
  (r ← consume_main_all P ts (<[command_dest P := VNull]> (set_defaults (main_args P) ∅)) [] [];
   match r with
   | (ns, seen, extras, true) =>
       _ ← check_required (main_args P) seen;
       match extras with [] => inr ns | _ => inl (SError (EUnrecognized extras)) end
   | (_, _, _, false) => inl (SError ETooFew)
   end).
Proof.
  intros Hd Ec. unfold parse_args, consume_main_all. rewrite bool_decide_false by done.
  rewrite Ec. by rewrite (classify_length _ _ _ Ec).
Qed.

End ArgParse.
