(* ===== verification/Revision.v ===== *)
(** The Revision Resolver: [getMaxRevision] (src/edgeci.js lines
    155-159) and the [newRevision = lastRevision + 1] of [getProxyToPush]
    (line 197), over the JavaScript values of [JsValue].

    The abstract contract is [is_max_revision]: the current revision is
    a member of the revision list and bounds every member.  The theorems
    are these:
    - on a non-empty list of numbers, [getMaxRevision] returns exactly
      the revision the contract names, and [newRevision] is one more;
    - an empty list throws a [TypeError];
    - a one-element list is returned unchanged, without conversion, so
      a revision that arrives as a string stays a string, and [+ 1]
      concatenates. *)

From S2P Require Import Prelude JsValue.

Local Open Scope Z_scope.

Module Revision.

(** [getMaxRevision(revisions)]:
    [revisions.reduce(function(a, b) { return Math.max(a, b); })]. *)
Definition getMaxRevision (revisions : list jsval) : exn + jsval :=
  reduce1 math_max revisions.

(** [newRevision = lastRevision + 1] in [getProxyToPush]. *)
Definition newRevision (lastRevision : jsval) : jsval :=
  js_plus lastRevision (JNum 1).

(** The contract: [m] is the greatest revision of [revs]. *)
Definition is_max_revision (m : Z) (revs : list Z) : Prop :=
  m ∈ revs ∧ ∀ r, r ∈ revs → r ≤ m.

#[export] Instance is_max_revision_dec m revs : Decision (is_max_revision m revs).
Proof.
  destruct (decide (m ∈ revs ∧ Forall (λ r, r ≤ m) revs)) as [H|H];
    [left | right]; unfold is_max_revision; rewrite <- Forall_forall; tauto.
Defined.

(** ** Folding [Z.max] *)

Lemma foldl_max_ge_acc (x : Z) (l : list Z) : x ≤ foldl Z.max x l.
Proof.
  revert x. induction l as [|y l IH]; intros x; simpl; [lia|].
  specialize (IH (Z.max x y)). lia.
Qed.

Lemma foldl_max_upper (x : Z) (l : list Z) r :
  r ∈ x :: l → r ≤ foldl Z.max x l.
Proof.
  revert x. induction l as [|y l IH]; intros x Hr; simpl.
  - apply list_elem_of_singleton in Hr. lia.
  - pose proof (foldl_max_ge_acc (Z.max x y) l).
    apply elem_of_cons in Hr as [->|Hr]; [lia|].
    apply elem_of_cons in Hr as [->|Hr]; [lia|].
    apply IH. by right.
Qed.

Lemma foldl_max_member (x : Z) (l : list Z) : foldl Z.max x l ∈ x :: l.
Proof.
  revert x. induction l as [|y l IH]; intros x; simpl; [by left|].
  specialize (IH (Z.max x y)).
  destruct (Z.max_spec x y) as [[_ Hm]|[_ Hm]]; rewrite Hm in IH |- *; revert IH; set_solver.
Qed.

Lemma foldl_max_is_max (x : Z) (l : list Z) :
  is_max_revision (foldl Z.max x l) (x :: l).
Proof. split; [apply foldl_max_member | apply foldl_max_upper]. Qed.

(** The maximum of a list is unique. *)
Lemma is_max_revision_unique m1 m2 revs :
  is_max_revision m1 revs → is_max_revision m2 revs → m1 = m2.
Proof.
  intros [H1 U1] [H2 U2]. pose proof (U1 _ H2). pose proof (U2 _ H1). lia.
Qed.

#[export] Hint Resolve foldl_max_is_max is_max_revision_unique : edgeci.

(** ** Behaviour of [getMaxRevision] *)

Lemma getMaxRevision_cons v l : getMaxRevision (v :: l) = inr (foldl math_max v l).
Proof. done. Qed.

(** On an empty list [reduce] without an initial value throws. *)
Lemma getMaxRevision_nil : getMaxRevision [] = inl (TypeError "Reduce of empty array with no initial value").
Proof. done. Qed.

(** The fold is the maximum, and the only one. *)
Lemma foldl_max_iff (x : Z) (l : list Z) m :
  JNum (foldl Z.max x l) = JNum m ↔ is_max_revision m (x :: l).
Proof.
  split.
  - intros [= <-]. apply foldl_max_is_max.
  - intros Hm. f_equal. eauto with edgeci.
Qed.

(** On numbers, [getMaxRevision] finds the maximum the contract names. *)
Lemma getMaxRevision_of_max (revs : list Z) (m : Z) :
  is_max_revision m revs → getMaxRevision (JNum <$> revs) = inr (JNum m).
Proof.
  intros Hm. destruct revs as [|r revs]; [destruct Hm as [Hm _]; set_solver|].
  apply foldl_max_iff in Hm. simpl. by rewrite foldl_math_max_num, Hm.
Qed.

(** ** Theorems *)

(** C19: On a list of numbers, [getMaxRevision] returns a number, and it is
    the maximum: the result is exactly the revision the contract names. *)
Theorem getMaxRevision_numbers (revs : list Z) (m : Z) :
  getMaxRevision (JNum <$> revs) = inr (JNum m) ↔ is_max_revision m revs.
Proof.
  destruct revs as [|r revs]; simpl.
  - split; [done|]. intros [Hm _]. set_solver.
  - rewrite foldl_math_max_num, <- foldl_max_iff. split; [by intros [= ->] | by intros ->].
Qed.

(** C20: The new revision of an import on top of a list of numbers is their
    maximum plus one. *)
Theorem newRevision_numbers (revs : list Z) (m : Z) :
  is_max_revision m revs →
  ∃ lastRevision, getMaxRevision (JNum <$> revs) = inr lastRevision ∧
    newRevision lastRevision = JNum (m + 1).
Proof.
  intros Hm. exists (JNum m). by rewrite (getMaxRevision_of_max _ _ Hm).
Qed.

(** C36: With two or more revisions, every one of them is converted by
    [Math.max], so revisions sent as decimal strings give the numeric
    maximum. *)
Theorem getMaxRevision_coerced (v1 v2 : jsval) (vs : list jsval) (zs : list Z) (m : Z) :
  converts_to (v1 :: v2 :: vs) zs →
  getMaxRevision (v1 :: v2 :: vs) = inr (JNum m) ↔ is_max_revision m zs.
Proof.
  intros Hc. inversion Hc as [|? z1 ? zs1 H1 Hc1]; subst.
  inversion Hc1 as [|? z2 ? zs2 H2 Hc2]; subst.
  rewrite getMaxRevision_cons. simpl. unfold math_max at 2. rewrite H1, H2.
  rewrite (foldl_math_max_converts _ _ _ Hc2), <- foldl_max_iff. simpl.
  split; [by intros [= ->] | by intros ->].
Qed.

(** C37: A one-element list is returned as it is: [reduce] never calls
    [Math.max], so nothing is converted.  A revision sent as the string
    "7" stays a string, and the [lastRevision + 1] of an import
    concatenates: the new revision is "71", not 8. *)
Theorem getMaxRevision_singleton_string (s : string) :
  getMaxRevision [JStr s] = inr (JStr s) ∧ newRevision (JStr s) = JStr (s +:+ "1").
Proof. done. Qed.

(** ** Witnesses *)

(** The spec's example: revisions 3, 1, 4, 1, 5 give current 5 and
    next 6. *)
Lemma newRevision_numbers_witness :
  is_max_revision 5 [3; 1; 4; 1; 5] ∧
  ∃ lastRevision, getMaxRevision (JNum <$> [3; 1; 4; 1; 5]) = inr lastRevision ∧
    newRevision lastRevision = JNum 6.
Proof.
  assert (H : is_max_revision 5 [3; 1; 4; 1; 5]) by (apply (bool_decide_unpack _); vm_compute; reflexivity).
  split; [exact H | apply (newRevision_numbers _ _ H)].
Defined.

(** Revisions "3" and "10" sent as strings: the maximum is the number
    10 (a string comparison would give "3"). *)
Lemma getMaxRevision_coerced_witness :
  converts_to [JStr "3"; JStr "10"] [3; 10] ∧ getMaxRevision [JStr "3"; JStr "10"] = inr (JNum 10).
Proof.
  assert (Hc : converts_to [JStr "3"; JStr "10"] [3; 10]) by (repeat constructor).
  split; [exact Hc|]. apply (getMaxRevision_coerced _ _ _ _ _ Hc).
  apply (bool_decide_unpack _). vm_compute. reflexivity.
Defined.

End Revision.
