(* ===== verification/ChangeDetector.v ===== *)
(** The Change Detector: the global object [data] (src/edgeci.js line 9)
    and the test and assignment that [getProxyToPull] performs on it
    (lines 173-178):

      if (!data[proxyName] || (data[proxyName].lastModified < lastModified)) {
        data[proxyName] = { proxyName, lastRevision, lastModified }; ... }

    [data] is a plain object, so [data[k]] falls back to
    [Object.prototype] when [k] is not an own property.  [data_get]
    keeps that.  For [k = "constructor"], [data[k]] is a function, which
    is truthy, and its [lastModified] is [undefined].  Since
    [undefined < n] is false, the test fails for every [n].

    The file holds:
    - the concrete detector: [data_get], [shouldExport], [record], and
      [observe], the test and assignment together;
    - the interface [Detector] with its laws [DetectorLaws], which the
      pull sequence relies on, and its instance for [data];
    - the abstract detector: a history of triggered exports, and the
      decision of spec section 4.2 read on the history.  The refinement
      theorem says that the concrete decisions equal the abstract ones
      on any sequence of observations of ordinary names. *)

From S2P Require Import Prelude JsValue.

Local Open Scope Z_scope.

Module ChangeDetector.

(** [{ proxyName: ..., lastRevision: ..., lastModified: ... }] *)
Record proxy_record := mk_record {
  proxyName : string;
  lastRevision : jsval;
  lastModified : Z;
}.

#[export] Instance proxy_record_eq_dec : EqDecision proxy_record.
Proof. solve_decision. Defined.

(** The properties a plain object inherits from [Object.prototype] in
    Node.js. *)
Definition object_prototype_keys : list string :=
  ["constructor"; "hasOwnProperty"; "isPrototypeOf"; "propertyIsEnumerable";
   "toLocaleString"; "toString"; "valueOf"; "__defineGetter__";
   "__defineSetter__"; "__lookupGetter__"; "__lookupSetter__"; "__proto__"].

(** What [data[k]] evaluates to: an own record, an inherited property of
    [Object.prototype] (a function, or the prototype for [__proto__]),
    or [undefined]. *)
Inductive slot :=
| Own (r : proxy_record)
| Inherited
| Absent.

Definition data_get (data : gmap string proxy_record) (k : string) : slot :=
  match data !! k with
  | Some r => Own r
  | None => if decide (k ∈ object_prototype_keys) then Inherited else Absent
  end.

(** [!data[proxyName] || (data[proxyName].lastModified < lastModified)].
    An inherited property is truthy and has no [lastModified], and
    [undefined < lastModified] is false. *)
Definition shouldExport (data : gmap string proxy_record) (proxyName : string)
    (lastModified : Z) : bool :=
  match data_get data proxyName with
  | Absent => true
  | Inherited => false
  | Own r => bool_decide (ChangeDetector.lastModified r < lastModified)
  end.

(** [data[proxyName] = { proxyName, lastRevision, lastModified }].  The
    assignment makes an own property.  It runs only after [shouldExport]
    holds, which never happens for [__proto__], whose assignment would
    replace the prototype instead. *)
Definition record (data : gmap string proxy_record) (proxyName : string)
    (lastRevision : jsval) (lastModified : Z) : gmap string proxy_record :=
  <[proxyName := mk_record proxyName lastRevision lastModified]> data.

(** The test and the assignment of [getProxyToPull] together: whether an
    export is triggered, and the new [data]. *)
Definition observe (data : gmap string proxy_record) (proxyName : string)
    (lastRevision : jsval) (lastModified : Z) : bool * gmap string proxy_record :=
  if shouldExport data proxyName lastModified
  then (true, record data proxyName lastRevision lastModified)
  else (false, data).

(** An ordinary proxy name: not a property of [Object.prototype]. *)
Definition ordinary_name (p : string) : Prop := p ∉ object_prototype_keys.

#[export] Instance ordinary_name_dec p : Decision (ordinary_name p).
Proof. unfold ordinary_name. apply _. Defined.

(** ** Lookup lemmas *)

Lemma data_get_ordinary data p :
  ordinary_name p → data_get data p = match data !! p with Some r => Own r | None => Absent end.
Proof. intros Hp. unfold data_get. destruct (data !! p); [done|]. by rewrite decide_False. Qed.

Lemma shouldExport_ordinary data p lm :
  ordinary_name p →
  shouldExport data p lm =
    match data !! p with Some r => bool_decide (lastModified r < lm) | None => true end.
Proof. intros Hp. unfold shouldExport. rewrite data_get_ordinary by done. by destruct (data !! p). Qed.

Lemma shouldExport_record_eq data p rev lm lm' :
  shouldExport (record data p rev lm) p lm' = bool_decide (lm < lm').
Proof. unfold shouldExport, data_get, record. by rewrite lookup_insert_eq. Qed.

Lemma shouldExport_record_ne data p q rev lm lm' :
  p ≠ q → shouldExport (record data p rev lm) q lm' = shouldExport data q lm'.
Proof. intros Hne. unfold shouldExport, data_get, record. by rewrite lookup_insert_ne. Qed.

Lemma record_lookup_ne data p q rev lm :
  p ≠ q → record data p rev lm !! q = data !! q.
Proof. intros Hne. unfold record. by rewrite lookup_insert_ne. Qed.

Lemma record_lookup_eq data p rev lm :
  record data p rev lm !! p = Some (mk_record p rev lm).
Proof. unfold record. by rewrite lookup_insert_eq. Qed.

#[export] Hint Rewrite shouldExport_record_eq record_lookup_eq : edgeci_rw.

(** ** The interface

    What the pull sequence needs from a change detector (spec section
    4.2): a fresh detector exports every valid name; after [record] at
    [lm], a name is exported again exactly at a strictly later stamp
    (ties do not export); recording one name leaves the others alone. *)
Class Detector (D : Type) := {
  det_empty : D;
  det_should : D → string → Z → bool;
  det_record : D → string → jsval → Z → D;
}.

Class DetectorLaws (D : Type) `{!Detector D} (valid : string → Prop) := {
  det_should_empty p lm : valid p → det_should det_empty p lm = true;
  det_should_record d p rev lm lm' :
    det_should (det_record d p rev lm) p lm' = bool_decide (lm < lm');
  det_should_frame d p q rev lm lm' :
    p ≠ q → det_should (det_record d p rev lm) q lm' = det_should d q lm';
}.

#[export] Instance data_detector : Detector (gmap string proxy_record) := {|
  det_empty := ∅;
  det_should := shouldExport;
  det_record := record;
|}.

#[export] Instance data_detector_laws :
  DetectorLaws (gmap string proxy_record) ordinary_name.
Proof.
  split; simpl.
  - intros p lm Hp. by rewrite shouldExport_ordinary.
  - apply shouldExport_record_eq.
  - apply shouldExport_record_ne.
Qed.

(** Consequences every client of the interface uses. *)
Section detector_client.
Context `{DetectorLaws D valid}.

Lemma det_tie_no_export d p rev lm : det_should (det_record d p rev lm) p lm = false.
Proof. rewrite det_should_record. apply bool_decide_eq_false. lia. Qed.

Lemma det_newer_export d p rev lm lm' :
  lm < lm' → det_should (det_record d p rev lm) p lm' = true.
Proof. intros Hlt. rewrite det_should_record. by apply bool_decide_eq_true. Qed.
End detector_client.

(** ** The abstract detector

    The abstract state is the history of triggered exports, oldest
    first.  A name is exported when every stamp it was exported at is
    strictly older than the observed one. *)
Abbreviation history := (list (string * jsval * Z)).

Definition stamps_of (p : string) (h : history) : list Z :=
  (λ e : string * jsval * Z, e.2) <$> filter (λ e : string * jsval * Z, e.1.1 = p) h.

Definition abs_should (h : history) (p : string) (lm : Z) : bool :=
  forallb (λ lm', bool_decide (lm' < lm)) (stamps_of p h).

Definition abs_observe (h : history) (p : string) (rev : jsval) (lm : Z) : bool * history :=
  if abs_should h p lm then (true, h ++ [(p, rev, lm)]) else (false, h).

(** The decisions along a sequence of observations (name, revision,
    stamp), concrete and abstract. *)
Fixpoint run_observe (d : gmap string proxy_record) (os : list (string * jsval * Z)) : list bool :=
  match os with
  | [] => []
  | (p, rev, lm) :: os' =>
      let '(b, d') := observe d p rev lm in b :: run_observe d' os'
  end.

Fixpoint run_abs (h : history) (os : list (string * jsval * Z)) : list bool :=
  match os with
  | [] => []
  | (p, rev, lm) :: os' =>
      let '(b, h') := abs_observe h p rev lm in b :: run_abs h' os'
  end.

(** The simulation relation: on ordinary names the two detectors take
    the same decisions. *)
Definition detector_rel (d : gmap string proxy_record) (h : history) : Prop :=
  ∀ p lm, ordinary_name p → shouldExport d p lm = abs_should h p lm.

Lemma stamps_of_snoc_eq p rev lm h : stamps_of p (h ++ [(p, rev, lm)]) = stamps_of p h ++ [lm].
Proof. unfold stamps_of. rewrite filter_app, fmap_app. simpl. by rewrite filter_cons_True. Qed.

Lemma stamps_of_snoc_ne p q rev lm h :
  p ≠ q → stamps_of q (h ++ [(p, rev, lm)]) = stamps_of q h.
Proof.
  intros Hne. unfold stamps_of. rewrite filter_app, fmap_app. simpl.
  rewrite filter_cons_False by done. by rewrite app_nil_r.
Qed.

(** All stamps older than [lm] are older than any later [lm']. *)
Lemma abs_should_mono h p lm lm' :
  abs_should h p lm = true → lm ≤ lm' → abs_should h p lm' = true.
Proof.
  unfold abs_should. rewrite !forallb_forall. intros Hall Hle x Hx.
  specialize (Hall x Hx). apply bool_decide_eq_true in Hall. apply bool_decide_eq_true. lia.
Qed.

Lemma detector_rel_empty : detector_rel ∅ [].
Proof. intros p lm Hp. by rewrite shouldExport_ordinary. Qed.

(** One step of each detector preserves the relation. *)
Lemma detector_rel_step d h p rev lm :
  detector_rel d h → ordinary_name p →
  (observe d p rev lm).1 = (abs_observe h p rev lm).1 ∧
  detector_rel (observe d p rev lm).2 (abs_observe h p rev lm).2.
Proof.
  intros R Hp. unfold observe, abs_observe. rewrite (R p lm Hp).
  destruct (abs_should h p lm) eqn:Hs; split; simpl; [done| |done|done].
  intros q lm' Hq. destruct (decide (p = q)) as [<-|Hne].
  - rewrite shouldExport_record_eq. unfold abs_should at 1.
    rewrite stamps_of_snoc_eq, forallb_app. simpl. rewrite andb_true_r.
    destruct (bool_decide_reflect (lm < lm')) as [Hlt|Hge].
    + rewrite andb_true_r. symmetry. apply (abs_should_mono _ _ lm); [done | lia].
    + by rewrite andb_false_r.
  - rewrite shouldExport_record_ne by done. unfold abs_should.
    rewrite stamps_of_snoc_ne by done. by apply R.
Qed.

(** No inherited name is ever an own property of [data]. *)
Definition proto_clear (d : gmap string proxy_record) : Prop :=
  ∀ k, k ∈ object_prototype_keys → d !! k = None.

Lemma observe_proto_false d p rev lm :
  proto_clear d → p ∈ object_prototype_keys → (observe d p rev lm).1 = false.
Proof.
  intros Hc Hp. unfold observe, shouldExport, data_get.
  by rewrite (Hc p Hp), decide_True.
Qed.

Lemma observe_proto_clear d p rev lm : proto_clear d → proto_clear (observe d p rev lm).2.
Proof.
  intros Hc k Hk. unfold observe.
  destruct (shouldExport d p lm) eqn:Hs; simpl; [|by apply Hc].
  destruct (decide (p = k)) as [<-|Hne]; [|rewrite record_lookup_ne by done; by apply Hc].
  unfold shouldExport, data_get in Hs. rewrite (Hc p Hk), decide_True in Hs by done. done.
Qed.

(** ** Theorems *)

(** C2: Refinement: along any sequence of observations of ordinary names,
    the [data] object takes exactly the decisions of the abstract
    detector of spec section 4.2, which exports a name when it was
    never exported or when the observed stamp is strictly newer than
    every stamp it was exported at. *)
Theorem detector_refinement (os : list (string * jsval * Z)) :
  Forall (λ o, ordinary_name o.1.1) os → run_observe ∅ os = run_abs [] os.
Proof.
  intros Hos. cut (∀ d h, detector_rel d h → run_observe d os = run_abs h os).
  { intros Hgen. apply Hgen, detector_rel_empty. }
  induction Hos as [|[[p rev] lm] os Hp _ IH]; intros d h R; simpl; [done|].
  destruct (detector_rel_step d h p rev lm R Hp) as [Hb R'].
  destruct (observe d p rev lm) as [b d'], (abs_observe h p rev lm) as [b' h'].
  simpl in *. subst b'. f_equal. by apply IH.
Qed.

(** C35: A proxy whose name is a property of [Object.prototype] (such as
    "constructor" or "toString") is never exported, whatever stamps are
    observed: [data[name]] is the inherited function, which is truthy,
    and its [lastModified] is undefined. *)
Theorem prototype_name_never_exported (os : list (string * jsval * Z)) i p rev lm :
  os !! i = Some (p, rev, lm) → p ∈ object_prototype_keys →
  run_observe ∅ os !! i = Some false.
Proof.
  intros Hi Hp. cut (∀ d, proto_clear d → run_observe d os !! i = Some false).
  { intros Hgen. apply Hgen. intros k _. apply lookup_empty. }
  revert i Hi. induction os as [|[[q rev'] lm'] os IH]; intros i Hi d Hc; [done|].
  simpl. pose proof (observe_proto_clear d q rev' lm' Hc) as Hc'.
  destruct i as [|i]; simpl in Hi.
  - injection Hi as -> -> ->. pose proof (observe_proto_false d p rev lm Hc Hp) as Hf.
    destruct (observe d p rev lm). simpl in *. by subst.
  - destruct (observe d q rev' lm') as [b d']. simpl. by apply IH.
Qed.

(** ** Witnesses *)

Lemma detector_refinement_witness :
  let os := [("a", JNum 1, 5); ("a", JNum 1, 5); ("a", JNum 2, 7); ("b", JNum 1, 3); ("a", JNum 2, 6)] in
  Forall (λ o, ordinary_name o.1.1) os ∧ run_observe ∅ os = run_abs [] os ∧
  run_observe ∅ os = [true; false; true; true; false].
Proof.
  intros os. assert (H : Forall (λ o, ordinary_name o.1.1) os).
  { apply (bool_decide_unpack _). vm_compute. reflexivity. }
  split; [exact H|]. split; [apply (detector_refinement _ H) | vm_compute; reflexivity].
Defined.

Lemma prototype_name_never_exported_witness :
  let os := [("constructor", JNum 1, 5); ("constructor", JNum 2, 9)] in
  os !! 1%nat = Some ("constructor", JNum 2, 9) ∧ "constructor" ∈ object_prototype_keys ∧
  run_observe ∅ os !! 1%nat = Some false.
Proof.
  intros os. assert (H1 : os !! 1%nat = Some ("constructor", JNum 2, 9)) by reflexivity.
  assert (H2 : "constructor" ∈ object_prototype_keys) by (apply (bool_decide_unpack _); vm_compute; reflexivity).
  split; [exact H1|]. split; [exact H2|]. apply (prototype_name_never_exported _ _ _ _ _ H1 H2).
Defined.

End ChangeDetector.
