(* ===== verification/Config.v ===== *)
(** The global [args] object (src/edgeci.js line 10), the helpers that
    read it (lines 367-381), and the argument objects [pullWithArgs] and
    [pushWithArgs] build (lines 101-131).

    An argparse option that is not given, or a property the two library
    entry points do not set, is [undefined].  Its string value is
    "undefined" when it is concatenated into a path, and it is falsy
    when it is tested.  A string- or number-valued field is therefore
    an [option] ([None] is [undefined]), and a flag is a [bool]
    ([undefined] is [false]). *)

From S2P Require Import Prelude.

Local Open Scope Z_scope.

Module Config.

Record args := mk_args {
  command : option string;      (** [args.command]: "pull" or "push" *)
  org : string;                 (** [args.org] *)
  proxy : list string;          (** [args.proxy]: names, or ["all"] *)
  destination : option string;  (** [args.destination] (pull) *)
  continuous : bool;            (** [args.continuous] (pull) *)
  interval : option Z;          (** [args.interval] in seconds (pull) *)
  source : option string;       (** [args.source] (push) *)
  update : bool;                (** [args.update] (push) *)
  env : option string;          (** [args.env] (push) *)
  username : option string;     (** [process.env.EDGE_USERNAME] *)
  password : option string;     (** [process.env.EDGE_PASSWORD] *)
  quite : bool;                 (** [args.quite], the [-q] flag *)
  verbose : bool;               (** [args.verbose] *)
}.

(** The same object with [args.proxy] replaced, as [getProxyList] and
    [push] do. *)
Definition set_proxy (a : args) (l : list string) : args :=
  mk_args (command a) (org a) l (destination a) (continuous a) (interval a)
    (source a) (update a) (env a) (username a) (password a) (quite a) (verbose a).

(** [String(x)] of a possibly undefined string. *)
Definition str_of (s : option string) : string :=
  match s with
  | Some s => s
  | None => "undefined"
  end.

(** [args.destination + "/" + proxyName] *)
Definition getProxyDestinationPath (a : args) (proxyName : string) : string :=
  str_of (destination a) +:+ "/" +:+ proxyName.

(** [args.source + "/" + proxyName] *)
Definition getProxySourcePath (a : args) (proxyName : string) : string :=
  str_of (source a) +:+ "/" +:+ proxyName.

(** [args.source + "/" + proxyName + ".zip"] *)
Definition getProxyZipPath (a : args) (proxyName : string) : string :=
  str_of (source a) +:+ "/" +:+ proxyName +:+ ".zip".

(** [!str || (undefined === str) || ("" === str)]: undefined and the
    empty string are empty. *)
Definition isEmpty (str : option string) : bool :=
  match str with
  | None => true
  | Some EmptyString => true
  | Some _ => false
  end.

(** [args.proxy[0] === "all"] *)
Definition is_all (a : args) : bool :=
  bool_decide (head (proxy a) = Some "all").

(** [pullWithArgs(username, password, org, proxies, destination,
    continuous, interval)] replaces [args] by a new object with these
    seven properties; every other property is undefined. *)
Definition pullWithArgs_args (username password : option string) (org : string)
    (proxies : list string) (destination : option string) (continuous : bool)
    (interval : option Z) : args :=
  mk_args None org proxies destination continuous interval None false None
    username password false false.

(** [pushWithArgs(username, password, org, proxies, source, update, env)]
    likewise. *)
Definition pushWithArgs_args (username password : option string) (org : string)
    (proxies : list string) (source : option string) (update : bool)
    (env : option string) : args :=
  mk_args None org proxies None false None source update env
    username password false false.

Lemma set_proxy_proxy a l : proxy (set_proxy a l) = l.
Proof. done. Qed.

Lemma isEmpty_false s : isEmpty s = false ↔ ∃ e, s = Some e ∧ e ≠ "".
Proof.
  destruct s as [[|c e]|]; simpl; split; try done.
  - by intros (? & [= <-] & ?).
  - intros _. by eexists.
  - by intros (? & ? & ?).
Qed.

End Config.
