(* ===== verification/Gateway.v ===== *)
(** The Gateway Client: the request options the program hands to
    [request] (src/edgeci.js lines 8 and 278-365).  An option object is
    a record with the URL, the method, the basic-auth credentials from
    [args], the query string, the headers, and the archive that the
    multipart form uploads ([fs.createReadStream(getProxyZipPath(...))]).

    A revision is concatenated into a URL with JavaScript's [+], so it
    goes through [to_js_string].  The query value [validate: true] is a
    boolean that the request library serialises as "true". *)

From S2P Require Import Prelude JsValue Config.

Module Gateway.
Import Config.

(** [var baseURL = 'https://api.enterprise.apigee.com/v1/organizations/'] *)
Definition baseURL : string := "https://api.enterprise.apigee.com/v1/organizations/".

Inductive http_method := GET | POST.

#[export] Instance http_method_eq_dec : EqDecision http_method.
Proof. solve_decision. Defined.

Record options := mk_options {
  url : string;
  method : http_method;
  auth_user : option string;
  auth_pass : option string;
  qs : list (string * string);
  headers : list (string * string);
  form_file : option string;
}.

#[export] Instance options_eq_dec : EqDecision options.
Proof. solve_decision. Defined.

(** [listOptions(orgName)]: GET [.../ORG/apis]. *)
Definition listOptions (a : args) (orgName : string) : options :=
  mk_options (baseURL +:+ orgName +:+ "/apis") GET (username a) (password a) [] [] None.

(** [apiOptions(orgName, proxyName)]: GET [.../ORG/apis/NAME]. *)
Definition apiOptions (a : args) (orgName proxyName : string) : options :=
  mk_options (baseURL +:+ orgName +:+ "/apis/" +:+ proxyName) GET
    (username a) (password a) [] [] None.

(** [exportOptions(orgName, proxyName, revision)]: GET
    [.../ORG/apis/NAME/revisions/REV?format=bundle]. *)
Definition exportOptions (a : args) (orgName proxyName : string) (revision : jsval) : options :=
  mk_options (baseURL +:+ orgName +:+ "/apis/" +:+ proxyName +:+ "/revisions/" +:+ to_js_string revision)
    GET (username a) (password a) [("format", "bundle")] [] None.

(** [importOptions(orgName, proxyName)]: POST
    [.../ORG/apis?action=import&name=NAME&validate=true] with the
    archive.  The revision is not part of the request: the server picks
    the number of the new revision. *)
Definition importOptions (a : args) (orgName proxyName : string) : options :=
  mk_options (baseURL +:+ orgName +:+ "/apis") POST (username a) (password a)
    [("action", "import"); ("name", proxyName); ("validate", "true")] []
    (Some (getProxyZipPath a proxyName)).

(** [updateOptions(orgName, proxyName, revision)]: POST
    [.../ORG/apis/NAME/revisions/REV?validate=true] with the archive. *)
Definition updateOptions (a : args) (orgName proxyName : string) (revision : jsval) : options :=
  mk_options (baseURL +:+ orgName +:+ "/apis/" +:+ proxyName +:+ "/revisions/" +:+ to_js_string revision)
    POST (username a) (password a) [("validate", "true")] []
    (Some (getProxyZipPath a proxyName)).

(** [deployOptions(orgName, proxyName, revision, env)]: POST
    [.../ORG/environments/ENV/apis/NAME/revisions/REV/deployments?override=true]. *)
Definition deployOptions (a : args) (orgName proxyName : string) (revision : jsval)
    (env : string) : options :=
  mk_options (baseURL +:+ orgName +:+ "/environments/" +:+ env +:+ "/apis/" +:+ proxyName
      +:+ "/revisions/" +:+ to_js_string revision +:+ "/deployments")
    POST (username a) (password a) [("override", "true")]
    [("Content-Type", "application/x-www-form-urlencoded")] None.

End Gateway.
