(* ===== verification/Runtime.v ===== *)
(** The runtime the handlers of src/edgeci.js run in, made explicit.

    Node runs the program on one thread.  [request(options, cb)] starts
    an HTTP request and returns at once.  The callback runs later, when
    the reply arrives, and in any order relative to the other pending
    callbacks.  The model keeps:
    - [data] and [args], the two global objects (lines 9-10);
    - [subdirs], the local disk as [getProxySourceDirs] reads it:
      [fs.readdirSync(dir).filter(isDirectory)] for each directory, or
      [None] when [readdirSync] fails;
    - [pending], the callbacks not yet run, as continuations ([cont])
      that name the callback and the values it closed over;
    - [timer], whether [setInterval(pull, ...)] has been registered;
    - [trace], the history of the process.  It records the requests
      issued (with their callback), the file-system operations, the error
      reports of [logError], the lines printed by [console.log],
      [defaultLog] and [verboseLog] ([ELog]; [console] reads them back,
      with the first line of each [logError] report),
      the timer registration, and each callback the event loop ran with
      its reply.

    A reply is the [(error, response, body)] triple of the request
    library ([response]) or the [err] of [zipfolder] ([ZipReply]).  The
    body is the JSON the server sent, already shaped as the program reads
    it: proxy metadata ([JProxy]), a list of names ([JNames]), or text
    that is not JSON ([BInvalid]).

    The file ends with [Preserves R m]: a computation [m] that succeeds
    moves the state along the preorder [R].  The preorders used are
    [grows] (the trace and the pending list only get longer, the disk is
    left alone), [appends Q] (every new trace event satisfies [Q]),
    [issues P] (a request event issues a callback in [P]) and
    [data_same] ([data] is unchanged), [pends P] (every callback added
    to the pending list satisfies [P]).  The primitives and the monad's
    bind preserve each of them, and the [preserves] hint database with
    the [solve_preserves] tactic proves the fact for a whole handler. *)

From S2P Require Import Prelude JsValue ChangeDetector Config Gateway.

Local Open Scope Z_scope.

Module Runtime.
Import ChangeDetector Config Gateway.

(** ** Replies *)

Inductive json :=
| JProxy (revision : list jsval) (lastModifiedAt : Z)
    (** [{revision: [...], metaData: {lastModifiedAt: n}, ...}] *)
| JNames (names : list string).
    (** [["name", ...]] *)

Inductive body :=
| BJson (j : json)
| BInvalid.

(** [error] set (the request did not complete), or a response with its
    status code and body. *)
Inductive response :=
| RError
| RStatus (statusCode : Z) (b : body).

Inductive reply :=
| HttpReply (r : response)
| ZipReply (err : bool).

(** [!error && response.statusCode == code]: the body when it holds. *)
Definition status_is (code : Z) (r : response) : option body :=
  match r with
  | RStatus c b => if decide (c = code) then Some b else None
  | RError => None
  end.

Lemma status_is_ok code b : status_is code (RStatus code b) = Some b.
Proof. simpl. by rewrite decide_True. Qed.

Lemma status_is_other code c b : c ≠ code → status_is code (RStatus c b) = None.
Proof. intros Hne. simpl. by rewrite decide_False. Qed.

Lemma status_is_error code : status_is code RError = None.
Proof. done. Qed.

#[export] Hint Rewrite status_is_ok status_is_error : edgeci_rw.

(** [JSON.parse(body)] *)
Definition JSON_parse (b : body) : exn + json :=
  match b with
  | BJson j => inr j
  | BInvalid => inl (SyntaxError "Unexpected token in JSON")
  end.

(** [content.revision], as the array [getMaxRevision] reduces.  For an
    array body it is [undefined], and [undefined.reduce] throws. *)
Definition content_revision (j : json) : exn + list jsval :=
  match j with
  | JProxy revs _ => inr revs
  | JNames _ => inl (TypeError "Cannot read properties of undefined (reading 'reduce')")
  end.

(** [content.metaData.lastModifiedAt] *)
Definition content_lastModifiedAt (j : json) : exn + Z :=
  match j with
  | JProxy _ lm => inr lm
  | JNames _ => inl (TypeError "Cannot read properties of undefined (reading 'lastModifiedAt')")
  end.

(** ** Callbacks and events *)

(** A pending callback and the values it closed over. *)
Inductive cont :=
| KGetToPull (orgName proxyName : string)          (** in [getProxyToPull] *)
| KGetToPush (orgName proxyName : string)          (** in [getProxyToPush] *)
| KList (orgName : string)                         (** in [getProxyList] *)
| KExport (orgName proxyName : string) (revision : jsval)   (** in [exportProxy] *)
| KImport (orgName proxyName : string) (revision : jsval)   (** in [importProxy] *)
| KUpdate (orgName proxyName : string) (revision : jsval)   (** in [updateProxy] *)
| KDeploy (orgName proxyName : string) (revision : jsval)   (** in [deployProxy] *)
| KZip (proxyName : string).                       (** in [zipProxy] *)

#[export] Instance cont_eq_dec : EqDecision cont.
Proof. solve_decision. Defined.

Inductive event :=
| ERequest (o : options) (k : cont)       (** [request(o, k)] *)
| ERimraf (path : string)                 (** [rimraf.sync(path)] *)
| EExtract (path : string)                (** [.pipe(unzip.Extract({path}))] *)
| EZip (src dst : string)                 (** [zipfolder(src, dst, cb)] *)
| ELogError (fnName : string)             (** [logError(fnName, ...)] *)
| ELog (msg : string)                     (** [console.log(msg)] *)
| ESetInterval (delay : jsval)            (** [setInterval(pull, delay)] *)
| EComplete (k : cont) (rp : reply).      (** the event loop ran [k] *)

(** ** The process state *)

Record state := mk_state {
  data : gmap string proxy_record;
  args : Config.args;
  subdirs : string → option (list string);
  pending : list cont;
  timer : bool;
  trace : list event;
}.

Definition with_data (d : gmap string proxy_record) (st : state) : state :=
  mk_state d (args st) (subdirs st) (pending st) (timer st) (trace st).
Definition with_args (a : Config.args) (st : state) : state :=
  mk_state (data st) a (subdirs st) (pending st) (timer st) (trace st).
Definition with_pending (ks : list cont) (st : state) : state :=
  mk_state (data st) (args st) (subdirs st) ks (timer st) (trace st).
Definition with_timer (b : bool) (st : state) : state :=
  mk_state (data st) (args st) (subdirs st) (pending st) b (trace st).
Definition with_trace (tr : list event) (st : state) : state :=
  mk_state (data st) (args st) (subdirs st) (pending st) (timer st) tr.

(** ** Primitives *)

Definition get_args : M state Config.args := λ st, inr (args st, st).
Definition set_args (a : Config.args) : M state unit := modify (with_args a).

(** [args.proxy = names]: assign one field of the global [args]. *)
Definition set_args_proxy (names : list string) : M state unit :=
  modify (λ st, with_args (set_proxy (args st) names) st).
Definition get_data : M state (gmap string proxy_record) := λ st, inr (data st, st).
Definition set_data (d : gmap string proxy_record) : M state unit := modify (with_data d).

(** Append an event to the trace. *)
Definition emit (e : event) : M state unit := λ st, inr (tt, with_trace (trace st ++ [e]) st).

(** Start an asynchronous operation: record it and leave its callback
    pending. *)
Definition spawn (e : event) (k : cont) : M state unit :=
  λ st, inr (tt, with_trace (trace st ++ [e]) (with_pending (pending st ++ [k]) st)).

(** [request(o, cb)] *)
Definition request (o : options) (k : cont) : M state unit := spawn (ERequest o k) k.

(** [rimraf.sync(path)] *)
Definition rimraf_sync (path : string) : M state unit := emit (ERimraf path).

(** [logError(fnName, error, response, body)] *)
Definition logError (fnName : string) : M state unit := emit (ELogError fnName).

(** [console.log(msg)] *)
Definition console_log (msg : string) : M state unit := emit (ELog msg).

(** [defaultLog(msg)]: print unless [args.quite]. *)
Definition defaultLog (msg : string) : M state unit :=
  a ← get_args;
  if quite a then mret () else console_log msg.

(** [verboseLog(msg)]: print when [args.verbose]. *)
Definition verboseLog (msg : string) : M state unit :=
  a ← get_args;
  if verbose a then console_log msg else mret ().

(** [String(proxies)] for a parsed body: an array joins its elements
    with commas, an object prints as "[object Object]". *)
Definition json_to_string (j : json) : string :=
  match j with
  | JNames names => String.concat "," names
  | JProxy _ _ => "[object Object]"
  end.

(** The console output of a trace, one entry per line: the lines of
    [console.log], [defaultLog] and [verboseLog], and for a report of
    [logError] its first line "Error while calling NAME".  The three
    lines [logError] prints after it (the status code, the error and
    the body) come with that first line and are not modelled: the model
    keeps a reply's body as parsed JSON, not as text. *)
Definition console_line (e : event) : option string :=
  match e with
  | ELog msg => Some msg
  | ELogError fnName => Some ("Error while calling " +:+ fnName)
  | _ => None
  end.

Definition console (tr : list event) : list string := omap console_line tr.

Lemma console_app tr1 tr2 : console (tr1 ++ tr2) = console tr1 ++ console tr2.
Proof. apply omap_app. Qed.

(** The events [defaultLog msg] and [verboseLog msg] append under the
    arguments [a]. *)
Definition default_log (a : Config.args) (msg : string) : list event :=
  if quite a then [] else [ELog msg].

Definition verbose_log (a : Config.args) (msg : string) : list event :=
  if verbose a then [ELog msg] else [].

(** The state after [defaultLog msg]. *)
Definition after_log (st : state) (msg : string) : state :=
  with_trace (trace st ++ default_log (args st) msg) st.

Lemma after_log_args st msg : args (after_log st msg) = args st.
Proof. done. Qed.

Lemma defaultLog_run msg st : defaultLog msg st = inr (tt, after_log st msg).
Proof.
  unfold defaultLog, after_log, default_log, get_args, console_log, emit. unfold_m. simpl.
  destruct (quite (args st)); [by rewrite app_nil_r; destruct st | done].
Qed.

Lemma verboseLog_run msg st :
  verboseLog msg st = inr (tt, with_trace (trace st ++ verbose_log (args st) msg) st).
Proof.
  unfold verboseLog, verbose_log, get_args, console_log, emit. unfold_m. simpl.
  destruct (verbose (args st)); [done | by rewrite app_nil_r; destruct st].
Qed.

(** The state after [request(o, k)]. *)
Definition after_request (st : state) (o : options) (k : cont) : state :=
  mk_state (data st) (args st) (subdirs st) (pending st ++ [k]) (timer st) (trace st ++ [ERequest o k]).

Lemma request_run o k st : request o k st = inr (tt, after_request st o k).
Proof. done. Qed.

(** The metadata reply of a proxy with revisions [revs], last modified
    at [lm]. *)
Definition metadata_reply (revs : list jsval) (lm : Z) : response :=
  RStatus 200 (BJson (JProxy revs lm)).

(** [setInterval] registers the timer. *)
Definition set_timer : M state unit := modify (with_timer true).

(** ** Relations every handler respects

    [Preserves R m]: whenever [m] returns normally, the final state is
    related to the initial one by [R].  For a preorder [R] this is closed
    under the monad's operations, so a handler is checked by unfolding
    it down to its primitives ([solve_preserves]). *)

Definition Preserves {A} (R : relation state) (m : M state A) : Prop :=
  ∀ st a st', m st = inr (a, st') → R st st'.

Create HintDb preserves.

Section preserves.
Context (R : relation state) `{!PreOrder R}.

Lemma preserves_ret {A} (a : A) : Preserves R (mret a).
Proof. intros st b st' [= _ <-]. reflexivity. Qed.

Lemma preserves_bind {A B} (m : M state A) (k : A → M state B) :
  Preserves R m → (∀ a, Preserves R (k a)) → Preserves R (m ≫= k).
Proof.
  intros Hm Hk st b st'. cbv [mbind M_bind].
  destruct (m st) as [e|[a st1]] eqn:E; [done|]. intros H.
  etrans; [by eapply Hm | by eapply Hk].
Qed.

Lemma preserves_throw {A} e : Preserves (A:=A) R (throw e).
Proof. done. Qed.

Lemma preserves_lift {A} (r : exn + A) : Preserves R (lift r).
Proof. destruct r; [apply preserves_throw | apply preserves_ret]. Qed.

Lemma preserves_get : Preserves R get.
Proof. intros st a st' [= _ <-]. reflexivity. Qed.

Lemma preserves_get_args : Preserves R get_args.
Proof. intros st a st' [= _ <-]. reflexivity. Qed.

Lemma preserves_get_data : Preserves R get_data.
Proof. intros st a st' [= _ <-]. reflexivity. Qed.

Lemma preserves_for_each {A} (f : A → M state unit) l :
  (∀ x, Preserves R (f x)) → Preserves R (for_each f l).
Proof. intros Hf. induction l; simpl; [apply preserves_ret | by apply preserves_bind]. Qed.

Lemma preserves_if {A} (b : bool) (m1 m2 : M state A) :
  Preserves R m1 → Preserves R m2 → Preserves R (if b then m1 else m2).
Proof. by destruct b. Qed.
End preserves.

#[export] Hint Resolve preserves_ret preserves_throw preserves_lift preserves_get
  preserves_get_args preserves_get_data : preserves.

(** *** Growth: only [trace] and [pending] change, by appending *)

Definition grows (st st' : state) : Prop :=
  (∃ dt, trace st' = trace st ++ dt) ∧
  (∃ dp, pending st' = pending st ++ dp) ∧
  subdirs st' = subdirs st.

#[export] Instance grows_preorder : PreOrder grows.
Proof.
  split.
  - intros st. split_and!; [exists [] | exists [] | done]; by rewrite app_nil_r.
  - intros s1 s2 s3 ([t1 Ht1] & [p1 Hp1] & Hs1) ([t2 Ht2] & [p2 Hp2] & Hs2).
    split_and!; [exists (t1 ++ t2) | exists (p1 ++ p2) | congruence];
      rewrite app_assoc; congruence.
Qed.

Lemma grows_frame st st' :
  trace st' = trace st → pending st' = pending st → subdirs st' = subdirs st → grows st st'.
Proof. unfold grows. intros -> -> ->. split_and!; [exists [] | exists [] | done]; by rewrite app_nil_r. Qed.

Lemma grows_set_args a : Preserves grows (set_args a).
Proof. intros st b st' [= _ <-]. by apply grows_frame. Qed.
Lemma grows_set_data d : Preserves grows (set_data d).
Proof. intros st b st' [= _ <-]. by apply grows_frame. Qed.
Lemma grows_set_timer : Preserves grows set_timer.
Proof. intros st b st' [= _ <-]. by apply grows_frame. Qed.
Lemma grows_emit e : Preserves grows (emit e).
Proof. intros st b st' [= _ <-]. split_and!; [by eexists | exists [] | done]. by rewrite app_nil_r. Qed.
Lemma grows_spawn e k : Preserves grows (spawn e k).
Proof. intros st b st' [= _ <-]. split_and!; [by eexists | by eexists | done]. Qed.

Lemma grows_set_args_proxy ps : Preserves grows (set_args_proxy ps).
Proof. intros st b st' [= _ <-]. by apply grows_frame. Qed.

#[export] Hint Resolve grows_set_args grows_set_args_proxy grows_set_data grows_set_timer grows_emit
  grows_spawn : preserves.

(** *** The events appended satisfy [Q] *)

Definition appends (Q : event → Prop) (st st' : state) : Prop :=
  ∃ dt, trace st' = trace st ++ dt ∧ Forall Q dt.

#[export] Instance appends_preorder Q : PreOrder (appends Q).
Proof.
  split.
  - intros st. exists []. by rewrite app_nil_r.
  - intros s1 s2 s3 [t1 [H1 F1]] [t2 [H2 F2]]. exists (t1 ++ t2).
    rewrite H2, H1, app_assoc. split; [done | by apply Forall_app].
Qed.

Lemma appends_frame Q st st' : trace st' = trace st → appends Q st st'.
Proof. unfold appends. intros ->. exists []. by rewrite app_nil_r. Qed.

Lemma appends_set_args Q a : Preserves (appends Q) (set_args a).
Proof. intros st b st' [= _ <-]. by apply appends_frame. Qed.
Lemma appends_set_data Q d : Preserves (appends Q) (set_data d).
Proof. intros st b st' [= _ <-]. by apply appends_frame. Qed.
Lemma appends_set_timer Q : Preserves (appends Q) set_timer.
Proof. intros st b st' [= _ <-]. by apply appends_frame. Qed.
Lemma appends_emit (Q : event → Prop) e : Q e → Preserves (appends Q) (emit e).
Proof. intros HQ st b st' [= _ <-]. exists [e]. split; [done | by constructor]. Qed.
Lemma appends_spawn (Q : event → Prop) e k : Q e → Preserves (appends Q) (spawn e k).
Proof. intros HQ st b st' [= _ <-]. exists [e]. split; [done | by constructor]. Qed.

Lemma appends_set_args_proxy Q ps : Preserves (appends Q) (set_args_proxy ps).
Proof. intros st b st' [= _ <-]. by apply appends_frame. Qed.

#[export] Hint Resolve appends_set_args appends_set_args_proxy appends_set_data appends_set_timer
  : preserves.

(** [issues P e]: when [e] is a request, its callback satisfies [P]. *)
Definition issues (P : cont → Prop) (e : event) : Prop :=
  ∀ o k, e = ERequest o k → P k.

(** *** [data] is left as it is *)

Definition data_same (st st' : state) : Prop := data st' = data st.

#[export] Instance data_same_preorder : PreOrder data_same.
Proof. split; [done | intros s1 s2 s3 H1 H2; unfold data_same in *; congruence]. Qed.

Lemma data_same_set_args a : Preserves data_same (set_args a).
Proof. by intros st b st' [= _ <-]. Qed.
Lemma data_same_set_timer : Preserves data_same set_timer.
Proof. by intros st b st' [= _ <-]. Qed.
Lemma data_same_emit e : Preserves data_same (emit e).
Proof. by intros st b st' [= _ <-]. Qed.
Lemma data_same_spawn e k : Preserves data_same (spawn e k).
Proof. by intros st b st' [= _ <-]. Qed.

Lemma data_same_set_args_proxy ps : Preserves data_same (set_args_proxy ps).
Proof. by intros st b st' [= _ <-]. Qed.

#[export] Hint Resolve data_same_set_args data_same_set_args_proxy data_same_set_timer data_same_emit
  data_same_spawn : preserves.

(** *** The callbacks added to the pending list satisfy [P] *)

Definition pends (P : cont → Prop) (st st' : state) : Prop :=
  ∃ dp, pending st' = pending st ++ dp ∧ Forall P dp.

#[export] Instance pends_preorder P : PreOrder (pends P).
Proof.
  split.
  - intros st. exists []. by rewrite app_nil_r.
  - intros s1 s2 s3 [p1 [H1 F1]] [p2 [H2 F2]]. exists (p1 ++ p2).
    rewrite H2, H1, app_assoc. split; [done | by apply Forall_app].
Qed.

Lemma pends_frame P st st' : pending st' = pending st → pends P st st'.
Proof. unfold pends. intros ->. exists []. by rewrite app_nil_r. Qed.

Lemma pends_set_args P a : Preserves (pends P) (set_args a).
Proof. intros st b st' [= _ <-]. by apply pends_frame. Qed.
Lemma pends_set_data P d : Preserves (pends P) (set_data d).
Proof. intros st b st' [= _ <-]. by apply pends_frame. Qed.
Lemma pends_set_timer P : Preserves (pends P) set_timer.
Proof. intros st b st' [= _ <-]. by apply pends_frame. Qed.
Lemma pends_emit P e : Preserves (pends P) (emit e).
Proof. intros st b st' [= _ <-]. by apply pends_frame. Qed.
Lemma pends_spawn (P : cont → Prop) e k : P k → Preserves (pends P) (spawn e k).
Proof. intros HP st b st' [= _ <-]. exists [k]. split; [done | by constructor]. Qed.

Lemma pends_set_args_proxy P ps : Preserves (pends P) (set_args_proxy ps).
Proof. intros st b st' [= _ <-]. by apply pends_frame. Qed.

#[export] Hint Resolve pends_set_args pends_set_args_proxy pends_set_data pends_set_timer pends_emit
  : preserves.

Ltac head_of t :=
  lazymatch t with
  | ?f _ => head_of f
  | _ => t
  end.

(** Prove [Preserves R h] by unfolding [h] into primitives.  The
    conditions [Q e] of [appends Q] and [P k] of [pends P] are left as
    goals. *)
Ltac solve_preserves :=
  repeat first
    [ progress (intros; cbv beta)
    | apply preserves_bind
    | apply preserves_for_each
    | apply preserves_if
    | solve [eauto with preserves typeclass_instances]
    | apply appends_emit
    | apply appends_spawn
    | apply pends_spawn
    | match goal with
      | |- Preserves _ (match ?x with _ => _ end) => destruct x
      | |- Preserves _ ?m => let h := head_of m in unfold h
      end ].

End Runtime.
