(* ===== verification/Pull.v ===== *)
(** The pull sequence of src/edgeci.js: [pull] (lines 113-119),
    [pullProxies] (140-145), [getProxyToPull] (167-186), [getProxyList]
    (208-220) and [exportProxy] (222-232).  Each function that calls
    [request] is split in two: the part that runs at once issues the
    request, and [_cb] is its callback, run by the event loop
    ([EventLoop.v]) when the reply arrives.

    The theorems give the callback of [getProxyToPull] on every branch:
    - an export is triggered, and [data] is updated before the export is
      even requested;
    - nothing happens when the metadata is not newer;
    - only an error report follows a failed metadata request;
    - an exception is thrown on an empty revision list or on a body of
      the wrong shape.
    They also give [pull] on a concrete worklist and on "all". *)

From S2P Require Import Prelude JsValue Revision ChangeDetector Config Gateway Runtime.

Local Open Scope Z_scope.

Module Pull.
Import Revision ChangeDetector Config Gateway Runtime.

(** [exportProxy(orgName, proxyName, revision)]: delete the destination
    directory, request the bundle, and pipe the reply into
    [unzip.Extract] at the destination. *)
Definition exportProxy (orgName proxyName : string) (revision : jsval) : M state unit :=
  a ← get_args;
  rimraf_sync (getProxyDestinationPath a proxyName);;
  request (exportOptions a orgName proxyName revision) (KExport orgName proxyName revision);;
  emit (EExtract (getProxyDestinationPath a proxyName)).

(** The callback of [exportProxy]: it only logs. *)
Definition exportProxy_cb (orgName proxyName : string) (revision : jsval) (r : response) :
    M state unit :=
  match status_is 200 r with
  | Some _ => defaultLog ("Done exporting proxy " +:+ proxyName +:+ " revision " +:+ to_js_string revision)
  | None => logError "exportProxy: "
  end.

(** [getProxyToPull(orgName, proxyName)]: request the proxy metadata. *)
Definition getProxyToPull (orgName proxyName : string) : M state unit :=
  a ← get_args;
  request (apiOptions a orgName proxyName) (KGetToPull orgName proxyName).

(** The callback of [getProxyToPull]. *)
Definition getProxyToPull_cb (orgName proxyName : string) (r : response) : M state unit :=
  match status_is 200 r with
  | Some b =>
      content ← lift (JSON_parse b);
      revs ← lift (content_revision content);
      lastRevision ← lift (getMaxRevision revs);
      lastModified ← lift (content_lastModifiedAt content);
      d ← get_data;
      if shouldExport d proxyName lastModified then
        set_data (record d proxyName lastRevision lastModified);;
        defaultLog ("Exporting proxy " +:+ proxyName +:+ " revision " +:+ to_js_string lastRevision);;
        exportProxy orgName proxyName lastRevision
      else mret ()
  | None => logError "getAPI: "
  end.

(** [pullProxies()]: for each name of [args.proxy], [verboseLog] it and
    request its metadata. *)
Definition pullProxies : M state unit :=
  a ← get_args;
  for_each (λ aProxy, verboseLog ("Checking proxy: " +:+ aProxy);; getProxyToPull (org a) aProxy)
    (proxy a).

(** [getProxyList(orgName, callback)]: request the list of proxies.  The
    only callback the program passes is [pullProxies]. *)
Definition getProxyList (orgName : string) : M state unit :=
  defaultLog "Getting list of proxies";;
  a ← get_args;
  request (listOptions a orgName) (KList orgName).

(** The callback of [getProxyList]: [args.proxy = proxies; callback()].
    When the body is not an array, [args.proxy.forEach] throws in
    [pullProxies]. *)
Definition getProxyList_cb (orgName : string) (r : response) : M state unit :=
  match status_is 200 r with
  | Some b =>
      proxies ← lift (JSON_parse b);
      defaultLog ("Proxies: " +:+ json_to_string proxies);;
      match proxies with
      | JNames names =>
          set_args_proxy names;;
          pullProxies
      | JProxy _ _ => throw (TypeError "args.proxy.forEach is not a function")
      end
  | None => logError "listProxies: "
  end.

(** [pull()] *)
Definition pull : M state unit :=
  a ← get_args;
  if is_all a then getProxyList (org a) else pullProxies.

(** ** Every pull handler only appends *)

Lemma exportProxy_grows o p rev : Preserves grows (exportProxy o p rev).
Proof. solve_preserves. Qed.
Lemma exportProxy_cb_grows o p rev r : Preserves grows (exportProxy_cb o p rev r).
Proof. solve_preserves. Qed.
Lemma getProxyToPull_grows o p : Preserves grows (getProxyToPull o p).
Proof. solve_preserves. Qed.
Lemma getProxyToPull_cb_grows o p r : Preserves grows (getProxyToPull_cb o p r).
Proof. solve_preserves. Qed.
Lemma pullProxies_grows : Preserves grows pullProxies.
Proof. solve_preserves. Qed.
Lemma getProxyList_grows o : Preserves grows (getProxyList o).
Proof. solve_preserves. Qed.
Lemma getProxyList_cb_grows o r : Preserves grows (getProxyList_cb o r).
Proof. solve_preserves. Qed.
Lemma pull_grows : Preserves grows pull.
Proof. solve_preserves. Qed.

#[export] Hint Resolve exportProxy_grows exportProxy_cb_grows getProxyToPull_grows
  getProxyToPull_cb_grows pullProxies_grows getProxyList_grows getProxyList_cb_grows
  pull_grows : preserves.

(** ** The callback of [getProxyToPull], branch by branch *)

(** The effects of [exportProxy] on a state. *)
Definition export_effects (a : Config.args) (o p : string) (rev : jsval) : list event :=
  [ERimraf (getProxyDestinationPath a p);
   ERequest (exportOptions a o p rev) (KExport o p rev);
   EExtract (getProxyDestinationPath a p)].

(** The message of [defaultLog] before an export. *)
Definition export_message (p : string) (rev : jsval) : string :=
  "Exporting proxy " +:+ p +:+ " revision " +:+ to_js_string rev.

Lemma exportProxy_run o p rev st :
  exportProxy o p rev st =
    inr (tt, mk_state (data st) (args st) (subdirs st) (pending st ++ [KExport o p rev])
               (timer st) (trace st ++ export_effects (args st) o p rev)).
Proof.
  destruct st. unfold exportProxy, rimraf_sync, request, spawn, emit, get_args. unfold_m.
  cbv [with_trace with_pending]. simpl. by rewrite <- !app_assoc.
Qed.

(** The state after the callback exports revision [lr] of [p] stamped
    [lm]. *)
Definition export_state (st : state) (o p : string) (lr : jsval) (lm : Z) : state :=
  mk_state (record (data st) p lr lm) (args st) (subdirs st) (pending st ++ [KExport o p lr])
    (timer st) (trace st ++ default_log (args st) (export_message p lr) ++ export_effects (args st) o p lr).

(** The callback on a successful metadata reply: [getMaxRevision] may
    throw; otherwise the guard decides between an export and nothing. *)
Lemma getProxyToPull_cb_metadata st o p revs lm :
  getProxyToPull_cb o p (metadata_reply revs lm) st =
    match getMaxRevision revs with
    | inl e => inl e
    | inr lr => if shouldExport (data st) p lm then inr (tt, export_state st o p lr lm) else inr (tt, st)
    end.
Proof.
  unfold getProxyToPull_cb, metadata_reply. rewrite status_is_ok. unfold_m.
  cbn -[getMaxRevision shouldExport record exportProxy defaultLog].
  destruct (getMaxRevision revs) as [e|lr]; [done|].
  cbn -[shouldExport record exportProxy defaultLog]. destruct (shouldExport (data st) p lm); [|done].
  rewrite defaultLog_run. cbn -[record exportProxy]. rewrite exportProxy_run.
  unfold export_state. simpl. by rewrite app_assoc.
Qed.

(** C3: Newer metadata: [data] records the revision and the stamp, the
    export is announced on the console unless [--quite], then the
    destination directory is deleted, the bundle is requested and its
    reply is piped into the destination.  The record is written before
    the export is requested, so it does not wait for the export to
    succeed. *)
Theorem getProxyToPull_cb_export st o p revs lm lastRevision :
  getMaxRevision revs = inr lastRevision →
  shouldExport (data st) p lm = true →
  getProxyToPull_cb o p (metadata_reply revs lm) st =
    inr (tt, mk_state (record (data st) p lastRevision lm) (args st) (subdirs st)
               (pending st ++ [KExport o p lastRevision]) (timer st)
               (trace st ++ default_log (args st) (export_message p lastRevision) ++
                export_effects (args st) o p lastRevision)).
Proof. intros Hmax Hs. by rewrite getProxyToPull_cb_metadata, Hmax, Hs. Qed.

(** C4: Metadata that is not newer than the record (a tie included) changes
    nothing. *)
Theorem getProxyToPull_cb_skip st o p revs lm lastRevision :
  getMaxRevision revs = inr lastRevision →
  shouldExport (data st) p lm = false →
  getProxyToPull_cb o p (metadata_reply revs lm) st = inr (tt, st).
Proof. intros Hmax Hs. by rewrite getProxyToPull_cb_metadata, Hmax, Hs. Qed.

(** C26: A failed metadata request (no response, or a status other than
    200) is reported and changes nothing else: [data] is untouched. *)
Theorem getProxyToPull_cb_failure st o p r :
  status_is 200 r = None →
  getProxyToPull_cb o p r st = inr (tt, with_trace (trace st ++ [ELogError "getAPI: "]) st).
Proof. intros Hr. unfold getProxyToPull_cb. by rewrite Hr. Qed.

(** A proxy without revisions makes [getMaxRevision] throw a
    [TypeError] out of the callback. *)
Theorem getProxyToPull_cb_no_revisions st o p lm :
  getProxyToPull_cb o p (metadata_reply [] lm) st =
    inl (TypeError "Reduce of empty array with no initial value").
Proof. done. Qed.

(** ** [pull] on a worklist *)

(** The metadata request of [p] for organisation [o]. *)
Definition metadata_request (a : Config.args) (o p : string) : event :=
  ERequest (apiOptions a o p) (KGetToPull o p).

(** What the loop of [pullProxies] appends for one name [p]: the
    [verboseLog] line, then the metadata request. *)
Definition check_request (a : Config.args) (o p : string) : list event :=
  verbose_log a ("Checking proxy: " +:+ p) ++ [metadata_request a o p].

(** [args.proxy.forEach(...)]: for each name, in the worklist's order,
    its [verboseLog] line and its metadata request. *)
Lemma for_each_getProxyToPull_run o ps st :
  for_each (λ q, verboseLog ("Checking proxy: " +:+ q);; getProxyToPull o q) ps st =
    inr (tt, mk_state (data st) (args st) (subdirs st) (pending st ++ (KGetToPull o <$> ps))
               (timer st) (trace st ++ (ps ≫= check_request (args st) o))).
Proof.
  revert st. induction ps as [|q ps IH]; intros st; simpl.
  - destruct st. by rewrite !app_nil_r.
  - unfold_m. rewrite verboseLog_run. unfold getProxyToPull, get_args. unfold_m.
    rewrite request_run, IH. unfold check_request. simpl. by rewrite <- !app_assoc.
Qed.

Lemma pullProxies_run st :
  pullProxies st =
    inr (tt, mk_state (data st) (args st) (subdirs st)
               (pending st ++ (KGetToPull (org (args st)) <$> proxy (args st))) (timer st)
               (trace st ++ (proxy (args st) ≫= check_request (args st) (org (args st))))).
Proof. apply for_each_getProxyToPull_run. Qed.

(** C18: [--verbose] prints the worklist: [pullProxies] prints "Checking
    proxy: NAME" for each name of [args.proxy], in order, when
    [args.verbose] is set, and prints nothing otherwise. *)
Theorem pullProxies_console st :
  ∃ st', pullProxies st = inr (tt, st') ∧
    console (trace st') =
      console (trace st) ++
      (if verbose (args st) then (λ p, "Checking proxy: " +:+ p) <$> proxy (args st) else []).
Proof.
  rewrite pullProxies_run. eexists. split; [done|]. cbn [trace]. rewrite console_app. f_equal.
  induction (proxy (args st)) as [|q ps IH]; [by destruct (verbose (args st))|].
  cbn [mbind list_bind]. rewrite console_app, IH. unfold check_request, verbose_log.
  destruct (verbose (args st)); reflexivity.
Qed.

Lemma pull_not_all st : is_all (args st) = false → pull st = pullProxies st.
Proof. intros H. unfold pull, get_args. unfold_m. by rewrite H. Qed.

(** C27: After a successful listing, [args.proxy] holds the names instead of
    the sentinel "all".  Every later [pull] with these arguments, such as
    the next poll tick, requests the metadata of exactly these names and
    never lists the organisation again, so a proxy created remotely
    later is never pulled. *)
Theorem listing_replaces_all st o names st' :
  head names ≠ Some "all" →
  getProxyList_cb o (RStatus 200 (BJson (JNames names))) st = inr (tt, st') →
  proxy (args st') = names ∧
  ∀ st2, args st2 = args st' →
    pull st2 = inr (tt, mk_state (data st2) (args st2) (subdirs st2)
                          (pending st2 ++ (KGetToPull (org (args st2)) <$> names)) (timer st2)
                          (trace st2 ++ (names ≫= check_request (args st2) (org (args st2))))).
Proof.
  intros Hn Hl. unfold getProxyList_cb in Hl. rewrite status_is_ok in Hl.
  unfold get_args, set_args in Hl. unfold_m. cbn -[pullProxies defaultLog] in Hl.
  rewrite defaultLog_run in Hl. cbn -[pullProxies] in Hl. rewrite pullProxies_run in Hl. injection Hl as <-. simpl. split; [done|].
  intros st2 Ha. rewrite pull_not_all, pullProxies_run, Ha by (rewrite Ha; by apply bool_decide_eq_false).
  done.
Qed.

(** The four outcomes of the callback, for any reply. *)
Lemma getProxyToPull_cb_cases o p r st :
  (∃ e, getProxyToPull_cb o p r st = inl e) ∨
  getProxyToPull_cb o p r st = inr (tt, st) ∨
  getProxyToPull_cb o p r st = inr (tt, with_trace (trace st ++ [ELogError "getAPI: "]) st) ∨
  (∃ revs lm lr, r = metadata_reply revs lm ∧ getMaxRevision revs = inr lr ∧
     shouldExport (data st) p lm = true ∧
     getProxyToPull_cb o p r st = inr (tt, export_state st o p lr lm)).
Proof.
  destruct (status_is 200 r) as [b|] eqn:Hr;
    [|right; right; left; unfold getProxyToPull_cb; by rewrite Hr].
  destruct r as [|c b']; [done|]. simpl in Hr. case_decide; [subst c|done]. injection Hr as ->.
  destruct b as [[revs lm|names]|]; [|left; by eexists..].
  change (RStatus 200 (BJson (JProxy revs lm))) with (metadata_reply revs lm).
  rewrite getProxyToPull_cb_metadata. destruct (getMaxRevision revs) as [e|lr] eqn:Hm; [left; by eexists|].
  destruct (shouldExport (data st) p lm) eqn:Hs; [|by right; left].
  right; right; right. by exists revs, lm, lr.
Qed.

(** ** Witnesses *)

(** A process that has pulled nothing yet, with the arguments
    [pullWithArgs] builds for proxy "hello" into directory "out". *)
Definition fresh_pull_state : state :=
  mk_state ∅ (pullWithArgs_args (Some "u") (Some "pw") "acme" ["hello"] (Some "out") false (Some 30))
    (λ _, None) [] false [].

Lemma getProxyToPull_cb_export_witness :
  getMaxRevision [JNum 1; JNum 3; JNum 2] = inr (JNum 3) ∧
  shouldExport (data fresh_pull_state) "hello" 1700 = true ∧
  getProxyToPull_cb "acme" "hello" (metadata_reply [JNum 1; JNum 3; JNum 2] 1700) fresh_pull_state =
    inr (tt, mk_state (record ∅ "hello" (JNum 3) 1700) (args fresh_pull_state) (λ _, None)
               [KExport "acme" "hello" (JNum 3)] false
               (ELog "Exporting proxy hello revision 3" ::
                export_effects (args fresh_pull_state) "acme" "hello" (JNum 3))).
Proof.
  assert (H1 : getMaxRevision [JNum 1; JNum 3; JNum 2] = inr (JNum 3)) by reflexivity.
  assert (H2 : shouldExport (data fresh_pull_state) "hello" 1700 = true) by (vm_compute; reflexivity).
  split; [exact H1|]. split; [exact H2|].
  exact (getProxyToPull_cb_export fresh_pull_state "acme" "hello" _ 1700 _ H1 H2).
Defined.

(** After the export of stamp 1700, the same metadata again does nothing. *)
Lemma getProxyToPull_cb_skip_witness :
  let st := with_data (record ∅ "hello" (JNum 3) 1700) fresh_pull_state in
  getMaxRevision [JNum 3] = inr (JNum 3) ∧ shouldExport (data st) "hello" 1700 = false ∧
  getProxyToPull_cb "acme" "hello" (metadata_reply [JNum 3] 1700) st = inr (tt, st).
Proof.
  intros st. assert (H1 : getMaxRevision [JNum 3] = inr (JNum 3)) by reflexivity.
  assert (H2 : shouldExport (data st) "hello" 1700 = false) by (vm_compute; reflexivity).
  split; [exact H1|]. split; [exact H2|]. exact (getProxyToPull_cb_skip st "acme" "hello" _ _ _ H1 H2).
Defined.

Lemma getProxyToPull_cb_failure_witness :
  status_is 200 (RStatus 401 BInvalid) = None ∧
  getProxyToPull_cb "acme" "hello" (RStatus 401 BInvalid) fresh_pull_state =
    inr (tt, with_trace [ELogError "getAPI: "] fresh_pull_state).
Proof.
  assert (H : status_is 200 (RStatus 401 BInvalid) = None) by reflexivity.
  split; [exact H|]. exact (getProxyToPull_cb_failure fresh_pull_state "acme" "hello" _ H).
Defined.

(** A listing of "hello" and "world" replaces "all"; a later pull with
    the same arguments requests both names and does not list. *)
Lemma listing_replaces_all_witness :
  let st := with_args (set_proxy (args fresh_pull_state) ["all"]) fresh_pull_state in
  head ["hello"; "world"] ≠ Some "all" ∧
  getProxyList_cb "acme" (RStatus 200 (BJson (JNames ["hello"; "world"]))) st =
    inr (tt, final_state (getProxyList_cb "acme" (RStatus 200 (BJson (JNames ["hello"; "world"]))) st) st) ∧
  proxy (args (final_state (getProxyList_cb "acme" (RStatus 200 (BJson (JNames ["hello"; "world"]))) st) st)) =
    ["hello"; "world"].
Proof.
  intros st. assert (H1 : head ["hello"; "world"] ≠ Some "all") by discriminate.
  assert (H2 : getProxyList_cb "acme" (RStatus 200 (BJson (JNames ["hello"; "world"]))) st =
    inr (tt, final_state (getProxyList_cb "acme" (RStatus 200 (BJson (JNames ["hello"; "world"]))) st) st))
    by (vm_compute; reflexivity).
  split; [exact H1|]. split; [exact H2|]. exact (proj1 (listing_replaces_all _ _ _ _ H1 H2)).
Defined.

End Pull.
