(* ===== verification/Push.v ===== *)
(** The push sequence of src/edgeci.js: [push] (lines 133-138),
    [pushProxies] (147-153), [getProxySourceDirs] (161-165),
    [getProxyToPush] (188-206), [zipProxy] (234-243), [importProxy]
    (245-254), [updateProxy] (256-264) and [deployProxy] (266-276).  As
    in [Pull.v], a function that starts an asynchronous operation is
    split into the part that runs at once and its callback [_cb].

    The theorems give the metadata callback of [getProxyToPush] on its
    three branches:
    - with [--update], update the greatest revision;
    - without it, import at the greatest revision plus one;
    - on any failure of the metadata request, import as revision 1.
    They also give [push] with "all", whose worklist is the list of
    subdirectories of the source, and show that a deploy follows a
    successful import only and that [updateProxy] never deploys. *)

From S2P Require Import Prelude JsValue Revision ChangeDetector Config Gateway Runtime.

Local Open Scope Z_scope.

Module Push.
Import Revision ChangeDetector Config Gateway Runtime.

(** [zipProxy(proxyName)]: delete the old archive and start zipping the
    source directory into it. *)
Definition zipProxy (proxyName : string) : M state unit :=
  a ← get_args;
  rimraf_sync (getProxyZipPath a proxyName);;
  spawn (EZip (getProxySourcePath a proxyName) (getProxyZipPath a proxyName)) (KZip proxyName).

(** The callback of [zipProxy]: it only logs, with [console.log], so
    even under [--quite]. *)
Definition zipProxy_cb (proxyName : string) (err : bool) : M state unit :=
  if err then console_log ("Error zipping " +:+ proxyName)
  else console_log ("Done zipping proxy " +:+ proxyName).

(** [deployProxy(orgName, proxyName, revision)]: nothing when [args.env]
    is empty, else a deploy request. *)
Definition deployProxy (orgName proxyName : string) (revision : jsval) : M state unit :=
  a ← get_args;
  if isEmpty (env a) then mret ()
  else
    defaultLog ("Deploying proxy " +:+ proxyName +:+ " revision " +:+ to_js_string revision +:+
                " to env " +:+ str_of (env a));;
    request (deployOptions a orgName proxyName revision (str_of (env a)))
         (KDeploy orgName proxyName revision).

(** The callback of [deployProxy]: its message reads [args.env] when
    the reply arrives, not when the deploy was requested. *)
Definition deployProxy_cb (orgName proxyName : string) (revision : jsval) (r : response) :
    M state unit :=
  match status_is 200 r with
  | Some _ =>
      a ← get_args;
      defaultLog ("Done deploying proxy " +:+ proxyName +:+ " revision " +:+ to_js_string revision +:+
                  " to env " +:+ str_of (env a))
  | None => logError "deployProxy: "
  end.

(** [importProxy(orgName, proxyName, revision)] *)
Definition importProxy (orgName proxyName : string) (revision : jsval) : M state unit :=
  a ← get_args;
  request (importOptions a orgName proxyName) (KImport orgName proxyName revision).

(** The callback of [importProxy]: a deploy on status 201. *)
Definition importProxy_cb (orgName proxyName : string) (revision : jsval) (r : response) :
    M state unit :=
  match status_is 201 r with
  | Some _ => defaultLog ("Done importing proxy " +:+ proxyName);; deployProxy orgName proxyName revision
  | None => logError "importProxy: "
  end.

(** [updateProxy(orgName, proxyName, revision)] *)
Definition updateProxy (orgName proxyName : string) (revision : jsval) : M state unit :=
  a ← get_args;
  request (updateOptions a orgName proxyName revision) (KUpdate orgName proxyName revision).

(** The callback of [updateProxy]: it only logs. *)
Definition updateProxy_cb (orgName proxyName : string) (revision : jsval) (r : response) :
    M state unit :=
  match status_is 200 r with
  | Some _ => defaultLog ("Done updating proxy " +:+ proxyName +:+ " revision " +:+ to_js_string revision)
  | None => logError "updateProxy: "
  end.

(** [getProxyToPush(orgName, proxyName)]: request the proxy metadata. *)
Definition getProxyToPush (orgName proxyName : string) : M state unit :=
  a ← get_args;
  request (apiOptions a orgName proxyName) (KGetToPush orgName proxyName).

(** The callback of [getProxyToPush]. *)
Definition getProxyToPush_cb (orgName proxyName : string) (r : response) : M state unit :=
  match status_is 200 r with
  | Some b =>
      content ← lift (JSON_parse b);
      revs ← lift (content_revision content);
      lastRevision ← lift (getMaxRevision revs);
      a ← get_args;
      if update a then
        defaultLog ("Updating proxy " +:+ proxyName +:+ " revision " +:+ to_js_string lastRevision);;
        updateProxy orgName proxyName lastRevision
      else
        defaultLog ("Importing proxy " +:+ proxyName +:+ " new revision " +:+
                    to_js_string (newRevision lastRevision));;
        importProxy orgName proxyName (newRevision lastRevision)
  | None =>
      defaultLog ("Importing new proxy " +:+ proxyName);;
      importProxy orgName proxyName (JNum 1)
  end.

(** [getProxySourceDirs()]: the subdirectories of [args.source].
    [readdirSync] throws a [TypeError] when [args.source] is undefined,
    and a system error when the directory cannot be read. *)
Definition getProxySourceDirs : M state (list string) :=
  st ← get;
  match source (args st) with
  | None => throw (TypeError "The path argument must be of type string")
  | Some dir =>
      match subdirs st dir with
      | Some dirs => mret dirs
      | None => throw (SystemError "ENOENT: no such file or directory, scandir")
      end
  end.

(** [pushProxies()]: for each proxy, start zipping it and, without
    waiting, request its metadata. *)
Definition pushProxies : M state unit :=
  a ← get_args;
  for_each (λ aProxy, verboseLog ("Checking proxy: " +:+ aProxy);; zipProxy aProxy;;
                      getProxyToPush (org a) aProxy) (proxy a).

(** [push()] *)
Definition push : M state unit :=
  a ← get_args;
  (if is_all a then
     dirs ← getProxySourceDirs;
     set_args_proxy dirs
   else mret ());;
  pushProxies.

(** ** Every push handler only appends *)

Lemma getProxySourceDirs_grows : Preserves grows getProxySourceDirs.
Proof.
  intros st a st'. unfold getProxySourceDirs. unfold_m.
  destruct (source (args st)) as [dir|]; [|done].
  destruct (subdirs st dir); [intros [= _ <-]; reflexivity | done].
Qed.
#[export] Hint Resolve getProxySourceDirs_grows : preserves.

Lemma zipProxy_grows p : Preserves grows (zipProxy p).
Proof. solve_preserves. Qed.
Lemma zipProxy_cb_grows p e : Preserves grows (zipProxy_cb p e).
Proof. solve_preserves. Qed.
Lemma deployProxy_grows o p rev : Preserves grows (deployProxy o p rev).
Proof. solve_preserves. Qed.
Lemma deployProxy_cb_grows o p rev r : Preserves grows (deployProxy_cb o p rev r).
Proof. solve_preserves. Qed.
Lemma importProxy_grows o p rev : Preserves grows (importProxy o p rev).
Proof. solve_preserves. Qed.
Lemma importProxy_cb_grows o p rev r : Preserves grows (importProxy_cb o p rev r).
Proof. solve_preserves. Qed.
Lemma updateProxy_grows o p rev : Preserves grows (updateProxy o p rev).
Proof. solve_preserves. Qed.
Lemma updateProxy_cb_grows o p rev r : Preserves grows (updateProxy_cb o p rev r).
Proof. solve_preserves. Qed.
Lemma getProxyToPush_grows o p : Preserves grows (getProxyToPush o p).
Proof. solve_preserves. Qed.
Lemma getProxyToPush_cb_grows o p r : Preserves grows (getProxyToPush_cb o p r).
Proof. solve_preserves. Qed.
Lemma pushProxies_grows : Preserves grows pushProxies.
Proof. solve_preserves. Qed.
Lemma push_grows : Preserves grows push.
Proof. solve_preserves. Qed.

#[export] Hint Resolve zipProxy_grows zipProxy_cb_grows deployProxy_grows deployProxy_cb_grows
  importProxy_grows importProxy_cb_grows updateProxy_grows updateProxy_cb_grows
  getProxyToPush_grows getProxyToPush_cb_grows pushProxies_grows push_grows : preserves.

(** ** [push] on a worklist *)

(** What the loop of [pushProxies] appends for one name [q]: the
    [verboseLog] line, the deletion of the old archive, the zip, and the
    metadata request. *)
Definition push_request (a : Config.args) (o q : string) : list event :=
  verbose_log a ("Checking proxy: " +:+ q) ++
  [ERimraf (getProxyZipPath a q); EZip (getProxySourcePath a q) (getProxyZipPath a q);
   ERequest (apiOptions a o q) (KGetToPush o q)].

Lemma for_each_push_run o ps st :
  for_each (λ q, verboseLog ("Checking proxy: " +:+ q);; zipProxy q;; getProxyToPush o q) ps st =
    inr (tt, mk_state (data st) (args st) (subdirs st)
               (pending st ++ (ps ≫= λ q, [KZip q; KGetToPush o q])) (timer st)
               (trace st ++ (ps ≫= push_request (args st) o))).
Proof.
  revert st. induction ps as [|q ps IH]; intros st; simpl.
  - destruct st. by rewrite !app_nil_r.
  - unfold_m. rewrite verboseLog_run. unfold zipProxy, getProxyToPush, rimraf_sync, emit, spawn, get_args.
    unfold_m. cbn. rewrite IH. unfold push_request. simpl. by rewrite <- !app_assoc.
Qed.

(** ** The metadata callback of [getProxyToPush] *)

(** C6: With [--update], the greatest revision is updated in place. *)
Theorem getProxyToPush_cb_update st o p revs lm lastRevision :
  getMaxRevision revs = inr lastRevision → update (args st) = true →
  getProxyToPush_cb o p (metadata_reply revs lm) st =
    inr (tt, after_request (after_log st ("Updating proxy " +:+ p +:+ " revision " +:+
                                          to_js_string lastRevision))
               (updateOptions (args st) o p lastRevision) (KUpdate o p lastRevision)).
Proof.
  intros Hmax Hu. unfold getProxyToPush_cb, metadata_reply. rewrite status_is_ok. unfold_m.
  cbn -[getMaxRevision updateProxy defaultLog]. rewrite Hmax. cbn -[updateProxy defaultLog].
  by rewrite Hu, defaultLog_run.
Qed.

(** C7: Without [--update], on numeric revisions whose greatest is [m],
    the callback logs and issues one import, and the revision the
    import's deploy will name is [m + 1] (e.g. 8 when the greatest is
    7).  Revisions sent as strings are not covered: there [+ 1]
    concatenates ([getMaxRevision_singleton_string]). *)
Theorem getProxyToPush_cb_import st o p (zs : list Z) m lm :
  is_max_revision m zs → update (args st) = false →
  getProxyToPush_cb o p (metadata_reply (JNum <$> zs) lm) st =
    inr (tt, after_request (after_log st ("Importing proxy " +:+ p +:+ " new revision " +:+ pretty (m + 1)))
               (importOptions (args st) o p) (KImport o p (JNum (m + 1)))).
Proof.
  intros Hmax Hu. unfold getProxyToPush_cb, metadata_reply. rewrite status_is_ok. unfold_m.
  cbn -[getMaxRevision importProxy newRevision defaultLog]. rewrite (getMaxRevision_of_max _ _ Hmax).
  cbn -[importProxy defaultLog]. by rewrite Hu, defaultLog_run.
Qed.

(** C23: Any failure of the metadata request (no response, 401, 404, 500,
    ...) is taken to mean that the proxy does not exist: the archive is
    imported as revision 1. *)
Theorem getProxyToPush_cb_failure st o p r :
  status_is 200 r = None →
  getProxyToPush_cb o p r st =
    inr (tt, after_request (after_log st ("Importing new proxy " +:+ p))
               (importOptions (args st) o p) (KImport o p (JNum 1))).
Proof. intros Hr. unfold getProxyToPush_cb. rewrite Hr. unfold_m. by rewrite defaultLog_run. Qed.

(** C30: [push] with the sentinel "all" pushes the subdirectories of
    [args.source]: they replace [args.proxy], and each is zipped and
    its metadata requested, in the order [readdirSync] lists them.
    When the source directory cannot be read, [push] throws before
    anything is sent. *)
Theorem push_all_sources st dir :
  is_all (args st) = true → source (args st) = Some dir →
  (∀ dirs, subdirs st dir = Some dirs →
     push st = inr (tt, mk_state (data st) (set_proxy (args st) dirs) (subdirs st)
                          (pending st ++ (dirs ≫= λ q, [KZip q; KGetToPush (org (args st)) q]))
                          (timer st)
                          (trace st ++ (dirs ≫= push_request (set_proxy (args st) dirs) (org (args st)))))) ∧
  (subdirs st dir = None → push st = inl (SystemError "ENOENT: no such file or directory, scandir")).
Proof.
  intros Ha Hs. split.
  - intros dirs Hd. unfold push, get_args, getProxySourceDirs. unfold_m. rewrite Ha. cbn -[pushProxies].
    rewrite Hs, Hd. unfold set_args_proxy, pushProxies, get_args. unfold_m. cbn -[for_each].
    exact (for_each_push_run (org (args st)) dirs (with_args (set_proxy (args st) dirs) st)).
  - intros Hd. unfold push, get_args, getProxySourceDirs. unfold_m. rewrite Ha. cbn -[pushProxies].
    by rewrite Hs, Hd.
Qed.

(** ** Import, update and deploy callbacks *)

(** C24: A successful import (status 201) with an environment deploys the
    revision the import was started for. *)
Theorem importProxy_cb_deploy st o p rev b e :
  env (args st) = Some e → e ≠ "" →
  importProxy_cb o p rev (RStatus 201 b) st =
    inr (tt, after_request
               (after_log (after_log st ("Done importing proxy " +:+ p))
                  ("Deploying proxy " +:+ p +:+ " revision " +:+ to_js_string rev +:+ " to env " +:+ e))
               (deployOptions (args st) o p rev e) (KDeploy o p rev)).
Proof.
  intros He Hne. unfold importProxy_cb. rewrite status_is_ok. unfold_m. rewrite defaultLog_run.
  unfold deployProxy, get_args. unfold_m. cbn -[request deployOptions defaultLog after_log].
  rewrite !after_log_args, He. destruct e; [done|]. cbn -[request deployOptions after_log].
  by rewrite defaultLog_run.
Qed.

(** C25: A failed import reports the error and issues no deploy. *)
Theorem importProxy_cb_failure st o p rev r :
  status_is 201 r = None →
  importProxy_cb o p rev r st = inr (tt, with_trace (trace st ++ [ELogError "importProxy: "]) st).
Proof. intros Hr. unfold importProxy_cb. by rewrite Hr. Qed.

(** C28: The update callback issues no request at all: an update is never
    deployed, even with [--env]. *)
Theorem updateProxy_cb_never_deploys st o p rev r :
  updateProxy_cb o p rev r st =
    inr (tt, after_log st ("Done updating proxy " +:+ p +:+ " revision " +:+ to_js_string rev)) ∨
  updateProxy_cb o p rev r st = inr (tt, with_trace (trace st ++ [ELogError "updateProxy: "]) st).
Proof. unfold updateProxy_cb. destruct (status_is 200 r); [left; apply defaultLog_run | by right]. Qed.

(** ** Witnesses *)

(** A process started by [pushWithArgs] for proxy "hello" from directory
    "src", with or without [--update], deploying to "prod". *)
Definition fresh_push_state (upd : bool) : state :=
  mk_state ∅ (pushWithArgs_args (Some "u") (Some "pw") "acme" ["hello"] (Some "src") upd (Some "prod"))
    (λ _, None) [] false [].

(** The spec's example: max revision 7 with [--update] updates revision 7. *)
Lemma getProxyToPush_cb_update_witness :
  getMaxRevision [JNum 3; JNum 7; JNum 5] = inr (JNum 7) ∧ update (args (fresh_push_state true)) = true ∧
  getProxyToPush_cb "acme" "hello" (metadata_reply [JNum 3; JNum 7; JNum 5] 0) (fresh_push_state true) =
    inr (tt, after_request (after_log (fresh_push_state true) "Updating proxy hello revision 7")
               (updateOptions (args (fresh_push_state true)) "acme" "hello" (JNum 7)) (KUpdate "acme" "hello" (JNum 7))).
Proof.
  assert (H1 : getMaxRevision [JNum 3; JNum 7; JNum 5] = inr (JNum 7)) by reflexivity.
  assert (H2 : update (args (fresh_push_state true)) = true) by reflexivity.
  split; [exact H1|]. split; [exact H2|]. exact (getProxyToPush_cb_update _ "acme" "hello" _ 0 _ H1 H2).
Defined.

(** Without [--update], max revision 7 imports a new revision whose
    deploy names revision 8. *)
Lemma getProxyToPush_cb_import_witness :
  is_max_revision 7 [3; 7; 5] ∧ update (args (fresh_push_state false)) = false ∧
  getProxyToPush_cb "acme" "hello" (metadata_reply (JNum <$> [3; 7; 5]) 0) (fresh_push_state false) =
    inr (tt, after_request (after_log (fresh_push_state false) "Importing proxy hello new revision 8")
               (importOptions (args (fresh_push_state false)) "acme" "hello") (KImport "acme" "hello" (JNum 8))).
Proof.
  assert (H1 : is_max_revision 7 [3; 7; 5]) by (apply (bool_decide_unpack _); reflexivity).
  assert (H2 : update (args (fresh_push_state false)) = false) by reflexivity.
  split; [exact H1|]. split; [exact H2|].
  exact (getProxyToPush_cb_import _ "acme" "hello" _ _ 0 H1 H2).
Defined.

(** A 500 from the metadata request imports revision 1. *)
Lemma getProxyToPush_cb_failure_witness :
  status_is 200 (RStatus 500 BInvalid) = None ∧
  getProxyToPush_cb "acme" "hello" (RStatus 500 BInvalid) (fresh_push_state false) =
    inr (tt, after_request (after_log (fresh_push_state false) "Importing new proxy hello")
               (importOptions (args (fresh_push_state false)) "acme" "hello") (KImport "acme" "hello" (JNum 1))).
Proof.
  assert (H : status_is 200 (RStatus 500 BInvalid) = None) by reflexivity.
  split; [exact H|]. exact (getProxyToPush_cb_failure _ "acme" "hello" _ H).
Defined.

Lemma importProxy_cb_deploy_witness :
  env (args (fresh_push_state false)) = Some "prod" ∧ "prod" ≠ "" ∧
  importProxy_cb "acme" "hello" (JNum 8) (RStatus 201 BInvalid) (fresh_push_state false) =
    inr (tt, after_request
               (after_log (after_log (fresh_push_state false) "Done importing proxy hello")
                  "Deploying proxy hello revision 8 to env prod")
               (deployOptions (args (fresh_push_state false)) "acme" "hello" (JNum 8) "prod")
               (KDeploy "acme" "hello" (JNum 8))).
Proof.
  assert (H1 : env (args (fresh_push_state false)) = Some "prod") by reflexivity.
  assert (H2 : "prod" ≠ "") by discriminate.
  split; [exact H1|]. split; [exact H2|]. exact (importProxy_cb_deploy _ "acme" "hello" _ _ _ H1 H2).
Defined.

Lemma importProxy_cb_failure_witness :
  status_is 201 RError = None ∧
  importProxy_cb "acme" "hello" (JNum 8) RError (fresh_push_state false) =
    inr (tt, with_trace [ELogError "importProxy: "] (fresh_push_state false)).
Proof.
  assert (H : status_is 201 RError = None) by reflexivity.
  split; [exact H|]. exact (importProxy_cb_failure _ "acme" "hello" _ _ H).
Defined.

(** [edgeci push -o acme -p all -s src] where [src] has the
    subdirectories "a" and "b". *)
Definition all_push_state : state :=
  mk_state ∅ (mk_args (Some "push") "acme" ["all"] None false None (Some "src") false None
                (Some "u") (Some "pw") false false)
    (λ d, if bool_decide (d = "src") then Some ["a"; "b"] else None) [] false [].

Lemma push_all_sources_witness :
  is_all (args all_push_state) = true ∧ source (args all_push_state) = Some "src" ∧
  subdirs all_push_state "src" = Some ["a"; "b"] ∧
  push all_push_state =
    inr (tt, mk_state ∅ (set_proxy (args all_push_state) ["a"; "b"]) (subdirs all_push_state)
               [KZip "a"; KGetToPush "acme" "a"; KZip "b"; KGetToPush "acme" "b"] false
               (["a"; "b"] ≫= push_request (set_proxy (args all_push_state) ["a"; "b"]) "acme")).
Proof.
  assert (H1 : is_all (args all_push_state) = true) by (vm_compute; reflexivity).
  assert (H2 : source (args all_push_state) = Some "src") by reflexivity.
  assert (H3 : subdirs all_push_state "src" = Some ["a"; "b"]) by (vm_compute; reflexivity).
  split_and!; [exact H1 | exact H2 | exact H3 |].
  exact (proj1 (push_all_sources all_push_state "src" H1 H2) _ H3).
Defined.

End Push.
