(* ===== verification/EventLoop.v ===== *)
(** The event loop and the entry points of src/edgeci.js: [runCommand]
    (lines 87-99) with its [setInterval(pull, args.interval * 1000)],
    the module's two exported functions [pullWithArgs] (101-111) and
    [pushWithArgs] (121-131), and the Node event loop that runs the
    callbacks.

    A world is a running process or one that an uncaught exception has
    ended.  One step of a running process is one of these:
    - [Fire i rp]: the event loop runs the [i]-th pending callback with
      the reply [rp];
    - [Tick]: the interval timer fires [pull];
    - [Call c]: the embedding program calls [pullWithArgs] or
      [pushWithArgs].
    Any pending callback may run next, so the step relation [step]
    contains every interleaving of the per-proxy pipelines and of
    overlapping poll ticks.  [run_sched] runs a given list of steps, and
    is the executable form of [step].

    The theorems are invariants of every reachable world (by rule
    induction through [invariant_rtc]), the ordering of deploys after
    imports, the dedup of exports under any schedule, the termination of
    the callback cascade (a well-founded [Fire] relation, measured by the
    rank of the pending callbacks in their pipeline), the progress of
    a continuous pull, and what a run under [--quite] prints
    ([cli_step]: the steps of the command-line process, which receives
    no library calls).  [timer_period] is the period Node's [setInterval]
    gives a delay. *)

From S2P Require Import Prelude JsValue Revision ChangeDetector Config Gateway Runtime Pull Push.
From Stdlib Require Import Ascii.

Local Open Scope Z_scope.

Module EventLoop.
Import Revision ChangeDetector Config Gateway Runtime Pull Push.

(** The callback a continuation stands for, applied to a reply of the
    right kind. *)
Definition deliver (k : cont) (rp : reply) : option (M state unit) :=
  match k, rp with
  | KGetToPull o p, HttpReply r => Some (getProxyToPull_cb o p r)
  | KGetToPush o p, HttpReply r => Some (getProxyToPush_cb o p r)
  | KList o, HttpReply r => Some (getProxyList_cb o r)
  | KExport o p rev, HttpReply r => Some (exportProxy_cb o p rev r)
  | KImport o p rev, HttpReply r => Some (importProxy_cb o p rev r)
  | KUpdate o p rev, HttpReply r => Some (updateProxy_cb o p rev r)
  | KDeploy o p rev, HttpReply r => Some (deployProxy_cb o p rev r)
  | KZip p, ZipReply err => Some (zipProxy_cb p err)
  | _, _ => None
  end.

(** [args.interval * 1000]: NaN when the interval is undefined. *)
Definition interval_delay (i : option Z) : jsval :=
  match i with
  | Some s => JNum (s * 1000)
  | None => JNaN
  end.

(** [setInterval(pull, args.interval * 1000)]: register the timer; the
    first [pull] runs when it first fires, not now. *)
Definition setInterval_pull : M state unit :=
  a ← get_args;
  set_timer;;
  emit (ESetInterval (interval_delay (interval a))).

(** The period of the timer Node's [setInterval(callback, delay)]
    registers: the delay converted to a number, or 1 ms when it is not
    in [1, TIMEOUT_MAX] (Node's lib/internal/timers.js, TIMEOUT_MAX =
    2^31 - 1 ms, about 24.8 days).  NaN, 0, a negative delay and a delay
    above TIMEOUT_MAX all give 1 ms. *)
Definition TIMEOUT_MAX : Z := 2 ^ 31 - 1.

Definition timer_period (delay : jsval) : Z :=
  match to_number delay with
  | Some d => if (1 <=? d) && (d <=? TIMEOUT_MAX) then d else 1
  | None => 1
  end.

(** [runCommand()] *)
Definition runCommand : M state unit :=
  a ← get_args;
  if bool_decide (command a = Some "pull") then
    (if continuous a then setInterval_pull else pull)
  else if bool_decide (command a = Some "push") then push
  else console_log ("Unknown command " +:+ str_of (command a)).

(** [pullWithArgs(...)]: replace [args], then [pull()].  The
    [continuous] and [interval] arguments are stored and never read. *)
Definition pullWithArgs (username password : option string) (org : string)
    (proxies : list string) (destination : option string) (continuous : bool)
    (interval : option Z) : M state unit :=
  set_args (pullWithArgs_args username password org proxies destination continuous interval);;
  pull.

(** [pushWithArgs(...)]: replace [args], then [pull()], as the code
    does. *)
Definition pushWithArgs (username password : option string) (org : string)
    (proxies : list string) (source : option string) (update : bool)
    (env : option string) : M state unit :=
  set_args (pushWithArgs_args username password org proxies source update env);;
  pull.

(** A call of the module's exports by the embedding program. *)
Inductive api_call :=
| CallPull (username password : option string) (org : string) (proxies : list string)
    (destination : option string) (continuous : bool) (interval : option Z)
| CallPush (username password : option string) (org : string) (proxies : list string)
    (source : option string) (update : bool) (env : option string).

Definition api (c : api_call) : M state unit :=
  match c with
  | CallPull u pw o ps d c i => pullWithArgs u pw o ps d c i
  | CallPush u pw o ps s up e => pushWithArgs u pw o ps s up e
  end.

(** ** Worlds and steps *)

Inductive world :=
| Running (st : state)
| Crashed (e : exn) (st : state).

Definition state_of (w : world) : state :=
  match w with
  | Running st => st
  | Crashed _ st => st
  end.

(** Run a handler: an uncaught exception ends the process, in the state
    the handler started from. *)
Definition run_handler (m : M state unit) (st : state) : world :=
  match m st with
  | inl e => Crashed e st
  | inr (_, st') => Running st'
  end.

Inductive sched :=
| Fire (i : nat) (rp : reply)
| Tick
| Call (c : api_call).

(** The state with the [i]-th callback taken off the pending list and
    its completion recorded. *)
Definition take_pending (i : nat) (k : cont) (rp : reply) (st : state) : state :=
  with_trace (trace st ++ [EComplete k rp]) (with_pending (delete i (pending st)) st).

Definition step_fn (w : world) (ev : sched) : option world :=
  match w with
  | Crashed _ _ => None
  | Running st =>
      match ev with
      | Fire i rp =>
          k ← pending st !! i;
          h ← deliver k rp;
          Some (run_handler h (take_pending i k rp st))
      | Tick => if timer st then Some (run_handler pull st) else None
      | Call c => Some (run_handler (api c) st)
      end
  end.

Inductive step : world → world → Prop :=
| step_intro w ev w' : step_fn w ev = Some w' → step w w'.

Fixpoint run_sched (w : world) (evs : list sched) : option world :=
  match evs with
  | [] => Some w
  | ev :: evs' => w' ← step_fn w ev; run_sched w' evs'
  end.

(** The process as [execute()] starts it: [runCommand] on the parsed
    arguments, with no proxy seen yet. *)
Definition init_state (a : Config.args) (dirs : string → option (list string)) : state :=
  mk_state ∅ a dirs [] false [].

Definition start (a : Config.args) (dirs : string → option (list string)) : world :=
  run_handler runCommand (init_state a dirs).

(** The world a schedule ends in, or the start when a step of it is not
    enabled. *)
Definition run_or_stay (w : world) (evs : list sched) : world :=
  default w (run_sched w evs).

(** ** Basic facts *)

Lemma run_sched_rtc w evs w' : run_sched w evs = Some w' → rtc step w w'.
Proof.
  revert w. induction evs as [|ev evs IH]; intros w; simpl.
  - intros [= ->]. reflexivity.
  - destruct (step_fn w ev) as [w1|] eqn:E; [|done]. intros H.
    eapply rtc_l; [by econstructor | by apply IH].
Qed.

Lemma crashed_final e st w : ¬ step (Crashed e st) w.
Proof. by inversion 1. Qed.

Lemma run_sched_app w evs1 evs2 :
  run_sched w (evs1 ++ evs2) = (w' ← run_sched w evs1; run_sched w' evs2).
Proof.
  revert w. induction evs1 as [|ev evs1 IH]; intros w; simpl; [done|].
  destruct (step_fn w ev); simpl; [apply IH | done].
Qed.

(** ** What a step may request

    A callback may only start the requests of its own pipeline: the
    export of the proxy whose metadata arrived, the import or update of
    the proxy being pushed, the metadata of the listed proxies, and the
    deploy of the import that succeeded.  [pull], [push] and the entry
    points only start the first request of a pipeline. *)

Definition footprint (k : cont) (rp : reply) (k' : cont) : Prop :=
  match k, rp with
  | KGetToPull o p, _ => ∃ rev, k' = KExport o p rev
  | KGetToPush o p, _ => ∃ rev, k' = KImport o p rev ∨ k' = KUpdate o p rev
  | KList _, _ => ∃ o p, k' = KGetToPull o p
  | KImport o p rev, HttpReply r => k' = KDeploy o p rev ∧ is_Some (status_is 201 r)
  | _, _ => False
  end.

Definition starter (k' : cont) : Prop :=
  match k' with
  | KGetToPull _ _ | KList _ | KGetToPush _ _ => True
  | _ => False
  end.

(** Close the side conditions [issues P e] that [solve_preserves]
    leaves. *)
Ltac solve_issues :=
  unfold issues; intros ?o ?k ?Heq; inversion Heq; subst; simpl; eauto.

Lemma pull_starts : Preserves (appends (issues starter)) pull.
Proof. solve_preserves; solve_issues. Qed.

Lemma push_starts : Preserves (appends (issues starter)) push.
Proof. solve_preserves; solve_issues. Qed.

Lemma runCommand_starts : Preserves (appends (issues starter)) runCommand.
Proof. solve_preserves; solve_issues. Qed.

Lemma api_starts c : Preserves (appends (issues starter)) (api c).
Proof. solve_preserves; solve_issues. Qed.

Lemma status_is_Some code r b : status_is code r = Some b → r = RStatus code b.
Proof.
  destruct r as [|c b']; simpl; [done|]. case_decide; [|done]. intros [= ->]. by subst.
Qed.

Lemma deliver_footprint k rp h :
  deliver k rp = Some h → Preserves (appends (issues (footprint k rp))) h.
Proof.
  destruct k, rp; simpl; intros [= <-]; try (solve_preserves; solve_issues; fail).
  (* the import callback: a deploy only on status 201 *)
  unfold importProxy_cb. destruct (status_is 201 r) as [b|] eqn:Hr; solve_preserves; solve_issues.
Qed.

Lemma deliver_grows k rp h : deliver k rp = Some h → Preserves grows h.
Proof. destruct k, rp; simpl; intros [= <-]; auto with preserves. Qed.

(** ** The effect of one step on the trace *)

(** What one step appends to the trace: the completion of a pending
    callback followed by requests of its footprint, or requests that
    start pipelines. *)
Inductive step_effect (st : state) : list event → Prop :=
| eff_fire i k rp dt :
    pending st !! i = Some k → Forall (issues (footprint k rp)) dt →
    step_effect st (EComplete k rp :: dt)
| eff_start dt :
    Forall (issues starter) dt → step_effect st dt.

Lemma run_handler_appends (Q : event → Prop) h st :
  Preserves (appends Q) h →
  ∃ dt, trace (state_of (run_handler h st)) = trace st ++ dt ∧ Forall Q dt.
Proof.
  intros Hh. unfold run_handler. destruct (h st) as [e|[[] st']] eqn:E; simpl.
  - exists []. by rewrite app_nil_r.
  - by apply (Hh st tt st').
Qed.

Lemma step_trace st w' :
  step (Running st) w' → ∃ dt, trace (state_of w') = trace st ++ dt ∧ step_effect st dt.
Proof.
  inversion 1 as [? ev ? Hs]; subst. destruct ev as [i rp| |c]; simpl in Hs.
  - destruct (pending st !! i) as [k|] eqn:Hk; [|done]. simpl in Hs.
    destruct (deliver k rp) as [h|] eqn:Hd; [|done]. injection Hs as <-.
    destruct (run_handler_appends _ h (take_pending i k rp st) (deliver_footprint _ _ _ Hd))
      as [dt [Ht Hf]].
    exists (EComplete k rp :: dt). rewrite Ht. simpl. rewrite <- app_assoc.
    split; [done | by econstructor].
  - destruct (timer st); [|done]. injection Hs as <-.
    destruct (run_handler_appends _ _ st pull_starts) as [dt [Ht Hf]].
    exists dt. split; [done | by constructor].
  - injection Hs as <-.
    destruct (run_handler_appends _ _ st (api_starts c)) as [dt [Ht Hf]].
    exists dt. split; [done | by constructor].
Qed.

Lemma start_trace a dirs :
  ∃ dt, trace (state_of (start a dirs)) = dt ∧ Forall (issues starter) dt.
Proof. apply (run_handler_appends _ _ (init_state a dirs) runCommand_starts). Qed.

(** An invariant of running states holds of every world reachable from
    a world where it holds: a crashed world takes no step. *)
Lemma invariant_rtc (I : world → Prop) :
  (∀ st w', I (Running st) → step (Running st) w' → I w') →
  ∀ w w', rtc step w w' → I w → I w'.
Proof.
  intros Hstep w w' Hr. induction Hr as [|w1 w2 w3 H12 _ IH]; intros H1; [done|].
  apply IH. destruct w1 as [st|e st]; [by eapply Hstep | by inversion H12].
Qed.

(** ** Deploy after import *)

(** Every deploy request is preceded by the completion, with status
    201, of the import of the same proxy at the same revision. *)
Definition deploy_justified (tr : list event) : Prop :=
  ∀ j o' o p rev, tr !! j = Some (ERequest o' (KDeploy o p rev)) →
    ∃ i b, (i < j)%nat ∧ tr !! i = Some (EComplete (KImport o p rev) (HttpReply (RStatus 201 b))).

Lemma starters_no_deploy tr dt :
  Forall (issues starter) dt → deploy_justified tr → deploy_justified (tr ++ dt).
Proof.
  intros Hf Hj j o' o p rev Hl. destruct (decide (j < length tr)%nat) as [Hlt|Hge].
  - rewrite lookup_app_l in Hl by done. destruct (Hj _ _ _ _ _ Hl) as (i & b & Hi & Hb).
    exists i, b. split; [done|]. rewrite lookup_app_l by lia. done.
  - rewrite lookup_app_r in Hl by lia. by destruct (Forall_lookup_1 _ _ _ _ Hf Hl o' _ eq_refl).
Qed.

Lemma deploy_justified_step st w' :
  deploy_justified (trace st) → step (Running st) w' → deploy_justified (trace (state_of w')).
Proof.
  intros Hj Hs. destruct (step_trace _ _ Hs) as [dt [-> Heff]].
  destruct Heff as [i k rp dt Hk Hf | dt Hf]; [|by apply starters_no_deploy].
  intros j o' o p rev Hl. destruct (decide (j < length (trace st))%nat) as [Hlt|Hge].
  - rewrite lookup_app_l in Hl by done. destruct (Hj _ _ _ _ _ Hl) as (i' & b & Hi & Hb).
    exists i', b. split; [done|]. rewrite lookup_app_l by lia. done.
  - rewrite lookup_app_r in Hl by lia.
    destruct (j - length (trace st))%nat as [|j'] eqn:Hj'; simpl in Hl; [done|].
    pose proof (Forall_lookup_1 _ _ _ _ Hf Hl o' _ eq_refl) as Hfp.
    destruct k, rp as [r|]; simpl in Hfp;
      repeat match type of Hfp with ∃ _, _ => destruct Hfp as [? Hfp] end;
      try done; try (destruct Hfp; discriminate).
    destruct Hfp as [Heq [b Hb]]. injection Heq as <- <- <-.
    apply status_is_Some in Hb as ->.
    exists (length (trace st)), b. split; [lia|]. rewrite lookup_app_r by lia.
    by rewrite Nat.sub_diag.
Qed.

(** C5: Safety: in every run of the program, from [execute()] on, a deploy
    is requested only after the import of the same proxy and revision
    has completed with status 201.  A failed import is never
    deployed. *)
Theorem deploy_only_after_import a dirs w :
  rtc step (start a dirs) w → deploy_justified (trace (state_of w)).
Proof.
  intros Hr. apply (invariant_rtc (λ w, deploy_justified (trace (state_of w)))) with (start a dirs).
  - intros st w'. apply deploy_justified_step.
  - done.
  - destruct (start_trace a dirs) as [dt [-> Hf]]. by apply (starters_no_deploy []).
Qed.

(** ** The stored records *)

(** [d'] keeps every record of [d], with a stamp at least as recent. *)
Definition data_le (d d' : gmap string proxy_record) : Prop :=
  ∀ p r, d !! p = Some r → ∃ r', d' !! p = Some r' ∧ lastModified r ≤ lastModified r'.

#[export] Instance data_le_preorder : PreOrder data_le.
Proof.
  split.
  - intros d p r H. exists r. split; [done | lia].
  - intros d1 d2 d3 H12 H23 p r H. destruct (H12 _ _ H) as (r2 & H2 & L2).
    destruct (H23 _ _ H2) as (r3 & H3 & L3). exists r3. split; [done | lia].
Qed.

(** Every record is stored under its own name, an ordinary one. *)
Definition data_wf (d : gmap string proxy_record) : Prop :=
  ∀ p r, d !! p = Some r → proxyName r = p ∧ ordinary_name p.

Lemma record_data_le d p lr lm :
  shouldExport d p lm = true → data_le d (record d p lr lm).
Proof.
  intros Hs q r Hq. destruct (decide (p = q)) as [<-|Hne].
  - rewrite record_lookup_eq. eexists. split; [done|]. simpl.
    unfold shouldExport, data_get in Hs. rewrite Hq in Hs. apply bool_decide_eq_true in Hs. lia.
  - rewrite record_lookup_ne by done. exists r. split; [done | lia].
Qed.

Lemma record_data_wf d p lr lm :
  data_wf d → shouldExport d p lm = true → data_wf (record d p lr lm).
Proof.
  intros Hwf Hs q r Hq. destruct (decide (p = q)) as [<-|Hne].
  - rewrite record_lookup_eq in Hq. injection Hq as <-. split; [done|].
    intros Hp. unfold shouldExport, data_get in Hs.
    destruct (d !! p) as [r|] eqn:Hd; [by destruct (Hwf _ _ Hd)|].
    by rewrite decide_True in Hs.
  - rewrite record_lookup_ne in Hq by done. by apply Hwf.
Qed.

Lemma run_handler_preserves (R : relation state) `{!PreOrder R} h st :
  Preserves R h → R st (state_of (run_handler h st)).
Proof.
  intros Hh. unfold run_handler. destruct (h st) as [e|[[] st']] eqn:E; simpl; [reflexivity|].
  by apply (Hh st tt st').
Qed.

Lemma deliver_data_same k rp h :
  deliver k rp = Some h → (∀ o p, k ≠ KGetToPull o p) → Preserves data_same h.
Proof.
  destruct k, rp; simpl; intros [= <-] Hk; try (exfalso; by eapply Hk); solve_preserves.
Qed.

Lemma pull_data_same : Preserves data_same pull.
Proof. solve_preserves. Qed.
Lemma api_data_same c : Preserves data_same (api c).
Proof. solve_preserves. Qed.
Lemma runCommand_data_same : Preserves data_same runCommand.
Proof. solve_preserves. Qed.

Lemma run_handler_data_same h st :
  Preserves data_same h → data (state_of (run_handler h st)) = data st.
Proof. intros Hh. apply (run_handler_preserves data_same _ _ Hh). Qed.

(** One step leaves [data] alone, or records one export that
    [shouldExport] allowed. *)
Lemma step_data st w' :
  step (Running st) w' →
  data (state_of w') = data st ∨
  ∃ p lr lm, shouldExport (data st) p lm = true ∧ data (state_of w') = record (data st) p lr lm.
Proof.
  inversion 1 as [? ev ? Hs]; subst. destruct ev as [i rp| |c]; simpl in Hs.
  - destruct (pending st !! i) as [k|] eqn:Hk; [|done]. simpl in Hs.
    destruct (deliver k rp) as [h|] eqn:Hd; [|done]. injection Hs as <-.
    destruct k as [o p|o1 p1|o2|o3 p3 r3|o4 p4 r4|o5 p5 r5|o6 p6 r6|p7]; cycle 1;
      try (left; rewrite run_handler_data_same; [done|];
           apply (deliver_data_same _ _ _ Hd); intros ??; discriminate).
    destruct rp as [r|]; [|done]. injection Hd as <-. unfold run_handler.
    destruct (getProxyToPull_cb_cases o p r (take_pending i (KGetToPull o p) (HttpReply r) st))
      as [[e ->] | [-> | [-> | (revs & lm & lr & _ & _ & Hs & ->)]]]; simpl; [by left..|].
    right. by exists p, lr, lm.
  - destruct (timer st); [|done]. injection Hs as <-. left.
    apply run_handler_data_same, pull_data_same.
  - injection Hs as <-. left. apply run_handler_data_same, api_data_same.
Qed.

Lemma step_data_le st w' : step (Running st) w' → data_le (data st) (data (state_of w')).
Proof.
  intros Hs. destruct (step_data _ _ Hs) as [-> | (p & lr & lm & Hsh & ->)];
    [reflexivity | by apply record_data_le].
Qed.

(** C21: Safety: along any run, from any state, no stored record is ever
    removed and no stored [lastModified] ever decreases, however the
    metadata replies of overlapping poll ticks interleave. *)
Theorem records_monotone w w' :
  rtc step w w' → data_le (data (state_of w)) (data (state_of w')).
Proof.
  intros Hr. apply (invariant_rtc (λ w', data_le (data (state_of w)) (data (state_of w')))) with w;
    [| done | reflexivity].
  intros st w1 Hle Hs. etrans; [apply Hle | by apply step_data_le].
Qed.

(** C22: Safety: in every run of the program, each stored record carries the
    name it is stored under, and that name is an ordinary one. *)
Theorem records_well_formed a dirs w :
  rtc step (start a dirs) w → data_wf (data (state_of w)).
Proof.
  intros Hr. apply (invariant_rtc (λ w, data_wf (data (state_of w)))) with (start a dirs); [| done |].
  - intros st w1 Hwf Hs.
    destruct (step_data _ _ Hs) as [-> | (p & lr & lm & Hsh & ->)]; [done | by apply record_data_wf].
  - unfold start. rewrite run_handler_data_same by apply runCommand_data_same.
    intros p r Hp. simpl in Hp. by rewrite lookup_empty in Hp.
Qed.

(** ** Exports without remote change *)

Definition is_export_of (p : string) (e : event) : bool :=
  match e with
  | ERequest _ (KExport _ q _) => bool_decide (q = p)
  | _ => false
  end.

(** The number of export requests for proxy [p] in a trace. *)
Definition count_exports (p : string) (tr : list event) : nat := count_if (is_export_of p) tr.

(** [p] is recorded at [lm] or later. *)
Definition stamp_ge (p : string) (lm : Z) (d : gmap string proxy_record) : Prop :=
  ∃ r, d !! p = Some r ∧ lm ≤ lastModified r.

(** The step does not show [p] changed: when it delivers a successful
    metadata reply to a metadata callback of [p], the reply carries the
    stamp [lm]. *)
Definition fixed_at (p : string) (lm : Z) (st : state) (ev : sched) : bool :=
  match ev with
  | Fire i (HttpReply (RStatus c (BJson (JProxy _ lm')))) =>
      match pending st !! i with
      | Some (KGetToPull _ q) => bool_decide (q = p → c = 200 → lm' = lm)
      | _ => true
      end
  | _ => true
  end.

(** Every step of the schedule does not show [p] changed. *)
Fixpoint run_fixed (p : string) (lm : Z) (w : world) (evs : list sched) : bool :=
  match evs with
  | [] => true
  | ev :: evs' =>
      fixed_at p lm (state_of w) ev &&
      match step_fn w ev with
      | Some w' => run_fixed p lm w' evs'
      | None => true
      end
  end.

Lemma count_exports_app p tr1 tr2 :
  count_exports p (tr1 ++ tr2) = (count_exports p tr1 + count_exports p tr2)%nat.
Proof. apply count_if_app. Qed.

Lemma count_exports_issues (P : cont → Prop) p dt :
  Forall (issues P) dt → (∀ o rev, ¬ P (KExport o p rev)) → count_exports p dt = 0%nat.
Proof.
  intros Hf HP. induction Hf as [|e dt He _ IH]; [done|].
  unfold count_exports. rewrite count_if_cons. fold (count_exports p dt). rewrite IH.
  destruct e as [o k| | | | | | |]; simpl; try done.
  destruct k as [| | |o' q rev| | | |]; simpl; try done.
  case_bool_decide as Hq; [subst q|done]. exfalso. by apply (HP o' rev), (He o).
Qed.

Lemma count_exports_log p a msg : count_exports p (default_log a msg) = 0%nat.
Proof. unfold default_log. by destruct (quite a). Qed.

Lemma count_exports_effects a o p rev :
  count_exports p (export_effects a o p rev) = 1%nat.
Proof.
  unfold count_exports, export_effects. rewrite !count_if_cons, count_if_nil.
  cbn [is_export_of]. by rewrite bool_decide_true.
Qed.

Lemma shouldExport_not_stamp_ge d p lm :
  shouldExport d p lm = true → ¬ stamp_ge p lm d.
Proof.
  intros Hs [r [Hr Hle]]. unfold shouldExport, data_get in Hs. rewrite Hr in Hs.
  apply bool_decide_eq_true in Hs. lia.
Qed.

Lemma stamp_ge_not_shouldExport d p lm :
  ordinary_name p → ¬ stamp_ge p lm d → shouldExport d p lm = true.
Proof.
  intros Hp Hn. rewrite shouldExport_ordinary by done.
  destruct (d !! p) as [r|] eqn:Hr; [|done]. apply bool_decide_eq_true.
  destruct (decide (lm ≤ lastModified r)); [|lia]. exfalso. apply Hn. by exists r.
Qed.

Lemma stamp_ge_mono p lm d d' : data_le d d' → stamp_ge p lm d → stamp_ge p lm d'.
Proof. intros Hle [r [Hr Hlm]]. destruct (Hle _ _ Hr) as (r' & Hr' & Hl). exists r'. split; [done | lia]. Qed.

(** [k] is a metadata callback of the pull of [p]. *)
Definition is_metadata_of (p : string) (k : cont) : bool :=
  match k with
  | KGetToPull _ q => bool_decide (q = p)
  | _ => false
  end.

(** Only a metadata callback of [p] may request an export of [p]. *)
Lemma footprint_export k rp o p rev :
  footprint k rp (KExport o p rev) → ∃ o', k = KGetToPull o' p.
Proof.
  destruct k, rp; simpl; intros Hfp; try done;
    repeat match type of Hfp with
      | ∃ _, _ => destruct Hfp as [? Hfp]
      | _ ∨ _ => destruct Hfp as [Hfp|Hfp]
      | _ ∧ _ => destruct Hfp as [Hfp _]
      end; try discriminate.
  all: injection Hfp as Ho Hq Hr; subst; eauto.
Qed.

(** One step requests the export of [p] at most once, and only when [p]
    was not yet recorded at [lm]; afterwards it is. *)
Lemma step_exports p lm st ev w' :
  ordinary_name p → step_fn (Running st) ev = Some w' → fixed_at p lm st ev = true →
  count_exports p (trace (state_of w')) = count_exports p (trace st) ∨
  (¬ stamp_ge p lm (data st) ∧
   count_exports p (trace (state_of w')) = S (count_exports p (trace st)) ∧
   stamp_ge p lm (data (state_of w'))).
Proof.
  intros Hp Hs Hf. destruct ev as [i rp| |c]; simpl in Hs.
  - destruct (pending st !! i) as [k|] eqn:Hk; [|done]. simpl in Hs.
    destruct (deliver k rp) as [h|] eqn:Hd; [|done]. injection Hs as <-.
    assert (Htp : count_exports p (trace (take_pending i k rp st)) = count_exports p (trace st)).
    { unfold take_pending. cbn [trace with_trace]. rewrite count_exports_app.
      unfold count_exports at 2. rewrite count_if_cons, count_if_nil. simpl. lia. }
    destruct (is_metadata_of p k) eqn:Hm;
      [| left; destruct (run_handler_appends _ h (take_pending i k rp st) (deliver_footprint _ _ _ Hd))
            as [dt [-> Hdt]];
         rewrite count_exports_app, Htp, (count_exports_issues _ _ _ Hdt); [lia|];
         intros o rev Hfp; destruct (footprint_export _ _ _ _ _ Hfp) as [o' ->];
         simpl in Hm; by rewrite bool_decide_true in Hm].
    destruct k as [o q| | | | | | |]; try discriminate Hm.
    simpl in Hm. apply bool_decide_eq_true in Hm as ->.
    destruct rp as [r|]; [|done]. injection Hd as <-. unfold run_handler.
    destruct (getProxyToPull_cb_cases o p r (take_pending i (KGetToPull o p) (HttpReply r) st))
      as [[e ->] | [-> | [-> | (revs & lm' & lr & -> & _ & Hsh & ->)]]]; cbn [state_of];
      [left; done..| |].
    + left. cbn [trace with_trace]. rewrite count_exports_app, Htp. unfold count_exports at 2.
      rewrite count_if_cons, count_if_nil. simpl. lia.
    + unfold fixed_at, metadata_reply in Hf. rewrite Hk in Hf.
      apply bool_decide_eq_true in Hf. specialize (Hf eq_refl eq_refl) as ->.
      right. unfold export_state. cbn [trace data]. split_and!.
      * by apply shouldExport_not_stamp_ge.
      * rewrite !count_exports_app, Htp, count_exports_log, count_exports_effects. lia.
      * exists (mk_record p lr lm). split; [apply record_lookup_eq | simpl; lia].
  - destruct (timer st); [|done]. injection Hs as <-. left.
    destruct (run_handler_appends _ _ st pull_starts) as [dt [-> Hdt]].
    rewrite count_exports_app, (count_exports_issues _ _ _ Hdt); [lia | by intros ?? ?].
  - injection Hs as <-. left.
    destruct (run_handler_appends _ _ st (api_starts c)) as [dt [-> Hdt]].
    rewrite count_exports_app, (count_exports_issues _ _ _ Hdt); [lia | by intros ?? ?].
Qed.

(** C1: Liveness of the dedup, as the spec states it: as long as the remote
    proxy [p] does not change (every metadata reply for [p] carries the
    stamp [lm]), any schedule, with any number of poll ticks and
    overlapping replies, requests at most one export of [p].  It requests
    none if [p] was already recorded at [lm]. *)
Theorem pull_exports_once p lm w evs w' :
  ordinary_name p → run_sched w evs = Some w' → run_fixed p lm w evs = true →
  (count_exports p (trace (state_of w')) ≤ S (count_exports p (trace (state_of w))))%nat ∧
  (stamp_ge p lm (data (state_of w)) →
   count_exports p (trace (state_of w')) = count_exports p (trace (state_of w))).
Proof.
  intros Hp. revert w. induction evs as [|ev evs IH]; intros w Hr Hf; simpl in Hr, Hf.
  - injection Hr as <-. split; [lia | done].
  - destruct (step_fn w ev) as [w1|] eqn:Hs; [|done]. simpl in Hr.
    apply andb_true_iff in Hf as [Hf0 Hf1].
    destruct w as [st|e st]; [|done].
    destruct (IH w1 Hr Hf1) as [IH1 IH2].
    assert (Hmono : data_le (data st) (data (state_of w1))).
    { apply (step_data_le st). by econstructor. }
    destruct (step_exports p lm st ev w1 Hp Hs Hf0) as [Heq | (Hn & Hc & Hge)]; simpl.
    + rewrite <- Heq. split; [done|]. intros Hge. apply IH2. by eapply stamp_ge_mono.
    + rewrite IH2 by done. split; [lia | done].
Qed.

(** ** Entry points *)

(** [pull --continuous] issues no request at start: [runCommand] only
    calls [setInterval], and the first [pull] runs when the timer first
    fires ([Tick]). *)
Lemma continuous_pull_waits a dirs :
  command a = Some "pull" → continuous a = true →
  start a dirs = Running (mk_state ∅ a dirs [] true [ESetInterval (interval_delay (interval a))]).
Proof.
  intros Hc Hk. unfold start, run_handler, runCommand, get_args. unfold_m.
  cbn [args init_state]. rewrite Hc, bool_decide_true, Hk by done. reflexivity.
Qed.

(** C32: [pullWithArgs] stores its [continuous] and [interval] arguments but
    never reads them: it runs [pull] once and registers no timer. *)
Theorem pullWithArgs_never_polls st u pw o ps d c i :
  head ps ≠ Some "all" →
  pullWithArgs u pw o ps d c i st =
    inr (tt, mk_state (data st) (pullWithArgs_args u pw o ps d c i) (subdirs st)
               (pending st ++ (KGetToPull o <$> ps)) (timer st)
               (trace st ++ (ps ≫= check_request (pullWithArgs_args u pw o ps d c i) o))).
Proof.
  intros Hn. unfold pullWithArgs, set_args. unfold_m.
  rewrite (pull_not_all (with_args _ st)) by (by apply bool_decide_eq_false).
  by rewrite pullProxies_run.
Qed.

(** C33: [pushWithArgs] replaces [args] and then runs [pull], not [push]: it
    requests the metadata of each proxy for a pull and starts no zip,
    import or update. *)
Theorem pushWithArgs_pulls st u pw o ps src upd e :
  head ps ≠ Some "all" →
  pushWithArgs u pw o ps src upd e st =
    inr (tt, mk_state (data st) (pushWithArgs_args u pw o ps src upd e) (subdirs st)
               (pending st ++ (KGetToPull o <$> ps)) (timer st)
               (trace st ++ (ps ≫= check_request (pushWithArgs_args u pw o ps src upd e) o))).
Proof.
  intros Hn. unfold pushWithArgs, set_args. unfold_m.
  rewrite (pull_not_all (with_args _ st)) by (by apply bool_decide_eq_false).
  by rewrite pullProxies_run.
Qed.

(** C34: The pull that [pushWithArgs] starts has no destination: an export it
    triggers deletes and extracts into "undefined/NAME". *)
Theorem pushWithArgs_export_path st o p revs lm lr u pw o' ps src upd e :
  args st = pushWithArgs_args u pw o' ps src upd e →
  getMaxRevision revs = inr lr → shouldExport (data st) p lm = true →
  ∃ st', getProxyToPull_cb o p (metadata_reply revs lm) st = inr (tt, st') ∧
    trace st' = trace st ++ default_log (args st) (export_message p lr) ++
                [ERimraf ("undefined/" +:+ p);
                 ERequest (exportOptions (args st) o p lr) (KExport o p lr);
                 EExtract ("undefined/" +:+ p)].
Proof.
  intros Ha Hm Hs. eexists. split; [by rewrite getProxyToPull_cb_metadata, Hm, Hs|].
  simpl. unfold export_effects, getProxyDestinationPath. by rewrite Ha.
Qed.

(** [edgeci push] of one proxy starts the zip and, at once, the metadata
    request. *)
Lemma push_start a dirs p :
  command a = Some "push" → proxy a = [p] → p ≠ "all" →
  start a dirs = Running (mk_state ∅ a dirs [KZip p; KGetToPush (org a) p] false
     (verbose_log a ("Checking proxy: " +:+ p) ++
      [ERimraf (getProxyZipPath a p); EZip (getProxySourcePath a p) (getProxyZipPath a p);
       ERequest (apiOptions a (org a) p) (KGetToPush (org a) p)])).
Proof.
  intros Hc Hp Hn. unfold start, run_handler, runCommand, get_args. unfold_m.
  cbn [args init_state]. rewrite Hc, bool_decide_false, bool_decide_true by done.
  unfold push, get_args, is_all. unfold_m. cbn [args init_state]. rewrite Hp. simpl.
  rewrite bool_decide_false by congruence.
  unfold pushProxies, get_args. unfold_m. cbn [args init_state]. rewrite Hp.
  unfold verboseLog, verbose_log, console_log, emit, get_args. do 2 (unfold_m; cbn).
  destruct (verbose a); reflexivity.
Qed.

(** C31: The upload does not wait for the archive.  When the metadata reply
    comes before [zipfolder] has finished, the import request is issued
    while the zip callback is still pending.  The request uploads
    [getProxyZipPath], which [zipProxy] deleted and has not written
    again. *)
Theorem push_imports_before_zip a dirs p r :
  command a = Some "push" → proxy a = [p] → p ≠ "all" → status_is 200 r = None →
  run_sched (start a dirs) [Fire 1 (HttpReply r)] =
    Some (Running (mk_state ∅ a dirs [KZip p; KImport (org a) p (JNum 1)] false
      (verbose_log a ("Checking proxy: " +:+ p) ++
       [ERimraf (getProxyZipPath a p); EZip (getProxySourcePath a p) (getProxyZipPath a p);
        ERequest (apiOptions a (org a) p) (KGetToPush (org a) p);
        EComplete (KGetToPush (org a) p) (HttpReply r)] ++
       default_log a ("Importing new proxy " +:+ p) ++
       [ERequest (importOptions a (org a) p) (KImport (org a) p (JNum 1))]))).
Proof.
  intros Hc Hp Hn Hr. rewrite (push_start a dirs p Hc Hp Hn). simpl.
  unfold run_handler, getProxyToPush_cb. rewrite Hr. unfold_m. rewrite defaultLog_run.
  unfold after_request, after_log. simpl. by rewrite <- !app_assoc.
Qed.

(** C17: [--quite] does not silence the zip callback, which prints with
    [console.log] and not with [defaultLog].  For a push of one proxy
    whose metadata request fails, with [--quite] and the zip finishing
    after the reply, the console shows only the zip's line (after the
    [--verbose] line, if any); the "Importing new proxy" line is
    suppressed. *)
Theorem quite_push_console a dirs p r err :
  command a = Some "push" → proxy a = [p] → p ≠ "all" → quite a = true →
  status_is 200 r = None →
  ∃ st', run_sched (start a dirs) [Fire 1 (HttpReply r); Fire 0 (ZipReply err)] = Some (Running st') ∧
    console (trace st') =
      (if verbose a then ["Checking proxy: " +:+ p] else []) ++
      [if err then "Error zipping " +:+ p else "Done zipping proxy " +:+ p].
Proof.
  intros Hc Hp Hn Hq Hr. rewrite (push_start a dirs p Hc Hp Hn). cbn [run_sched].
  simpl. unfold run_handler, getProxyToPush_cb. rewrite Hr. unfold_m. rewrite defaultLog_run.
  simpl. unfold zipProxy_cb.
  destruct err; (eexists; split; [reflexivity|]);
    unfold after_log, default_log; rewrite Hq; cbn [trace with_trace take_pending];
    rewrite !console_app; unfold verbose_log; destruct (verbose a); reflexivity.
Qed.

(** ** A quiet run

    Under [--quite] and without [--verbose], [defaultLog] and
    [verboseLog] print nothing, but the zip callback and the unknown
    command branch of [runCommand] print with [console.log].  The
    relation [quiet_appends] says that a handler keeps the arguments
    quiet and appends only events whose console line, if any, is one of
    those. *)

Fixpoint starts_with (pre s : string) : bool :=
  match pre, s with
  | EmptyString, _ => true
  | String c pre', String d s' => Ascii.eqb c d && starts_with pre' s'
  | _, _ => false
  end.

Definition quiet_line (m : string) : bool :=
  starts_with "Done zipping proxy " m || starts_with "Error zipping " m ||
  starts_with "Unknown command " m || starts_with "Error while calling " m.

Definition quiet_event (e : event) : bool :=
  match e with
  | ELog m => quiet_line m
  | _ => true
  end.

Definition quiet (a : Config.args) : Prop := quite a = true ∧ verbose a = false.

Definition quiet_appends (st st' : state) : Prop :=
  quiet (args st) → quiet (args st') ∧ appends (λ e, quiet_event e = true) st st'.

#[export] Instance quiet_appends_preorder : PreOrder quiet_appends.
Proof.
  split.
  - intros st Hq. split; [done | reflexivity].
  - intros s1 s2 s3 H12 H23 Hq. destruct (H12 Hq) as [Hq2 A12]. destruct (H23 Hq2) as [Hq3 A23].
    split; [done | by etrans].
Qed.

Lemma quiet_frame st st' :
  args st' = args st → trace st' = trace st → quiet_appends st st'.
Proof. intros Ha Ht Hq. rewrite Ha. split; [done | by apply appends_frame]. Qed.

Lemma quiet_set_data d : Preserves quiet_appends (set_data d).
Proof. intros st b st' [= _ <-]. by apply quiet_frame. Qed.
Lemma quiet_set_timer : Preserves quiet_appends set_timer.
Proof. intros st b st' [= _ <-]. by apply quiet_frame. Qed.
Lemma quiet_set_args_proxy ps : Preserves quiet_appends (set_args_proxy ps).
Proof. intros st b st' [= _ <-] Hq. split; [done | by apply appends_frame]. Qed.
Lemma quiet_emit e : quiet_event e = true → Preserves quiet_appends (emit e).
Proof. intros He st b st' [= _ <-] Hq. split; [done|]. exists [e]. split; [done | by constructor]. Qed.
Lemma quiet_spawn e k : quiet_event e = true → Preserves quiet_appends (spawn e k).
Proof. intros He st b st' [= _ <-] Hq. split; [done|]. exists [e]. split; [done | by constructor]. Qed.

Lemma quiet_defaultLog msg : Preserves quiet_appends (defaultLog msg).
Proof.
  intros st b st'. rewrite defaultLog_run. intros [= _ <-] [Hq Hv].
  split; [done|]. exists []. unfold after_log, default_log. rewrite Hq. done.
Qed.

Lemma quiet_verboseLog msg : Preserves quiet_appends (verboseLog msg).
Proof.
  intros st b st'. rewrite verboseLog_run. intros [= _ <-] [Hq Hv].
  split; [done|]. exists []. unfold verbose_log. rewrite Hv. done.
Qed.

Create HintDb quiet.
#[export] Hint Resolve quiet_set_data quiet_set_timer quiet_set_args_proxy quiet_defaultLog
  quiet_verboseLog : quiet.

(** [solve_preserves] for [quiet_appends]: the logging primitives are
    taken whole, and the line of an event is checked by computation. *)
Ltac solve_quiet :=
  repeat first
    [ progress (intros; cbv beta)
    | solve [eauto with quiet preserves typeclass_instances]
    | apply preserves_bind
    | apply preserves_for_each
    | apply preserves_if
    | apply quiet_emit; reflexivity
    | apply quiet_spawn; reflexivity
    | match goal with
      | |- Preserves _ (match ?x with _ => _ end) => destruct x
      | |- Preserves _ ?m => let h := head_of m in unfold h
      end ].

Lemma deliver_quiet k rp h : deliver k rp = Some h → Preserves quiet_appends h.
Proof. destruct k, rp; simpl; intros [= <-]; solve_quiet. Qed.

Lemma pull_quiet : Preserves quiet_appends pull.
Proof. solve_quiet. Qed.

Lemma runCommand_quiet : Preserves quiet_appends runCommand.
Proof. solve_quiet. Qed.

(** The steps of the command-line process: callbacks and timer ticks.
    When [edgeci.js] runs as the main module it calls [execute()] and
    exports nothing, so no library call ([Call]) happens. *)
Inductive cli_step : world → world → Prop :=
| cli_fire w i rp w' : step_fn w (Fire i rp) = Some w' → cli_step w w'
| cli_tick w w' : step_fn w Tick = Some w' → cli_step w w'.

Definition quiet_world (w : world) : Prop :=
  quiet (args (state_of w)) ∧ Forall (λ e, quiet_event e = true) (trace (state_of w)).

Lemma quiet_world_handler h st :
  Preserves quiet_appends h → quiet_world (Running st) → quiet_world (run_handler h st).
Proof.
  intros Hh [Hq Ht]. destruct (run_handler_preserves _ h st Hh Hq) as [Hq' [dt [Hdt Fdt]]].
  split; [done|]. rewrite Hdt. by apply Forall_app.
Qed.

Lemma quiet_world_step w w' : quiet_world w → cli_step w w' → quiet_world w'.
Proof.
  intros Hw Hc. destruct w as [st|e st]; [|by inversion Hc as [? ? ? ? Hs|? ? Hs]].
  inversion Hc as [? i rp ? Hs|? ? Hs]; subst; simpl in Hs.
  - destruct (pending st !! i) as [k|]; [|done]. simpl in Hs.
    destruct (deliver k rp) as [h|] eqn:Hd; [|done]. injection Hs as <-.
    apply quiet_world_handler; [by eapply deliver_quiet|].
    destruct Hw as [Hq Ht]. split; [done|]. cbn. apply Forall_app. split; [exact Ht | by constructor].
  - destruct (timer st); [|done]. injection Hs as <-. by apply quiet_world_handler; [apply pull_quiet|].
Qed.

Lemma console_quiet tr :
  Forall (λ e, quiet_event e = true) tr → Forall (λ m, quiet_line m = true) (console tr).
Proof.
  induction 1 as [|e tr He _ IH]; [constructor|].
  destruct e; cbn [console omap console_line]; try exact IH; (constructor; [|exact IH]);
    [reflexivity | exact He].
Qed.

(** C16: Under [--quite] and without [--verbose], in every run of the
    command line, whatever the replies and the ticks, every line the
    console shows is printed by [console.log] directly: a "Done zipping
    proxy" or "Error zipping" line of the zip callback, an error report
    of [logError] ("Error while calling NAME"), or "Unknown command".
    [defaultLog] and [verboseLog] print nothing, and no callback turns
    the flags back. *)
Theorem quiet_run_console a dirs w :
  quite a = true → verbose a = false → rtc cli_step (start a dirs) w →
  Forall (λ m, quiet_line m = true) (console (trace (state_of w))).
Proof.
  intros Hq Hv Hr. apply console_quiet.
  enough (Hinv : ∀ w0 w1, rtc cli_step w0 w1 → quiet_world w0 → quiet_world w1).
  { apply (Hinv _ _ Hr), quiet_world_handler; [apply runCommand_quiet | split; [done | constructor]]. }
  intros w0 w1 Hr'. induction Hr' as [|x y z Hxy _ IH]; intros Hx; [done|].
  apply IH. by eapply quiet_world_step.
Qed.

(** ** Failures *)

(** A callback that returns normally, whatever its reply, takes exactly
    itself off the pending list and leaves every other pending callback
    pending, in order.  (A callback that throws ends the whole process
    instead: see [empty_revisions_crash].) *)
Lemma fire_keeps_other_callbacks st i rp st' :
  step_fn (Running st) (Fire i rp) = Some (Running st') →
  ∃ dp, pending st' = delete i (pending st) ++ dp.
Proof.
  simpl. destruct (pending st !! i) as [k|] eqn:Hk; [|done]. simpl.
  destruct (deliver k rp) as [h|] eqn:Hd; [|done]. intros [= Hr].
  unfold run_handler in Hr. destruct (h (take_pending i k rp st)) as [e|[[] st1]] eqn:Eh; [done|].
  injection Hr as <-.
  destruct (deliver_grows _ _ _ Hd _ _ _ Eh) as (_ & [dp Hdp] & _). by exists dp.
Qed.

(** C29: A proxy whose metadata lists no revision ends the whole process:
    the exception of [reduce] escapes the callback, and the crashed
    process takes no further step, so the pending callbacks of every
    other proxy are lost. *)
Theorem empty_revisions_crash st i o p lm :
  pending st !! i = Some (KGetToPull o p) →
  step_fn (Running st) (Fire i (HttpReply (metadata_reply [] lm))) =
    Some (Crashed (TypeError "Reduce of empty array with no initial value")
            (take_pending i (KGetToPull o p) (HttpReply (metadata_reply [] lm)) st)) ∧
  ∀ w, rtc step (Crashed (TypeError "Reduce of empty array with no initial value")
                   (take_pending i (KGetToPull o p) (HttpReply (metadata_reply [] lm)) st)) w →
       w = Crashed (TypeError "Reduce of empty array with no initial value")
             (take_pending i (KGetToPull o p) (HttpReply (metadata_reply [] lm)) st).
Proof.
  intros Hk. split.
  - simpl. rewrite Hk. done.
  - intros w Hr. inversion Hr as [|? ? ? Hs]; [done|]. by apply crashed_final in Hs.
Qed.

(** ** The callback cascade terminates

    A callback only issues callbacks of a lower rank ([footprint]): a
    listing issues metadata requests, a metadata request issues an
    export, an import or an update, an import issues a deploy, and the
    last ones issue nothing.  Counting the pending callbacks of each
    rank, lexicographically from the highest, every [Fire] step lowers
    the count whatever the server replies. *)

Local Open Scope nat_scope.

Definition rank (k : cont) : nat :=
  match k with
  | KList _ | KGetToPush _ _ => 3
  | KGetToPull _ _ | KImport _ _ _ => 2
  | KExport _ _ _ | KUpdate _ _ _ | KDeploy _ _ _ | KZip _ => 1
  end.

Definition rank_count (r : nat) (ks : list cont) : nat :=
  length (filter (λ k, rank k = r) ks).

Definition cascade_measure (st : state) : nat * nat * nat :=
  (rank_count 3 (pending st), rank_count 2 (pending st), rank_count 1 (pending st)).

Definition lex3 (a b : nat * nat * nat) : Prop :=
  let '(a3, a2, a1) := a in
  let '(b3, b2, b1) := b in
  a3 < b3 ∨ (a3 = b3 ∧ (a2 < b2 ∨ (a2 = b2 ∧ a1 < b1))).

(** The callbacks that complete one after another, with no timer tick
    and no API call in between. *)
Definition fires (w w' : world) : Prop := ∃ i rp, step_fn w (Fire i rp) = Some w'.

Lemma rank_pos k : 1 ≤ rank k ≤ 3.
Proof. destruct k; simpl; lia. Qed.

Lemma footprint_rank k rp k' : footprint k rp k' → rank k' < rank k.
Proof.
  destruct k, rp; simpl; intros Hf; try done;
    repeat match goal with
      | H : ∃ _, _ |- _ => destruct H
      | H : _ ∧ _ |- _ => destruct H
      | H : _ ∨ _ |- _ => destruct H
      end; subst; simpl; lia.
Qed.

Lemma deliver_pends k rp h : deliver k rp = Some h → Preserves (pends (footprint k rp)) h.
Proof.
  destruct k, rp; simpl; intros [= <-]; try (solve_preserves; simpl; eauto; fail).
  unfold importProxy_cb. destruct (status_is 201 r) as [b|] eqn:Hr; solve_preserves.
  simpl. rewrite Hr. eauto.
Qed.

Lemma rank_count_app r l1 l2 : rank_count r (l1 ++ l2) = rank_count r l1 + rank_count r l2.
Proof. unfold rank_count. by rewrite filter_app, length_app. Qed.

Lemma rank_count_delete r l i k :
  l !! i = Some k → rank_count r l = rank_count r (delete i l) + (if rank k =? r then 1 else 0).
Proof.
  unfold rank_count. induction l as [|k' l IH] in i |- *; [done|].
  destruct i as [|i]; simpl; intros Hi.
  - injection Hi as ->. rewrite filter_cons. case_decide as E; simpl.
    + rewrite E, Nat.eqb_refl. lia.
    + apply Nat.eqb_neq in E. rewrite E. lia.
  - rewrite !filter_cons. case_decide; simpl; rewrite (IH i Hi); lia.
Qed.

Lemma rank_count_footprint r k rp dp :
  Forall (footprint k rp) dp → rank k ≤ r → rank_count r dp = 0.
Proof.
  unfold rank_count. intros Hf Hr. induction Hf as [|k' dp Hk' _ IH]; [done|].
  rewrite filter_cons. apply footprint_rank in Hk'. case_decide; [lia | done].
Qed.

Lemma fire_pending st i rp st' :
  step_fn (Running st) (Fire i rp) = Some (Running st') →
  ∃ k dp, pending st !! i = Some k ∧ pending st' = delete i (pending st) ++ dp ∧
          Forall (footprint k rp) dp.
Proof.
  simpl. destruct (pending st !! i) as [k|] eqn:Hk; [|done]. simpl.
  destruct (deliver k rp) as [h|] eqn:Hd; [|done]. intros [= Hr].
  unfold run_handler in Hr. destruct (h (take_pending i k rp st)) as [e|[[] st1]] eqn:Eh; [done|].
  injection Hr as <-. destruct (deliver_pends _ _ _ Hd _ _ _ Eh) as [dp [Hdp Hf]].
  by exists k, dp.
Qed.

Lemma fire_lex st i rp st' :
  step_fn (Running st) (Fire i rp) = Some (Running st') →
  lex3 (cascade_measure st') (cascade_measure st).
Proof.
  intros (k & dp & Hk & Hp & Hf)%fire_pending. unfold cascade_measure, lex3.
  rewrite Hp, !rank_count_app.
  rewrite (rank_count_delete 3 _ _ _ Hk), (rank_count_delete 2 _ _ _ Hk),
    (rank_count_delete 1 _ _ _ Hk).
  pose proof (rank_count_footprint 3 _ _ _ Hf). pose proof (rank_count_footprint 2 _ _ _ Hf).
  pose proof (rank_count_footprint 1 _ _ _ Hf).
  destruct (rank_pos k) as [Hlo Hhi].
  destruct (rank k) as [|[|[|[|]]]]; simpl in *; lia.
Qed.

Lemma crashed_no_fire e st : Acc (λ w' w, fires w w') (Crashed e st).
Proof. constructor. by intros w' (i & rp & ?). Qed.

Lemma cascade_acc n3 n2 n1 st :
  cascade_measure st = (n3, n2, n1) → Acc (λ w' w, fires w w') (Running st).
Proof.
  revert n2 n1 st. induction n3 as [n3 IH3] using lt_wf_ind.
  intros n2. induction n2 as [n2 IH2] using lt_wf_ind.
  intros n1. induction n1 as [n1 IH1] using lt_wf_ind.
  intros st Hm. constructor. intros [st'|e st'] (i & rp & Hs); [|apply crashed_no_fire].
  pose proof (fire_lex _ _ _ _ Hs) as Hl. rewrite Hm in Hl.
  destruct (cascade_measure st') as [[m3 m2] m1] eqn:Hm'. simpl in Hl.
  destruct Hl as [Hl | [-> [Hl | [-> Hl]]]]; eauto.
Qed.

(** C10: The callbacks of the pipelines started so far complete in finitely
    many steps: from any world, every sequence of [Fire] steps is
    finite, whatever the server replies.  Only a timer tick or an API
    call starts new work. *)
Theorem callback_cascade_terminates : well_founded (λ w' w, fires w w').
Proof.
  intros [st|e st]; [|apply crashed_no_fire].
  destruct (cascade_measure st) as [[n3 n2] n1] eqn:Hm. by apply (cascade_acc n3 n2 n1).
Qed.

Local Open Scope Z_scope.

(** ** A continuous pull makes progress *)

Lemma count_exports_metadata p a o ps :
  count_exports p (ps ≫= check_request a o) = 0%nat.
Proof.
  induction ps as [|q ps IH]; [done|]. cbn [mbind list_bind]. rewrite count_exports_app, IH.
  unfold check_request, verbose_log. by destruct (verbose a).
Qed.

Lemma tick_pull st :
  timer st = true → is_all (args st) = false →
  step_fn (Running st) Tick =
    Some (Running (mk_state (data st) (args st) (subdirs st)
                    (pending st ++ (KGetToPull (org (args st)) <$> proxy (args st))) (timer st)
                    (trace st ++ (proxy (args st) ≫= check_request (args st) (org (args st)))))).
Proof. intros Ht Ha. simpl. rewrite Ht. unfold run_handler. rewrite pull_not_all by done. rewrite pullProxies_run. by rewrite Ht. Qed.

(** C11: Liveness of the poll: while the timer is registered, one tick
    followed by the metadata reply for the [j]-th proxy [p] of the
    worklist, newer than the stamp recorded for [p], requests the export
    of [p] and records the new stamp.  The reply may come while older
    callbacks are still pending. *)
Theorem continuous_pull_progress st j p revs lm lr :
  timer st = true → is_all (args st) = false → proxy (args st) !! j = Some p →
  ordinary_name p → ¬ stamp_ge p lm (data st) → getMaxRevision revs = inr lr →
  ∃ st', run_sched (Running st)
           [Tick; Fire (length (pending st) + j) (HttpReply (metadata_reply revs lm))] =
           Some (Running st') ∧
         count_exports p (trace st') = S (count_exports p (trace st)) ∧
         stamp_ge p lm (data st').
Proof.
  intros Ht Ha Hj Hp Hn Hm. cbn [run_sched]. rewrite tick_pull by done. cbn [mbind option_bind step_fn pending].
  rewrite lookup_app_r by lia. replace (length (pending st) + j - length (pending st))%nat with j by lia.
  rewrite list_lookup_fmap, Hj. cbn [fmap option_fmap option_map mbind option_bind deliver].
  unfold run_handler. rewrite getProxyToPull_cb_metadata, Hm.
  cbn [data take_pending with_trace with_pending]. rewrite stamp_ge_not_shouldExport by done.
  unfold export_state.
  eexists. split; [reflexivity|]. unfold take_pending. cbn [trace data with_trace with_pending]. split.
  - rewrite !count_exports_app, count_exports_metadata, count_exports_log, count_exports_effects.
    unfold count_exports at 2. rewrite count_if_cons, count_if_nil. simpl. lia.
  - exists (mk_record p lr lm). split; [apply record_lookup_eq | simpl; lia].
Qed.

(** ** Witnesses *)

(** [edgeci pull -o acme -p hello -d out -c -i 30] *)
Definition cli_pull_args : Config.args :=
  mk_args (Some "pull") "acme" ["hello"] (Some "out") true (Some 30) None false None
    (Some "u") (Some "pw") false false.

(** Three poll ticks, each answered with the same metadata. *)
Definition three_polls : list sched :=
  [Tick; Fire 0 (HttpReply (metadata_reply [JNum 1; JNum 2] 1700));
   Tick; Fire 1 (HttpReply (metadata_reply [JNum 1; JNum 2] 1700));
   Tick; Fire 1 (HttpReply (metadata_reply [JNum 2] 1700))].

Lemma pull_exports_once_witness :
  let w := start cli_pull_args (λ _, None) in
  ordinary_name "hello" ∧ run_sched w three_polls = Some (run_or_stay w three_polls) ∧
  run_fixed "hello" 1700 w three_polls = true ∧
  (count_exports "hello" (trace (state_of (run_or_stay w three_polls)))
     ≤ S (count_exports "hello" (trace (state_of w))))%nat ∧
  count_exports "hello" (trace (state_of (run_or_stay w three_polls))) = 1%nat.
Proof.
  intros w.
  assert (H1 : ordinary_name "hello") by (apply (bool_decide_unpack _); vm_compute; reflexivity).
  assert (H2 : run_sched w three_polls = Some (run_or_stay w three_polls)) by (vm_compute; reflexivity).
  assert (H3 : run_fixed "hello" 1700 w three_polls = true) by (vm_compute; reflexivity).
  split_and!; [exact H1 | exact H2 | exact H3 | apply (pull_exports_once _ _ _ _ _ H1 H2 H3) |].
  vm_compute. reflexivity.
Defined.

(** [edgeci push -o acme -p hello -s src -e prod] *)
Definition cli_push_args : Config.args :=
  mk_args (Some "push") "acme" ["hello"] None false None (Some "src") false (Some "prod")
    (Some "u") (Some "pw") false false.

(** The metadata request fails (a new proxy), the import succeeds, and
    the deploy follows. *)
Definition push_new_proxy : list sched :=
  [Fire 1 (HttpReply RError); Fire 1 (HttpReply (RStatus 201 BInvalid))].

Lemma deploy_only_after_import_witness :
  let w0 := start cli_push_args (λ _, None) in
  rtc step w0 (run_or_stay w0 push_new_proxy) ∧
  deploy_justified (trace (state_of (run_or_stay w0 push_new_proxy))) ∧
  KDeploy "acme" "hello" (JNum 1) ∈ pending (state_of (run_or_stay w0 push_new_proxy)).
Proof.
  intros w0. assert (H : rtc step w0 (run_or_stay w0 push_new_proxy))
    by (apply (run_sched_rtc _ push_new_proxy); vm_compute; reflexivity).
  split_and!; [exact H | exact (deploy_only_after_import _ _ _ H) |].
  apply (bool_decide_unpack _). vm_compute. reflexivity.
Defined.

(** An older stamp arriving after a newer one leaves the record at the
    newer stamp. *)
Lemma records_monotone_witness :
  let w1 := run_or_stay (start cli_pull_args (λ _, None))
              [Tick; Fire 0 (HttpReply (metadata_reply [JNum 2] 1700))] in
  let evs := [Tick; Fire 1 (HttpReply (metadata_reply [JNum 1] 1600))] in
  rtc step w1 (run_or_stay w1 evs) ∧
  data_le (data (state_of w1)) (data (state_of (run_or_stay w1 evs))) ∧
  data (state_of (run_or_stay w1 evs)) !! "hello" = Some (mk_record "hello" (JNum 2) 1700).
Proof.
  intros w1 evs. assert (H : rtc step w1 (run_or_stay w1 evs))
    by (apply (run_sched_rtc _ evs); vm_compute; reflexivity).
  split_and!; [exact H | exact (records_monotone _ _ H) | vm_compute; reflexivity].
Defined.

Lemma records_well_formed_witness :
  let w0 := start cli_pull_args (λ _, None) in
  rtc step w0 (run_or_stay w0 three_polls) ∧
  data_wf (data (state_of (run_or_stay w0 three_polls))).
Proof.
  intros w0. assert (H : rtc step w0 (run_or_stay w0 three_polls))
    by (apply (run_sched_rtc _ three_polls); vm_compute; reflexivity).
  split; [exact H | exact (records_well_formed _ _ _ H)].
Defined.

Lemma continuous_pull_waits_witness :
  command cli_pull_args = Some "pull" ∧ continuous cli_pull_args = true ∧
  start cli_pull_args (λ _, None) =
    Running (mk_state ∅ cli_pull_args (λ _, None) [] true [ESetInterval (JNum 30000)]).
Proof.
  assert (H1 : command cli_pull_args = Some "pull") by reflexivity.
  assert (H2 : continuous cli_pull_args = true) by reflexivity.
  split_and!; [exact H1 | exact H2 | exact (continuous_pull_waits _ _ H1 H2)].
Defined.

(** The continuous pull of "hello" right after it starts: the first
    tick and a metadata reply exports "hello". *)
Definition polling_state : state :=
  mk_state ∅ cli_pull_args (λ _, None) [] true [ESetInterval (JNum 30000)].

Lemma continuous_pull_progress_witness :
  timer polling_state = true ∧ is_all (args polling_state) = false ∧
  proxy (args polling_state) !! 0%nat = Some "hello" ∧ ordinary_name "hello" ∧
  ¬ stamp_ge "hello" 1700 (data polling_state) ∧
  getMaxRevision [JNum 1; JNum 2] = inr (JNum 2) ∧
  ∃ st', run_sched (Running polling_state)
           [Tick; Fire (length (pending polling_state) + 0)
                    (HttpReply (metadata_reply [JNum 1; JNum 2] 1700))] = Some (Running st') ∧
         count_exports "hello" (trace st') = S (count_exports "hello" (trace polling_state)) ∧
         stamp_ge "hello" 1700 (data st').
Proof.
  assert (H1 : timer polling_state = true) by reflexivity.
  assert (H2 : is_all (args polling_state) = false) by (vm_compute; reflexivity).
  assert (H3 : proxy (args polling_state) !! 0%nat = Some "hello") by reflexivity.
  assert (H4 : ordinary_name "hello") by (apply (bool_decide_unpack _); vm_compute; reflexivity).
  assert (H5 : ¬ stamp_ge "hello" 1700 (data polling_state)).
  { intros [r [Hr _]]. vm_compute in Hr. discriminate Hr. }
  assert (H6 : getMaxRevision [JNum 1; JNum 2] = inr (JNum 2)) by (vm_compute; reflexivity).
  split_and!; [exact H1 | exact H2 | exact H3 | exact H4 | exact H5 | exact H6 |].
  exact (continuous_pull_progress _ _ _ _ _ _ H1 H2 H3 H4 H5 H6).
Defined.

Lemma pushWithArgs_pulls_witness :
  let st := init_state cli_push_args (λ _, None) in
  head ["hello"] ≠ Some "all" ∧
  pushWithArgs (Some "u") (Some "pw") "acme" ["hello"] (Some "src") false (Some "prod") st =
    inr (tt, mk_state ∅ (pushWithArgs_args (Some "u") (Some "pw") "acme" ["hello"] (Some "src") false (Some "prod"))
               (λ _, None) [KGetToPull "acme" "hello"] false
               [metadata_request (pushWithArgs_args (Some "u") (Some "pw") "acme" ["hello"] (Some "src") false (Some "prod")) "acme" "hello"]).
Proof.
  intros st. assert (H : head ["hello"] ≠ Some "all") by discriminate.
  split; [exact H | exact (pushWithArgs_pulls st _ _ _ _ _ _ _ H)].
Defined.

(** [pullWithArgs] with [continuous = true] and an interval of 30
    seconds still registers no timer. *)
Lemma pullWithArgs_never_polls_witness :
  let st := init_state cli_pull_args (λ _, None) in
  head ["hello"] ≠ Some "all" ∧
  pullWithArgs (Some "u") (Some "pw") "acme" ["hello"] (Some "out") true (Some 30) st =
    inr (tt, mk_state ∅ (pullWithArgs_args (Some "u") (Some "pw") "acme" ["hello"] (Some "out") true (Some 30))
               (λ _, None) [KGetToPull "acme" "hello"] false
               [metadata_request (pullWithArgs_args (Some "u") (Some "pw") "acme" ["hello"] (Some "out") true (Some 30)) "acme" "hello"]).
Proof.
  intros st. assert (H : head ["hello"] ≠ Some "all") by discriminate.
  split; [exact H | exact (pullWithArgs_never_polls st _ _ _ _ _ _ _ H)].
Defined.

Lemma pushWithArgs_export_path_witness :
  let a := pushWithArgs_args (Some "u") (Some "pw") "acme" ["hello"] (Some "src") false (Some "prod") in
  let st := init_state a (λ _, None) in
  args st = a ∧ getMaxRevision [JNum 4] = inr (JNum 4) ∧ shouldExport (data st) "hello" 1700 = true ∧
  ∃ st', getProxyToPull_cb "acme" "hello" (metadata_reply [JNum 4] 1700) st = inr (tt, st') ∧
    trace st' = [ELog "Exporting proxy hello revision 4"; ERimraf "undefined/hello";
                 ERequest (exportOptions a "acme" "hello" (JNum 4)) (KExport "acme" "hello" (JNum 4));
                 EExtract "undefined/hello"].
Proof.
  intros a st. assert (H1 : args st = a) by reflexivity.
  assert (H2 : getMaxRevision [JNum 4] = inr (JNum 4)) by reflexivity.
  assert (H3 : shouldExport (data st) "hello" 1700 = true) by (vm_compute; reflexivity).
  split_and!; [exact H1 | exact H2 | exact H3 | exact (pushWithArgs_export_path _ _ _ _ _ _ _ _ _ _ _ _ _ H1 H2 H3)].
Defined.

Lemma fire_keeps_other_callbacks_witness :
  let w1 := run_or_stay (start cli_push_args (λ _, None)) [Fire 1 (HttpReply RError)] in
  step_fn w1 (Fire 1 (HttpReply (RStatus 500 BInvalid))) = Some (Running (state_of (run_or_stay w1 [Fire 1 (HttpReply (RStatus 500 BInvalid))]))) ∧
  w1 = Running (state_of w1) ∧
  ∃ dp, pending (state_of (run_or_stay w1 [Fire 1 (HttpReply (RStatus 500 BInvalid))])) = delete 1%nat (pending (state_of w1)) ++ dp.
Proof.
  intros w1. assert (H1 : w1 = Running (state_of w1)) by (vm_compute; reflexivity).
  assert (H2 : step_fn (Running (state_of w1)) (Fire 1 (HttpReply (RStatus 500 BInvalid))) =
    Some (Running (state_of (run_or_stay w1 [Fire 1 (HttpReply (RStatus 500 BInvalid))])))) by (vm_compute; reflexivity).
  split_and!; [rewrite H1 at 1; exact H2 | exact H1 | exact (fire_keeps_other_callbacks _ _ _ _ H2)].
Defined.

Lemma empty_revisions_crash_witness :
  let st := state_of (run_or_stay (start cli_pull_args (λ _, None)) [Tick]) in
  pending st !! 0%nat = Some (KGetToPull "acme" "hello") ∧
  step_fn (Running st) (Fire 0 (HttpReply (metadata_reply [] 1700))) =
    Some (Crashed (TypeError "Reduce of empty array with no initial value")
            (take_pending 0 (KGetToPull "acme" "hello") (HttpReply (metadata_reply [] 1700)) st)).
Proof.
  intros st. assert (H : pending st !! 0%nat = Some (KGetToPull "acme" "hello")) by (vm_compute; reflexivity).
  split; [exact H | exact (proj1 (empty_revisions_crash _ _ _ _ _ H))].
Defined.

Lemma push_imports_before_zip_witness :
  command cli_push_args = Some "push" ∧ proxy cli_push_args = ["hello"] ∧ "hello" ≠ "all" ∧
  status_is 200 RError = None ∧
  run_sched (start cli_push_args (λ _, None)) [Fire 1 (HttpReply RError)] =
    Some (Running (mk_state ∅ cli_push_args (λ _, None) [KZip "hello"; KImport "acme" "hello" (JNum 1)] false
      [ERimraf "src/hello.zip"; EZip "src/hello" "src/hello.zip";
       ERequest (apiOptions cli_push_args "acme" "hello") (KGetToPush "acme" "hello");
       EComplete (KGetToPush "acme" "hello") (HttpReply RError);
       ELog "Importing new proxy hello";
       ERequest (importOptions cli_push_args "acme" "hello") (KImport "acme" "hello" (JNum 1))])).
Proof.
  assert (H1 : command cli_push_args = Some "push") by reflexivity.
  assert (H2 : proxy cli_push_args = ["hello"]) by reflexivity.
  assert (H3 : "hello" ≠ "all") by discriminate.
  assert (H4 : status_is 200 RError = None) by reflexivity.
  split_and!; [exact H1 | exact H2 | exact H3 | exact H4 |].
  exact (push_imports_before_zip _ _ _ _ H1 H2 H3 H4).
Defined.

(** [edgeci -q push -o acme -p hello -s src -e prod] *)
Definition quiet_push_args : Config.args :=
  mk_args (Some "push") "acme" ["hello"] None false None (Some "src") false (Some "prod")
    (Some "u") (Some "pw") true false.

Lemma quite_push_console_witness :
  command quiet_push_args = Some "push" ∧ proxy quiet_push_args = ["hello"] ∧ "hello" ≠ "all" ∧
  quite quiet_push_args = true ∧ status_is 200 RError = None ∧
  ∃ st', run_sched (start quiet_push_args (λ _, None)) [Fire 1 (HttpReply RError); Fire 0 (ZipReply false)] =
           Some (Running st') ∧
    console (trace st') =
      (if verbose quiet_push_args then ["Checking proxy: " +:+ "hello"] else []) ++
      [if false then "Error zipping " +:+ "hello" else "Done zipping proxy " +:+ "hello"].
Proof.
  assert (H1 : command quiet_push_args = Some "push") by reflexivity.
  assert (H2 : proxy quiet_push_args = ["hello"]) by reflexivity.
  assert (H3 : "hello" ≠ "all") by discriminate.
  assert (H4 : quite quiet_push_args = true) by reflexivity.
  assert (H5 : status_is 200 RError = None) by reflexivity.
  split_and!; [exact H1 | exact H2 | exact H3 | exact H4 | exact H5 |].
  exact (quite_push_console _ _ _ _ false H1 H2 H3 H4 H5).
Defined.

(** [edgeci -q pull -o acme -p hello] whose metadata request gets a
    404: [--quite] does not silence the error report. *)
Definition quiet_pull_args : Config.args :=
  mk_args (Some "pull") "acme" ["hello"] (Some ".") false (Some 30) None false None
    (Some "u") (Some "pw") true false.

Definition quiet_pull_run : world :=
  run_or_stay (start quiet_pull_args (λ _, None)) [Fire 0 (HttpReply (RStatus 404 BInvalid))].

Lemma quiet_run_console_witness :
  quite quiet_pull_args = true ∧ verbose quiet_pull_args = false ∧
  rtc cli_step (start quiet_pull_args (λ _, None)) quiet_pull_run ∧
  Forall (λ m, quiet_line m = true) (console (trace (state_of quiet_pull_run))) ∧
  console (trace (state_of quiet_pull_run)) = ["Error while calling getAPI: "].
Proof.
  assert (H1 : quite quiet_pull_args = true) by reflexivity.
  assert (H2 : verbose quiet_pull_args = false) by reflexivity.
  assert (H3 : rtc cli_step (start quiet_pull_args (λ _, None)) quiet_pull_run).
  { apply rtc_once, (cli_fire _ 0 (HttpReply (RStatus 404 BInvalid))). vm_compute. reflexivity. }
  split_and!; [exact H1 | exact H2 | exact H3 | exact (quiet_run_console _ _ _ H1 H2 H3) |].
  vm_compute. reflexivity.
Defined.

End EventLoop.
