(* ===== verification/Cli.v ===== *)
(** The command line of src/edgeci.js: the option table [parseArgs]
    gives argparse (lines 12-34, with [addPullArgs] 36-57 and
    [addPushArgs] 59-80), the [args] object it produces, and
    [execute()] (lines 82-85), which parses the command line and then
    runs [runCommand].

    The option table is data: [edgeci_parser] lists the arguments in
    the order the code adds them, each built by [addArgument] from its
    option strings and its options object.  [ArgParse.parse_args] gives
    argparse's meaning to it, and [args_of_namespace] reads the parsed
    namespace the way the program reads [args]. *)

From S2P Require Import Prelude JsValue Config Runtime EventLoop ArgParse.
From Stdlib Require Import Ascii.

Local Open Scope Z_scope.

Module Cli.
Import Config Runtime EventLoop ArgParse.

(** ** The option table *)

(** [parser.addArgument(['-q', '--quite'], {action: 'storeTrue'})] *)
Definition opt_quite : argument :=
  addArgument ["-q"; "--quite"]
    {| o_action := StoreTrue; o_required := false; o_nargs := NOne; o_type := TString;
       o_defaultValue := None |}.

(** [parser.addArgument(['-V', '--verbose'], {action: 'storeTrue'})] *)
Definition opt_verbose : argument :=
  addArgument ["-V"; "--verbose"]
    {| o_action := StoreTrue; o_required := false; o_nargs := NOne; o_type := TString;
       o_defaultValue := None |}.

(** [['-o', '--org'], {action: 'store', required: true}] of [pull] *)
Definition pull_org : argument :=
  addArgument ["-o"; "--org"]
    {| o_action := Store; o_required := true; o_nargs := NOne; o_type := TString;
       o_defaultValue := None |}.

(** [['-p', '--proxy'], {action: 'store', required: true, nargs: '*'}] *)
Definition pull_proxy : argument :=
  addArgument ["-p"; "--proxy"]
    {| o_action := Store; o_required := true; o_nargs := NStar; o_type := TString;
       o_defaultValue := None |}.

(** [['-d', '--destination'], {action: 'store', defaultValue: "."}] *)
Definition pull_destination : argument :=
  addArgument ["-d"; "--destination"]
    {| o_action := Store; o_required := false; o_nargs := NOne; o_type := TString;
       o_defaultValue := Some (VAtom (AStr ".")) |}.

(** [['-c', '--continuous'], {action: 'storeTrue'}] *)
Definition pull_continuous : argument :=
  addArgument ["-c"; "--continuous"]
    {| o_action := StoreTrue; o_required := false; o_nargs := NOne; o_type := TString;
       o_defaultValue := None |}.

(** [['-i', '--interval'], {action: 'store', type: 'int', defaultValue: 30}] *)
Definition pull_interval : argument :=
  addArgument ["-i"; "--interval"]
    {| o_action := Store; o_required := false; o_nargs := NOne; o_type := TInt;
       o_defaultValue := Some (VAtom (AInt 30)) |}.

(** [addPullArgs(pullCommand)] *)
Definition addPullArgs (pullCommand : list argument) : list argument :=
  pullCommand ++ [pull_org; pull_proxy; pull_destination; pull_continuous; pull_interval].

(** [['-o', '--org'], {action: 'store', required: true}] of [push] *)
Definition push_org : argument :=
  addArgument ["-o"; "--org"]
    {| o_action := Store; o_required := true; o_nargs := NOne; o_type := TString;
       o_defaultValue := None |}.

(** [['-p', '--proxy'], {action: 'store', required: true, nargs: '*'}] *)
Definition push_proxy : argument :=
  addArgument ["-p"; "--proxy"]
    {| o_action := Store; o_required := true; o_nargs := NStar; o_type := TString;
       o_defaultValue := None |}.

(** [['-s', '--source'], {action: 'store', defaultValue: "."}] *)
Definition push_source : argument :=
  addArgument ["-s"; "--source"]
    {| o_action := Store; o_required := false; o_nargs := NOne; o_type := TString;
       o_defaultValue := Some (VAtom (AStr ".")) |}.

(** [['-u', '--update'], {action: 'storeTrue'}] *)
Definition push_update : argument :=
  addArgument ["-u"; "--update"]
    {| o_action := StoreTrue; o_required := false; o_nargs := NOne; o_type := TString;
       o_defaultValue := None |}.

(** [['-e', '--env'], {action: 'store'}]: no default, so [null] *)
Definition push_env : argument :=
  addArgument ["-e"; "--env"]
    {| o_action := Store; o_required := false; o_nargs := NOne; o_type := TString;
       o_defaultValue := None |}.

(** [addPushArgs(pushCommand)] *)
Definition addPushArgs (pushCommand : list argument) : list argument :=
  pushCommand ++ [push_org; push_proxy; push_source; push_update; push_env].

(** The parser of [parseArgs]: [new ArgumentParser({version: '0.0.1',
    addHelp: true})], the flags [-q/--quite] and [-V/--verbose], and the
    subcommands [pull] and [push] under [dest: "command"], each made
    with [addHelp: true]. *)
Definition edgeci_parser : parser :=
  mk_parser (new_parser (Some "0.0.1") true ++ [opt_quite; opt_verbose]) "command"
    [("pull", addPullArgs (new_parser None true));
     ("push", addPushArgs (new_parser None true))].

(** ** The [args] object *)

Definition ns_string (ns : namespace) (k : string) : option string :=
  match ns !! k with Some (VAtom (AStr s)) => Some s | _ => None end.

Definition ns_int (ns : namespace) (k : string) : option Z :=
  match ns !! k with Some (VAtom (AInt z)) => Some z | _ => None end.

Definition ns_flag (ns : namespace) (k : string) : bool :=
  match ns !! k with Some (VBool b) => b | _ => false end.

Definition ns_strings (ns : namespace) (k : string) : list string :=
  match ns !! k with
  | Some (VList xs) => omap (λ x, match x with AStr s => Some s | AInt _ => None end) xs
  | _ => []
  end.

(** The namespace as the program reads it: a property that is absent
    or [null] is undefined. *)
Definition args_of_namespace (ns : namespace) (user pass : option string) : Config.args :=
  mk_args (ns_string ns "command") (str_of (ns_string ns "org")) (ns_strings ns "proxy")
    (ns_string ns "destination") (ns_flag ns "continuous") (ns_int ns "interval")
    (ns_string ns "source") (ns_flag ns "update") (ns_string ns "env")
    user pass (ns_flag ns "quite") (ns_flag ns "verbose").

(** [parseArgs()]: [args = parser.parseArgs()] on the command line
    [argv], then [args.username] and [args.password] from
    [process.env.EDGE_USERNAME] and [process.env.EDGE_PASSWORD]. *)
Definition parseArgs (argv : list string) (EDGE_USERNAME EDGE_PASSWORD : option string)
    : stop + Config.args :=
  ns ← parse_args edgeci_parser argv;
  inr (args_of_namespace ns EDGE_USERNAME EDGE_PASSWORD).

(** ** [execute()] *)

Inductive outcome :=
| Exit (status : Z)        (** argparse printed a message and exited *)
| Runs (w : world)         (** [runCommand] ran; the event loop goes on from [w] *)
| Unmodelled.              (** a command line with the [--] separator *)

(** [execute()]: [parseArgs(); runCommand();].  A usage error exits
    with status 2, [--help] and [--version] with status 0. *)
Definition execute (argv : list string) (EDGE_USERNAME EDGE_PASSWORD : option string)
    (dirs : string → option (list string)) : outcome :=
  match parseArgs argv EDGE_USERNAME EDGE_PASSWORD with
  | inr a => Runs (start a dirs)
  | inl (SError _) => Exit 2
  | inl SHelp | inl SVersion => Exit 0
  | inl SUnsupported | inl SOutOfFuel => Unmodelled
  end.

(** ** The shape of [args] after [parseArgs] *)

(** The destinations of [edgeci pull] and their types. *)
Definition pull_schema : list (string * ty) :=
  [("command", TyStr); ("quite", TyBool); ("verbose", TyBool); ("org", TyStr);
   ("proxy", TyStrs); ("destination", TyStr); ("continuous", TyBool); ("interval", TyInt)].

(** The destinations of [edgeci push]: [--env] has no default, so it
    may be [null]. *)
Definition push_schema : list (string * ty) :=
  [("command", TyStr); ("quite", TyBool); ("verbose", TyBool); ("org", TyStr);
   ("proxy", TyStrs); ("source", TyStr); ("update", TyBool); ("env", TyOpt TyStr)].

Lemma edgeci_parser_wf : wf_parser edgeci_parser.
Proof. apply (bool_decide_unpack _). vm_compute. reflexivity. Qed.

Lemma lookup_command_edgeci name sp :
  lookup_command edgeci_parser name = Some sp →
  (name = "pull" ∧ sp = addPullArgs (new_parser None true)) ∨
  (name = "push" ∧ sp = addPushArgs (new_parser None true)).
Proof.
  unfold lookup_command. cbn -[addPullArgs addPushArgs new_parser].
  repeat case_bool_decide; intros Hs; simplify_eq/=; auto.
Qed.

Lemma conforms_lookup ns sch k t :
  conforms ns sch → (k, t) ∈ sch → ∃ v, ns !! k = Some v ∧ has_ty v t = true.
Proof. intros [_ H] Hk. rewrite Forall_forall in H. exact (H (k, t) Hk). Qed.

Lemma conforms_absent ns sch k : conforms ns sch → k ∉ fst <$> sch → ns !! k = None.
Proof.
  intros [Hd _] Hk. apply not_elem_of_dom. rewrite Hd, elem_of_list_to_set. done.
Qed.

Lemma pull_schema_eq :
  (command_dest edgeci_parser, TyStr) ::
    schema (main_args edgeci_parser ++ addPullArgs (new_parser None true)) = pull_schema.
Proof. reflexivity. Qed.

Lemma push_schema_eq :
  (command_dest edgeci_parser, TyStr) ::
    schema (main_args edgeci_parser ++ addPushArgs (new_parser None true)) = push_schema.
Proof. reflexivity. Qed.

(** The namespace [parser.parseArgs()] returns has exactly the
    properties of the [pull] or of the [push] subcommand, each of the
    type the program reads it at. *)
Lemma parseArgs_namespace_typed argv ns :
  parse_args edgeci_parser argv = inr ns →
  (ns !! "command" = Some (VAtom (AStr "pull")) ∧ conforms ns pull_schema) ∨
  (ns !! "command" = Some (VAtom (AStr "push")) ∧ conforms ns push_schema).
Proof.
  intros H. destruct (parse_args_conforms _ edgeci_parser_wf _ _ H) as (name & sp & Hl & Hc & Hconf).
  apply lookup_command_edgeci in Hl as [[-> ->]|[-> ->]].
  - left. by rewrite <-pull_schema_eq.
  - right. by rewrite <-push_schema_eq.
Qed.

Lemma ns_string_typed ns sch k :
  conforms ns sch → (k, TyStr) ∈ sch → is_Some (ns_string ns k).
Proof.
  intros Hc Hk. destruct (conforms_lookup _ _ _ _ Hc Hk) as ([[s|]| | |] & Hv & Ht); try done.
  unfold ns_string. rewrite Hv. by eexists.
Qed.

Lemma ns_int_typed ns sch k :
  conforms ns sch → (k, TyInt) ∈ sch → is_Some (ns_int ns k).
Proof.
  intros Hc Hk. destruct (conforms_lookup _ _ _ _ Hc Hk) as ([[|z]| | |] & Hv & Ht); try done.
  unfold ns_int. rewrite Hv. by eexists.
Qed.

Ltac absent_key H k :=
  let E := fresh in
  assert (E : _ !! k = None) by (apply (conforms_absent _ _ _ H); vm_compute; set_solver);
  unfold ns_string, ns_int, ns_flag; rewrite E.

(** C8: The [args] object [parseArgs] produces, when argparse accepts
    the command line, is the one of [pull] or of [push]: a pull always
    has a destination and an interval (they have defaults), and no
    source, update or env; a push always has a source, and no
    destination, interval or continuous flag. *)
Theorem parseArgs_shape argv u pw a :
  parseArgs argv u pw = inr a →
  (command a = Some "pull" ∧ is_Some (destination a) ∧ is_Some (interval a) ∧
     source a = None ∧ update a = false ∧ env a = None) ∨
  (command a = Some "push" ∧ is_Some (source a) ∧ destination a = None ∧
     interval a = None ∧ continuous a = false).
Proof.
  unfold parseArgs. sum_simpl. destruct (parse_args _ argv) as [|ns] eqn:E; [done|].
  intros [= <-]. apply parseArgs_namespace_typed in E as [[Hcmd Hc]|[Hcmd Hc]].
  - left. cbn [command destination interval source update env args_of_namespace].
    split_and!.
    + unfold ns_string. by rewrite Hcmd.
    + apply (ns_string_typed _ _ _ Hc). vm_compute. set_solver.
    + apply (ns_int_typed _ _ _ Hc). vm_compute. set_solver.
    + absent_key Hc "source". done.
    + absent_key Hc "update". done.
    + absent_key Hc "env". done.
  - right. cbn [command destination interval source continuous args_of_namespace].
    split_and!.
    + unfold ns_string. by rewrite Hcmd.
    + apply (ns_string_typed _ _ _ Hc). vm_compute. set_solver.
    + absent_key Hc "destination". done.
    + absent_key Hc "interval". done.
    + absent_key Hc "continuous". done.
Qed.

(** ** Printing a command line and reading it back *)

Definition flag (b : bool) (opt : string) : list string := if b then [opt] else [].

(** The arguments of [edgeci pull], written out in full. *)
Definition pull_tokens (org : string) (proxies : list string) (destination : string)
    (continuous : bool) (interval : Z) : list string :=
  ["--org"; org; "--proxy"] ++ proxies ++
  ["--destination"; destination; "--interval"; pretty interval] ++
  flag continuous "--continuous".

(** The command line of [edgeci pull] with every option written out. *)
Definition render_pull (quite verbose : bool) (org : string) (proxies : list string)
    (destination : string) (continuous : bool) (interval : Z) : list string :=
  flag quite "--quite" ++ flag verbose "--verbose" ++
  "pull" :: pull_tokens org proxies destination continuous interval.

Local Abbreviation pull_parser := (addPullArgs (new_parser None true)).

Lemma classify_pull_tokens o ps d c i :
  plain o = true → Forall (λ s, plain s = true) ps → plain d = true →
  classify pull_parser (pull_tokens o ps d c i) =
    inr ([("--org", Some (OKnown pull_org "--org" None)); (o, None);
          ("--proxy", Some (OKnown pull_proxy "--proxy" None))] ++
         ((λ s, (s, None)) <$> ps) ++
         [("--destination", Some (OKnown pull_destination "--destination" None)); (d, None);
          ("--interval", Some (OKnown pull_interval "--interval" None)); (pretty i, None)] ++
         (if c then [("--continuous", Some (OKnown pull_continuous "--continuous" None))]
          else [])).
Proof.
  intros Ho Hps Hd. unfold pull_tokens. rewrite !classify_app, (classify_plain _ ps) by done.
  cbn [classify]. sum_simpl.
  rewrite (parse_optional_plain _ o), (parse_optional_plain _ d), (parse_optional_pretty _ i)
    by (done || reflexivity).
  destruct c; reflexivity.
Qed.

Lemma classify_main_pull_tokens o ps d c i :
  plain o = true → Forall (λ s, plain s = true) ps → plain d = true →
  ∃ ts, classify (main_args edgeci_parser) (pull_tokens o ps d c i) = inr ts.
Proof.
  intros Ho Hps Hd. unfold pull_tokens. rewrite !classify_app, (classify_plain _ ps) by done.
  cbn [classify]. sum_simpl.
  rewrite (parse_optional_plain _ o), (parse_optional_plain _ d), (parse_optional_pretty _ i)
    by (done || reflexivity).
  destruct c; by eexists.
Qed.

Lemma convert_pull_interval i : convert pull_interval (pretty i) = inr (AInt i).
Proof. unfold convert. cbn [arg_type pull_interval addArgument]. by rewrite parseInt_pretty. Qed.

(** The [pull] subparser on its written-out arguments stores each of
    them and leaves nothing over. *)
Lemma pull_tokens_run o ps d c i ns :
  plain o = true → Forall (λ s, plain s = true) ps → plain d = true →
  parse_known_args (S (length (pull_tokens o ps d c i))) pull_parser (pull_tokens o ps d c i) ns =
  inr ((if c then <["continuous" := VBool true]> else id)
         (<["interval" := VAtom (AInt i)]>
           (<["destination" := VAtom (AStr d)]>
             (<["proxy" := VList (AStr <$> ps)]>
               (<["org" := VAtom (AStr o)]> (set_defaults pull_parser ns))))), []).
Proof.
  intros Ho Hps Hd.
  rewrite (parse_known_args_all _ _ _ _ (classify_pull_tokens o ps d c i Ho Hps Hd)).
  cbn [app].
  rewrite consume_all_opt, (consume_optional_store1 _ _ _ _ _ _ _ (AStr o)) by reflexivity.
  sum_simpl.
  rewrite consume_all_opt, consume_optional_star by (reflexivity || by destruct c). sum_simpl.
  rewrite consume_all_opt, (consume_optional_store1 _ _ _ _ _ _ _ (AStr d)) by reflexivity.
  sum_simpl.
  rewrite consume_all_opt, (consume_optional_store1 _ _ _ _ _ _ _ (AInt i))
    by (reflexivity || apply convert_pull_interval).
  sum_simpl. destruct c.
  - rewrite consume_all_opt, consume_optional_flag by reflexivity. reflexivity.
  - reflexivity.
Qed.

Lemma plain_not_dashdash s : plain s = true → s ≠ "--".
Proof. by intros Hs ->. Qed.

Lemma pretty_not_dashdash (z : Z) : pretty z ≠ "--".
Proof.
  destruct (decide (0 ≤ z)%Z) as [Hz|Hz].
  - by apply plain_not_dashdash, plain_pretty_nonneg.
  - destruct z as [| |q]; [lia..|].
    destruct (pretty_pos_head q) as (c & rest & E & Hc & _).
    change (pretty (Z.neg q)) with (String "-"%char (pretty (Z.pos q))). rewrite E.
    destruct (digit_not_special c Hc) as [Hm _]. by intros [= -> _].
Qed.

Lemma render_pull_no_dashdash q v o ps d c i :
  plain o = true → Forall (λ s, plain s = true) ps → plain d = true →
  "--" ∉ render_pull q v o ps d c i.
Proof.
  intros Ho Hps Hd Hin.
  assert (Forall (λ s, s ≠ "--") (render_pull q v o ps d c i)) as Hf.
  { unfold render_pull, pull_tokens, flag.
    destruct q, v, c; simpl; repeat (rewrite Forall_app || rewrite Forall_cons); split_and!.
    all: first [done | by apply plain_not_dashdash | apply pretty_not_dashdash |
                eapply Forall_impl; [exact Hps|]; intros; by apply plain_not_dashdash]. }
  by eapply Forall_forall in Hf; [|exact Hin].
Qed.

Lemma omap_AStr (ps : list string) :
  omap (λ x, match x with AStr s => Some s | AInt _ => None end) (AStr <$> ps) = ps.
Proof. induction ps as [|s ps IH]; [done|]. simpl. f_equal. exact IH. Qed.

Lemma check_required_main seen : check_required (main_args edgeci_parser) seen = inr ().
Proof. reflexivity. Qed.

Definition set_flag (b : bool) (k : string) (ns : namespace) : namespace :=
  if b then <[k := VBool true]> ns else ns.

(** The pattern of the main parser's flags [--quite] and [--verbose]. *)
Definition flag_pattern (q v : bool) : pattern :=
  ((if q then [("--quite", Some (OKnown opt_quite "--quite" None))] else []) ++
   (if v then [("--verbose", Some (OKnown opt_verbose "--verbose" None))] else []))%list.

(** The main parser's flags before the subcommand. *)
Lemma consume_main_flags (q v : bool) ts ns extras :
  consume_main_all edgeci_parser (flag_pattern q v ++ ts)%list ns [] extras =
  consume_main_all edgeci_parser ts
    (set_flag v "verbose" (set_flag q "quite" ns))
    ((if v then [opt_verbose] else []) ++ (if q then [opt_quite] else []))%list extras.
Proof.
  destruct q, v; cbn [flag_pattern app];
    rewrite ?consume_main_all_opt, ?consume_optional_flag by reflexivity; reflexivity.
Qed.

Lemma consume_main_all_unknown P tok ts ns seen extras :
  consume_main_all P ((tok, Some OUnknown) :: ts) ns seen extras =
  consume_main_all P ts ns seen (extras ++ [tok]).
Proof. reflexivity. Qed.

(** The namespace after [pull] and its written-out arguments. *)
Definition pull_ns (o : string) (ps : list string) (d : string) (c : bool) (i : Z)
    (ns : namespace) : namespace :=
  set_flag c "continuous"
    (<["interval" := VAtom (AInt i)]>
      (<["destination" := VAtom (AStr d)]>
        (<["proxy" := VList (AStr <$> ps)]>
          (<["org" := VAtom (AStr o)]>
            (set_defaults pull_parser (<["command" := VAtom (AStr "pull")]> ns)))))).

(** The subcommand [pull] takes its arguments and leaves nothing over. *)
Lemma consume_main_pull o ps d c i ts ns seen extras :
  plain o = true → Forall (λ s, plain s = true) ps → plain d = true →
  classify (main_args edgeci_parser) (pull_tokens o ps d c i) = inr ts →
  consume_main_all edgeci_parser (("pull", None) :: ts) ns seen extras =
    inr (pull_ns o ps d c i ns, seen, extras, true).
Proof.
  intros Ho Hps Hd Hts. rewrite consume_main_all_cmd. sum_simpl.
  change (lookup_command edgeci_parser "pull") with (Some pull_parser).
  rewrite (classify_fst _ _ _ Hts), pull_tokens_run by done. sum_simpl.
  rewrite app_nil_r. by destruct c.
Qed.

Lemma args_of_pull_ns q v o ps d c i u pw :
  args_of_namespace
    (pull_ns o ps d c i (set_flag v "verbose" (set_flag q "quite"
       (<[command_dest edgeci_parser := VNull]> (set_defaults (main_args edgeci_parser) ∅)))))
    u pw = mk_args (Some "pull") o ps (Some d) c (Some i) None false None u pw q v.
Proof.
  destruct q, v, c; unfold args_of_namespace; f_equal; unfold ns_strings;
    match goal with |- context [?m !! "proxy"] =>
      replace (m !! "proxy") with (Some (VList (AStr <$> ps))) by reflexivity end;
    apply omap_AStr.
Qed.

Lemma classify_render_pull q v o ps d c i ts :
  classify (main_args edgeci_parser) (pull_tokens o ps d c i) = inr ts →
  classify (main_args edgeci_parser) (render_pull q v o ps d c i) =
    inr (flag_pattern q v ++ ("pull", None) :: ts)%list.
Proof.
  intros Hts. unfold render_pull. rewrite !classify_app. cbn [classify]. sum_simpl.
  rewrite Hts. destruct q, v; reflexivity.
Qed.

(** argparse's namespace for a printed pull command line. *)
Definition render_pull_ns (q v : bool) (o : string) (ps : list string) (d : string) (c : bool) (i : Z)
    : namespace :=
  pull_ns o ps d c i (set_flag v "verbose" (set_flag q "quite"
    (<[command_dest edgeci_parser := VNull]> (set_defaults (main_args edgeci_parser) ∅)))).

Lemma parse_args_render_pull q v o ps d c i :
  plain o = true → Forall (λ s, plain s = true) ps → plain d = true →
  parse_args edgeci_parser (render_pull q v o ps d c i) = inr (render_pull_ns q v o ps d c i).
Proof.
  intros Ho Hps Hd.
  destruct (classify_main_pull_tokens o ps d c i Ho Hps Hd) as [ts Hts].
  rewrite (parse_args_all _ _ _ (render_pull_no_dashdash q v o ps d c i Ho Hps Hd)
             (classify_render_pull q v o ps d c i ts Hts)).
  rewrite consume_main_flags, (consume_main_pull o ps d c i) by done. sum_simpl.
  by rewrite check_required_main.
Qed.

(** The arguments of [edgeci push], written out in full; [--env] only
    when an environment is given. *)
Definition push_tokens (org : string) (proxies : list string) (source : string)
    (update : bool) (env : option string) : list string :=
  ["--org"; org; "--proxy"] ++ proxies ++ ["--source"; source] ++ flag update "--update" ++
  match env with Some e => ["--env"; e] | None => [] end.

Definition render_push (quite verbose : bool) (org : string) (proxies : list string)
    (source : string) (update : bool) (env : option string) : list string :=
  flag quite "--quite" ++ flag verbose "--verbose" ++
  "push" :: push_tokens org proxies source update env.

Definition plain_opt (e : option string) : bool :=
  match e with Some x => plain x | None => true end.

Local Abbreviation push_parser := (addPushArgs (new_parser None true)).

Lemma classify_push_tokens o ps s u e :
  plain o = true → Forall (λ x, plain x = true) ps → plain s = true → plain_opt e = true →
  classify push_parser (push_tokens o ps s u e) =
    inr ([("--org", Some (OKnown push_org "--org" None)); (o, None);
          ("--proxy", Some (OKnown push_proxy "--proxy" None))] ++
         ((λ x, (x, None)) <$> ps) ++
         [("--source", Some (OKnown push_source "--source" None)); (s, None)] ++
         (if u then [("--update", Some (OKnown push_update "--update" None))] else []) ++
         match e with
         | Some x => [("--env", Some (OKnown push_env "--env" None)); (x, None)]
         | None => []
         end).
Proof.
  intros Ho Hps Hs He. unfold push_tokens. rewrite !classify_app, (classify_plain _ ps) by done.
  cbn [classify]. sum_simpl.
  rewrite (parse_optional_plain _ o), (parse_optional_plain _ s) by (done || reflexivity).
  destruct u, e as [x|]; cbn [flag classify]; sum_simpl;
    rewrite ?(parse_optional_plain _ x) by (done || reflexivity); reflexivity.
Qed.

Lemma classify_main_push_tokens o ps s u e :
  plain o = true → Forall (λ x, plain x = true) ps → plain s = true → plain_opt e = true →
  ∃ ts, classify (main_args edgeci_parser) (push_tokens o ps s u e) = inr ts.
Proof.
  intros Ho Hps Hs He. unfold push_tokens. rewrite !classify_app, (classify_plain _ ps) by done.
  cbn [classify]. sum_simpl.
  rewrite (parse_optional_plain _ o), (parse_optional_plain _ s) by (done || reflexivity).
  destruct u, e as [x|]; cbn [flag classify]; sum_simpl;
    rewrite ?(parse_optional_plain _ x) by (done || reflexivity); by eexists.
Qed.

(** The namespace after [push] and its written-out arguments. *)
Definition push_ns (o : string) (ps : list string) (s : string) (u : bool) (e : option string)
    (ns : namespace) : namespace :=
  (match e with Some x => <["env" := VAtom (AStr x)]> | None => id end)
    (set_flag u "update"
      (<["source" := VAtom (AStr s)]>
        (<["proxy" := VList (AStr <$> ps)]>
          (<["org" := VAtom (AStr o)]>
            (set_defaults push_parser (<["command" := VAtom (AStr "push")]> ns)))))).

Lemma push_tokens_run o ps s u e ns :
  plain o = true → Forall (λ x, plain x = true) ps → plain s = true → plain_opt e = true →
  parse_known_args (S (length (push_tokens o ps s u e))) push_parser (push_tokens o ps s u e) ns =
  inr ((match e with Some x => <["env" := VAtom (AStr x)]> | None => id end)
         (set_flag u "update"
           (<["source" := VAtom (AStr s)]>
             (<["proxy" := VList (AStr <$> ps)]>
               (<["org" := VAtom (AStr o)]> (set_defaults push_parser ns))))), []).
Proof.
  intros Ho Hps Hs He.
  rewrite (parse_known_args_all _ _ _ _ (classify_push_tokens o ps s u e Ho Hps Hs He)).
  destruct u, e as [x|]; cbn [app];
    rewrite consume_all_opt, (consume_optional_store1 _ _ _ _ _ _ _ (AStr o)) by reflexivity;
    sum_simpl; rewrite consume_all_opt, consume_optional_star by reflexivity; sum_simpl;
    rewrite consume_all_opt, (consume_optional_store1 _ _ _ _ _ _ _ (AStr s)) by reflexivity;
    sum_simpl.
  all: try (rewrite consume_all_opt, consume_optional_flag by reflexivity; sum_simpl).
  all: try (rewrite consume_all_opt, (consume_optional_store1 _ _ _ _ _ _ _ (AStr x)) by reflexivity;
            sum_simpl).
  all: reflexivity.
Qed.

Lemma consume_main_push o ps s u e ts ns seen extras :
  plain o = true → Forall (λ x, plain x = true) ps → plain s = true → plain_opt e = true →
  classify (main_args edgeci_parser) (push_tokens o ps s u e) = inr ts →
  consume_main_all edgeci_parser (("push", None) :: ts) ns seen extras =
    inr (push_ns o ps s u e ns, seen, extras, true).
Proof.
  intros Ho Hps Hs He Hts. rewrite consume_main_all_cmd. sum_simpl.
  change (lookup_command edgeci_parser "push") with (Some push_parser).
  rewrite (classify_fst _ _ _ Hts), push_tokens_run by done. sum_simpl.
  rewrite app_nil_r. reflexivity.
Qed.

Lemma args_of_push_ns q v o ps s upd e u pw :
  args_of_namespace
    (push_ns o ps s upd e (set_flag v "verbose" (set_flag q "quite"
       (<[command_dest edgeci_parser := VNull]> (set_defaults (main_args edgeci_parser) ∅)))))
    u pw = mk_args (Some "push") o ps None false None (Some s) upd e u pw q v.
Proof.
  destruct q, v, upd, e; unfold args_of_namespace; f_equal; unfold ns_strings;
    match goal with |- context [?m !! "proxy"] =>
      replace (m !! "proxy") with (Some (VList (AStr <$> ps))) by reflexivity end;
    apply omap_AStr.
Qed.

Lemma classify_render_push q v o ps s u e ts :
  classify (main_args edgeci_parser) (push_tokens o ps s u e) = inr ts →
  classify (main_args edgeci_parser) (render_push q v o ps s u e) =
    inr (flag_pattern q v ++ ("push", None) :: ts)%list.
Proof.
  intros Hts. unfold render_push. rewrite !classify_app. cbn [classify]. sum_simpl.
  rewrite Hts. destruct q, v; reflexivity.
Qed.

Lemma render_push_no_dashdash q v o ps s u e :
  plain o = true → Forall (λ x, plain x = true) ps → plain s = true → plain_opt e = true →
  "--" ∉ render_push q v o ps s u e.
Proof.
  intros Ho Hps Hs He Hin.
  assert (Forall (λ x, x ≠ "--") (render_push q v o ps s u e)) as Hf.
  { unfold render_push, push_tokens, flag.
    destruct q, v, u, e; simpl; repeat (rewrite Forall_app || rewrite Forall_cons); split_and!.
    all: first [done | by apply plain_not_dashdash |
                eapply Forall_impl; [exact Hps|]; intros; by apply plain_not_dashdash]. }
  by eapply Forall_forall in Hf; [|exact Hin].
Qed.

Lemma parse_args_render_push q v o ps s u e :
  plain o = true → Forall (λ x, plain x = true) ps → plain s = true → plain_opt e = true →
  parse_args edgeci_parser (render_push q v o ps s u e) =
    inr (push_ns o ps s u e (set_flag v "verbose" (set_flag q "quite"
       (<[command_dest edgeci_parser := VNull]> (set_defaults (main_args edgeci_parser) ∅))))).
Proof.
  intros Ho Hps Hs He.
  destruct (classify_main_push_tokens o ps s u e Ho Hps Hs He) as [ts Hts].
  rewrite (parse_args_all _ _ _ (render_push_no_dashdash q v o ps s u e Ho Hps Hs He)
             (classify_render_push q v o ps s u e ts Hts)).
  rewrite consume_main_flags, (consume_main_push o ps s u e) by done. sum_simpl.
  by rewrite check_required_main.
Qed.

(** C15: Printing the arguments of [edgeci push] as a command line and
    parsing it back gives them again: the same organization, proxy
    names in order, source directory and [--update] flag, the
    environment exactly when [--env] is given (no environment otherwise,
    so no deploy), no destination or interval, and the same [--quite]
    and [--verbose] flags.  The values must not start with a dash. *)
Theorem parseArgs_render_push q v o ps s upd e u pw :
  plain o = true → Forall (λ x, plain x = true) ps → plain s = true → plain_opt e = true →
  parseArgs (render_push q v o ps s upd e) u pw =
    inr (mk_args (Some "push") o ps None false None (Some s) upd e u pw q v).
Proof.
  intros Ho Hps Hs He. unfold parseArgs. rewrite parse_args_render_push by done. sum_simpl.
  apply (f_equal inr), args_of_push_ns.
Qed.

(** C9: Printing the arguments of [edgeci pull] as a command line and
    parsing it back gives them again: [parseArgs] on [render_pull]
    returns the [args] object with the same organization, the same
    proxy names in the same order (a name is never split, so
    [--proxy a,b] is the single proxy [a,b]), the same destination,
    continuous flag and interval, and the same [--quite] and
    [--verbose] flags, for every interval of at most 2^53 in absolute
    value.  (Beyond 2^53, JavaScript's [parseInt] returns the nearest
    double, which the model does not round to.)  The values must not
    start with a dash. *)
Theorem parseArgs_render_pull q v o ps d c i u pw :
  plain o = true → Forall (λ s, plain s = true) ps → plain d = true →
  (- 2 ^ 53 ≤ i ≤ 2 ^ 53)%Z →
  parseArgs (render_pull q v o ps d c i) u pw =
    inr (mk_args (Some "pull") o ps (Some d) c (Some i) None false None u pw q v).
Proof.
  intros Ho Hps Hd _. unfold parseArgs. rewrite parse_args_render_pull by done. sum_simpl.
  apply (f_equal inr), args_of_pull_ns.
Qed.

(** The fuel [parse_args] gives argparse's loops is enough: [parseArgs]
    never runs out of it (a consequence of [parse_args_regular], which
    holds for every parser). *)
Lemma parseArgs_terminates argv u pw : parseArgs argv u pw ≠ inl SOutOfFuel.
Proof.
  unfold parseArgs. sum_simpl. destruct (parse_args _ argv) as [s|] eqn:E; [|done].
  intros [= ->]. by apply parse_args_regular in E as [[]|].
Qed.

(** C13: The quiet flag the spec documents, [--quiet], is not an option
    of the program (it declares [--quite]), and it is not an
    abbreviation of one: a pull command line that starts with it is
    refused with a usage error naming it, whatever follows. *)
Theorem parseArgs_quiet_rejected v o ps d c i u pw :
  plain o = true → Forall (λ s, plain s = true) ps → plain d = true →
  parseArgs ("--quiet" :: render_pull false v o ps d c i) u pw =
    inl (SError (EUnrecognized ["--quiet"])).
Proof.
  intros Ho Hps Hd.
  destruct (classify_main_pull_tokens o ps d c i Ho Hps Hd) as [ts Hts].
  assert (Hc : classify (main_args edgeci_parser) ("--quiet" :: render_pull false v o ps d c i) =
    inr (("--quiet", Some OUnknown) :: flag_pattern false v ++ ("pull", None) :: ts)%list).
  { cbn [classify]. rewrite (classify_render_pull false v o ps d c i ts Hts). reflexivity. }
  assert (Hdd : "--" ∉ "--quiet" :: render_pull false v o ps d c i).
  { rewrite elem_of_cons. intros [?|Hin]; [done|exact (render_pull_no_dashdash false v o ps d c i Ho Hps Hd Hin)]. }
  unfold parseArgs. rewrite (parse_args_all _ _ _ Hdd Hc).
  rewrite consume_main_all_unknown, (consume_main_flags false), (consume_main_pull o ps d c i)
    by done.
  sum_simpl. by rewrite check_required_main.
Qed.

(** C14: [pull] without [--org] is refused: argparse reports the
    required option [-o/--org] and the program never starts. *)
Theorem parseArgs_missing_org ps u pw dirs :
  Forall (λ s, plain s = true) ps →
  parseArgs ("pull" :: "--proxy" :: ps) u pw = inl (SError (ERequired "-o/--org")) ∧
  execute ("pull" :: "--proxy" :: ps) u pw dirs = Exit 2.
Proof.
  intros Hps.
  assert (Hp : parseArgs ("pull" :: "--proxy" :: ps) u pw = inl (SError (ERequired "-o/--org"))).
  { assert (Hdd : "--" ∉ "pull" :: "--proxy" :: ps).
    { rewrite !elem_of_cons. intros [?|[?|Hin]]; [done|done|].
      eapply Forall_forall in Hps; [|exact Hin]. done. }
    assert (Hc : classify (main_args edgeci_parser) ("pull" :: "--proxy" :: ps) =
                 inr (("pull", None) :: ("--proxy", Some OUnknown) :: ((λ s, (s, None)) <$> ps))).
    { cbn [classify]. rewrite classify_plain by done. reflexivity. }
    unfold parseArgs. rewrite (parse_args_all _ _ _ Hdd Hc), consume_main_all_cmd.
    assert (fst <$> (("--proxy", Some OUnknown) :: ((λ s, (s, None)) <$> ps)) = "--proxy" :: ps)
      as -> by (cbn; f_equal; by rewrite <-list_fmap_compose, list_fmap_id).
    sum_simpl. change (lookup_command edgeci_parser "pull") with (Some pull_parser). cbv iota beta.
    rewrite (parse_known_args_all _ _ (("--proxy", Some (OKnown pull_proxy "--proxy" None)) ::
                                         ((λ s, (s, None)) <$> ps))).
    2: { cbn [classify]. rewrite classify_plain by done. reflexivity. }
    rewrite consume_all_opt, <-(app_nil_r ((λ s, (s, None)) <$> ps)), consume_optional_star
      by reflexivity.
    reflexivity. }
  split; [done|]. unfold execute. by rewrite Hp.
Qed.

(** C12: The period of the poll loop [execute] starts for [pull
    --continuous --interval N]: [setInterval] gets [N * 1000], and Node
    runs the pull every [N] seconds only when [1 <= N <= 2147483]; for
    [N <= 0] and for [N >= 2147484] (about 24.9 days) it runs it every
    millisecond, with overlapping passes. *)
Theorem execute_poll_period q v o ps d i u pw dirs :
  plain o = true → Forall (λ s, plain s = true) ps → plain d = true →
  ∃ st, execute (render_pull q v o ps d true i) u pw dirs = Runs (Running st) ∧
    timer st = true ∧ trace st = [ESetInterval (JNum (i * 1000))] ∧
    timer_period (JNum (i * 1000)) =
      if bool_decide (1 ≤ i ≤ 2147483)%Z then i * 1000 else 1.
Proof.
  intros Ho Hps Hd. unfold execute, parseArgs. rewrite parse_args_render_pull by done. sum_simpl.
  unfold render_pull_ns. rewrite args_of_pull_ns.
  eexists. split_and!.
  - unfold start, run_handler, runCommand, get_args. unfold_m. cbn [args init_state].
    cbn [Config.command Config.continuous]. rewrite bool_decide_true by done. reflexivity.
  - done.
  - done.
  - unfold timer_period, TIMEOUT_MAX. cbn [to_number].
    case_bool_decide; [rewrite (proj2 (andb_true_iff _ _)) by (split; apply Z.leb_le; lia)|
      rewrite (proj2 (andb_false_iff _ _))]; [done..|].
    destruct (decide (i < 1)%Z); [left; apply Z.leb_gt; lia|right; apply Z.leb_gt; lia].
Qed.

(** ** Witnesses *)

(** [edgeci pull -o acme -p hello] gets the default destination "." and
    interval 30. *)
Lemma parseArgs_shape_witness :
  parseArgs ["pull"; "-o"; "acme"; "-p"; "hello"] None None =
    inr (mk_args (Some "pull") "acme" ["hello"] (Some ".") false (Some 30) None false None
           None None false false) ∧
  ((Some "pull" = Some "pull" ∧ is_Some (Some ".") ∧ is_Some (Some 30) ∧
      @None string = None ∧ false = false ∧ @None string = None) ∨
   (Some "pull" = Some "push" ∧ is_Some (@None string) ∧ Some "." = None ∧
      Some 30 = None ∧ false = false)).
Proof.
  assert (H : parseArgs ["pull"; "-o"; "acme"; "-p"; "hello"] None None =
    inr (mk_args (Some "pull") "acme" ["hello"] (Some ".") false (Some 30) None false None
           None None false false)) by (vm_compute; reflexivity).
  split; [exact H|]. exact (parseArgs_shape _ _ _ _ H).
Defined.

(** [--quite pull --org acme --proxy a,b hello --destination out
    --interval -5 --continuous] reads back, with the single proxy [a,b]
    and the negative interval. *)
Lemma parseArgs_render_pull_witness :
  plain "acme" = true ∧ Forall (λ s, plain s = true) ["a,b"; "hello"] ∧ plain "out" = true ∧
  (- 2 ^ 53 ≤ -5 ≤ 2 ^ 53)%Z ∧
  parseArgs (render_pull true false "acme" ["a,b"; "hello"] "out" true (-5)) None None =
    inr (mk_args (Some "pull") "acme" ["a,b"; "hello"] (Some "out") true (Some (-5)) None false
           None None None true false).
Proof.
  assert (H1 : plain "acme" = true) by reflexivity.
  assert (H2 : Forall (λ s, plain s = true) ["a,b"; "hello"]) by (repeat constructor).
  assert (H3 : plain "out" = true) by reflexivity.
  assert (H4 : (- 2 ^ 53 ≤ -5 ≤ 2 ^ 53)%Z) by lia.
  split; [exact H1|]. split; [exact H2|]. split; [exact H3|]. split; [exact H4|].
  exact (parseArgs_render_pull true false "acme" ["a,b"; "hello"] "out" true (-5) None None
           H1 H2 H3 H4).
Defined.

Lemma parseArgs_quiet_rejected_witness :
  plain "acme" = true ∧ Forall (λ s, plain s = true) ["hello"] ∧ plain "." = true ∧
  parseArgs ("--quiet" :: render_pull false false "acme" ["hello"] "." false 30) None None =
    inl (SError (EUnrecognized ["--quiet"])).
Proof.
  assert (H1 : plain "acme" = true) by reflexivity.
  assert (H2 : Forall (λ s, plain s = true) ["hello"]) by (repeat constructor).
  assert (H3 : plain "." = true) by reflexivity.
  split_and!; [exact H1|exact H2|exact H3|].
  exact (parseArgs_quiet_rejected false "acme" ["hello"] "." false 30 None None H1 H2 H3).
Defined.

Lemma parseArgs_missing_org_witness :
  Forall (λ s, plain s = true) ["hello"] ∧
  parseArgs ["pull"; "--proxy"; "hello"] None None = inl (SError (ERequired "-o/--org")) ∧
  execute ["pull"; "--proxy"; "hello"] None None (λ _, None) = Exit 2.
Proof.
  assert (H : Forall (λ s, plain s = true) ["hello"]) by (repeat constructor).
  split; [exact H|]. exact (parseArgs_missing_org ["hello"] None None (λ _, None) H).
Defined.

(** [--interval 2147484] polls every millisecond. *)
Lemma execute_poll_period_witness :
  plain "acme" = true ∧ Forall (λ s, plain s = true) ["hello"] ∧ plain "." = true ∧
  (∃ st, execute (render_pull false false "acme" ["hello"] "." true 2147484) None None
           (λ _, None) = Runs (Running st) ∧
     timer st = true ∧ trace st = [ESetInterval (JNum (2147484 * 1000))] ∧
     timer_period (JNum (2147484 * 1000)) =
       if bool_decide (1 ≤ 2147484 ≤ 2147483)%Z then 2147484 * 1000 else 1) ∧
  timer_period (JNum (2147484 * 1000)) = 1.
Proof.
  assert (H1 : plain "acme" = true) by reflexivity.
  assert (H2 : Forall (λ s, plain s = true) ["hello"]) by (repeat constructor).
  assert (H3 : plain "." = true) by reflexivity.
  split_and!; [exact H1|exact H2|exact H3| |vm_compute; reflexivity].
  exact (execute_poll_period false false "acme" ["hello"] "." 2147484 None None (λ _, None)
           H1 H2 H3).
Defined.

(** [edgeci --quite push --org acme --proxy hello world --source src --update]:
    no [--env], so no environment. *)
Lemma parseArgs_render_push_witness :
  plain "acme" = true ∧ Forall (λ x, plain x = true) ["hello"; "world"] ∧ plain "src" = true ∧
  plain_opt None = true ∧
  render_push true false "acme" ["hello"; "world"] "src" true None =
    ["--quite"; "push"; "--org"; "acme"; "--proxy"; "hello"; "world"; "--source"; "src"; "--update"] ∧
  parseArgs (render_push true false "acme" ["hello"; "world"] "src" true None) (Some "u") (Some "pw") =
    inr (mk_args (Some "push") "acme" ["hello"; "world"] None false None (Some "src") true None
           (Some "u") (Some "pw") true false).
Proof.
  assert (H1 : plain "acme" = true) by reflexivity.
  assert (H2 : Forall (λ x, plain x = true) ["hello"; "world"]) by (repeat constructor).
  assert (H3 : plain "src" = true) by reflexivity.
  assert (H4 : plain_opt None = true) by reflexivity.
  split_and!; [exact H1 | exact H2 | exact H3 | exact H4 | reflexivity |].
  exact (parseArgs_render_push true false _ _ _ true None _ _ H1 H2 H3 H4).
Defined.

End Cli.
